(** * k-point symmetry bookkeeping of [pyscf/pbc/lib/kpts.py]

    A shallow embedding of the orbit builder ([make_kpts_ibz]), the pair
    orbit builder ([make_kpairs_ibz]), the façade ([KPoints]) and the
    transport operations, with the properties of the specification proved
    on it.

    Conventions of the embedding.
    - A NumPy integer array is a [list Z]; a two-dimensional one is the list
      of its rows.  Indexing follows Python: a negative index counts from the
      end, an index out of range raises, which is [None] here.
    - The weights and the occupations are [float64] arrays: lists of
      binary64 numbers, with the kernel's IEEE 754 operations.  Python's
      [float / int] and NumPy's [int64 * float] first convert the integer.
    - The coordinates of the k-points and the rotation matrices are lists of
      exact rationals [Q]: the tolerant comparison of coordinates belongs to
      the matcher, which is outside the model.
    - Code that lives outside [kpts.py] (the cell, the symmetry super class,
      the tolerant matcher's numerics, [numpy.empty]'s memory) is collected
      in the record [Env]. *)

From Stdlib Require Import Floats.
From Stdlib Require Import ZArith QArith Qround Qabs Lia List Bool Permutation Sorted.
From stdpp Require Import base option list.

Local Open Scope Z_scope.

(** ** Python and NumPy primitives *)

Module Py.

(** [l[i]] index normalisation: [i] in [-len, len). *)
Definition index (len : nat) (i : Z) : option nat :=
  if (0 <=? i) && (i <? Z.of_nat len) then Some (Z.to_nat i)
  else if (- Z.of_nat len <=? i) && (i <? 0) then Some (Z.to_nat (i + Z.of_nat len))
  else None.

(** [l[i]] *)
Definition get {A} (l : list A) (i : Z) : option A :=
  j ← index (length l) i; l !! j.

(** [l[i] = v] *)
Definition set {A} (l : list A) (i : Z) (v : A) : option (list A) :=
  j ← index (length l) i; Some (<[j:=v]> l).

(** [a[idx]] with an integer array [idx]: a fresh array. *)
Definition take {A} (l : list A) (idx : list Z) : option (list A) :=
  mapM (get l) idx.

(** [a[idx] = v] with a scalar [v]. *)
Fixpoint put {A} (l : list A) (idx : list Z) (v : A) : option (list A) :=
  match idx with
  | [] => Some l
  | i :: idx' => l' ← set l i v; put l' idx' v
  end.

(** [a[idx] = vals], one value per index. *)
Fixpoint put_each {A} (l : list A) (idx : list Z) (vals : list A) : option (list A) :=
  match idx, vals with
  | i :: idx', v :: vals' => l' ← set l i v; put_each l' idx' vals'
  | _, _ => Some l
  end.

(** [np.arange(n)] *)
Definition arange (n : nat) : list Z := map Z.of_nat (seq 0 n).

(** [np.where(cond)[0]] for the condition [f] taken entry by entry. *)
Definition where_ {A} (f : A → bool) (l : list A) : list Z :=
  map Z.of_nat
    (List.filter (λ i, match l !! i with Some x => f x | None => false end)
                 (seq 0 (length l))).

(** [x in a] for an integer array. *)
Definition mem (x : Z) (l : list Z) : bool := existsb (Z.eqb x) l.

(** number of entries equal to [i] *)
Definition count (i : Z) (l : list Z) : Z :=
  Z.of_nat (length (List.filter (Z.eqb i) l)).

Definition maximum (l : list Z) : Z := fold_right Z.max 0 l.

(** [np.bincount(l)]: raises on a negative entry; one counter per value
    [0 .. max l]. *)
Definition bincount (l : list Z) : option (list Z) :=
  if existsb (λ x, x <? 0) l then None
  else match l with
       | [] => Some []
       | _ => Some (map (λ i, count (Z.of_nat i) l) (seq 0 (S (Z.to_nat (maximum l)))))
       end.

(** [a[::-1]] *)
Definition reversed {A} (l : list A) : list A := rev l.

(** [a[:-1]] *)
Definition drop_last {A} (l : list A) : list A := firstn (length l - 1) l.

(** wrap-around of a value stored into an [np.int32] array *)
Definition int32 (z : Z) : Z := (z + 2 ^ 31) mod 2 ^ 32 - 2 ^ 31.

End Py.

Definition Qsum (l : list Q) : Q := fold_right Qplus (0 # 1)%Q l.
Definition Zsum (l : list Z) : Z := fold_right Z.add 0 l.

(** ** Binary64 numbers *)

Abbreviation f64 := PrimFloat.float.

(** a one-dimensional [float64] array *)
Abbreviation fvec := (list f64).

(** Conversion of an integer to [float64], as [float(n)] and the cast of an
    [int64] entry do it: rounded to nearest.  The integers met here are
    counts and sizes, far below [2^63] in absolute value. *)
Definition f64_of_Z (z : Z) : f64 :=
  if z <? 0 then PrimFloat.opp (PrimFloat.of_uint63 (Uint63.of_Z (- z)))
  else PrimFloat.of_uint63 (Uint63.of_Z z).

(** [sum(a)]: the entries added from left to right, starting from zero *)
Definition f64_sum (l : fvec) : f64 := fold_left PrimFloat.add l 0%float.

(** the rational number a finite binary64 number stands for *)
Definition f64_exact (x : f64) : option Q :=
  match Prim2SF x with
  | S754_zero _ => Some 0%Q
  | S754_finite s m e =>
      let v := (inject_Z (Z.pos m) * (2 # 1) ^ e)%Q in
      Some (if s then (- v)%Q else v)
  | _ => None
  end.

(** the sum of the entries as real numbers, without rounding *)
Definition f64_exact_sum (l : fvec) : option Q :=
  qs ← mapM f64_exact l; Some (Qred (fold_right Qplus 0%Q qs)).

(** ** The decreasing-index claim pass

    Shared by [make_kpts_ibz] (lines 54-60) and [make_kpairs_ibz]
    (lines 133-148): the array [claimed] has one slot per index and a spare
    last slot that absorbs the [-1] entries of a row.  [cast] is the
    conversion to the array's dtype, [visit] the extra bookkeeping the pair
    builder does for every representative. *)

Section ClaimPass.
Context {X : Type}.
Variable cast : Z → Z.
Variable visit : list Z → option X.
Variable rows : list (list Z).

(** the body of the loop at index [k] *)
Definition claim_step (k : nat) (st : list Z * list Z * list X)
    : option (list Z * list Z * list X) :=
  let '(claimed, reps, extra) := st in
  v ← Py.get claimed (Z.of_nat k);
  if v =? -1 then
    row ← rows !! k;
    claimed' ← Py.put claimed row (cast (Z.of_nat k));
    x ← visit row;
    Some (claimed', reps ++ [Z.of_nat k], extra ++ [x])
  else Some st.

(** [for k in range(m-1, -1, -1)] *)
Fixpoint claim_desc (m : nat) (st : list Z * list Z * list X)
    : option (list Z * list Z * list X) :=
  match m with
  | O => Some st
  | S k => st' ← claim_step k st; claim_desc k st'
  end.
End ClaimPass.

(** Lines 54-65 and 133-158: representatives in increasing order and the
    orbit index of every point.  [empty] is the content of [np.empty(n)]. *)
Definition orbit_index {X} (cast : Z → Z) (visit : list Z → option X)
    (n : nat) (rows : list (list Z)) (empty : list Z)
    : option (list Z * list Z * list X) :=
  '(claimed, reps, extra) ← claim_desc cast visit rows n (replicate (n + 1) (-1), [], []);
  let ibz2bz := Py.reversed reps in
  let bz2bz := Py.drop_last claimed in
  tmp ← Py.put_each empty ibz2bz (map cast (Py.arange (length ibz2bz)));
  bz2ibz ← Py.take tmp bz2bz;
  Some (ibz2bz, bz2ibz, extra).

(** ** [numpy.unique(..., return_index=True)]

    The sorted distinct keys, each with the index of its first occurrence
    (NumPy's documented result; it sorts with a stable merge sort and keeps
    the head of every run). *)

Section Unique.
Context {K : Type}.
Variable leb : K → K → bool.
Variable eqb : K → K → bool.

Definition first_occurrences (l : list K) : list (K * nat) :=
  List.filter (λ p, negb (existsb (eqb (fst p)) (firstn (snd p) l)))
              (combine l (seq 0 (length l))).

Fixpoint insert_key (p : K * nat) (l : list (K * nat)) : list (K * nat) :=
  match l with
  | [] => [p]
  | q :: l' => if leb (fst p) (fst q) then p :: q :: l' else q :: insert_key p l'
  end.

Definition sort_keys (l : list (K * nat)) : list (K * nat) :=
  fold_right insert_key [] l.

Definition np_unique_index (l : list K) : list (K * nat) :=
  sort_keys (first_occurrences l).
End Unique.

Definition pair_leb (p q : Z * Z) : bool :=
  (fst p <? fst q) || ((fst p =? fst q) && (snd p <=? snd q)).
Definition pair_eqb (p q : Z * Z) : bool :=
  (fst p =? fst q) && (snd p =? snd q).

(** ** Data model *)

(** a row of an [(n,3)] float array, a [3x3] matrix, a complex matrix *)
Definition vec := list Q.
Definition mat := list (list Q).
Definition Cplx := (Q * Q)%type.
Definition cmat := list (list Cplx).
Definition Dmat := list mat.

(** [ndarray.conj()] *)
Definition conj (m : cmat) : cmat :=
  map (map (λ z : Cplx, (fst z, - snd z)%Q)) m.

(** The lattice object; its coordinate conversions are in [Env]. *)
Record Cell := {
  _built : bool;
  cell_verbose : Z;
}.

(** A symmetry operation with the flags [kpts.py] reads. *)
Record Op := {
  rot : list (list Z);
  trans : vec;
  is_eye : bool;
  is_inversion : bool;
  trans_is_zero : bool;
}.

(** State of the super class [symm.Symmetry]. *)
Record Symmetry := {
  cell : option Cell;
  ops : list Op;
  nop : Z;
  has_inversion : bool;
  Dmats : list Dmat;
}.

(** Location of a float array in the store. *)
Definition loc := nat.

(** The store of the float arrays that are updated in place. *)
Definition heap := list fvec.

Definition h_alloc (h : heap) (a : fvec) : heap * loc := (h ++ [a], length h).
Definition h_get (h : heap) (l : loc) : option fvec := h !! l.
Definition h_set (h : heap) (l : loc) (a : fvec) : option heap :=
  if decide (l < length h)%nat then Some (<[l:=a]> h) else None.

(** The k-pair attributes of [KPoints]; [None] is Python's [None]. *)
Record PairBook := {
  ibz2bz_kk : option (list Z);
  ibz_kk_weight : option loc;
  ibz2bz_kk_s2 : option (list Z);
  ibz_kk_s2_weight : option loc;
  bz2ibz_kk : option (list Z);
  kk_group : option (list (list Z));
  kk_sym_group : option (list (list Z));
}.

Record KPoints := {
  sym : Symmetry;
  verbose : Z;
  time_reversal : bool;
  kpts : list vec;
  kpts_ibz : list vec;
  kpts_scaled : option (list vec);
  kpts_scaled_ibz : option (list vec);
  weights : fvec;
  weights_ibz : fvec;
  ibz2bz : list Z;
  bz2ibz : list Z;
  k2opk : option (list (list Z));
  stars : list (list Z);
  stars_ops : list (list Z);
  stars_ops_bz : list Z;
  time_reversal_symm_bz : list Z;
  _nkpts : nat;
  _nkpts_ibz : nat;
  kk : PairBook;
}.

(** What the module calls but does not define. *)
Record Env := {
  (** [symm.Symmetry.__init__(self, cell)] *)
  Symmetry_init : option Cell → Symmetry;
  (** [symm.Symmetry.build(self, space_group_symmetry, symmorphic)] *)
  Symmetry_build : Symmetry → bool → bool → Symmetry;
  (** [cell.get_scaled_kpts], [cell.get_abs_kpts] *)
  get_scaled_kpts : Cell → list vec → list vec;
  get_abs_kpts : Cell → list vec → list vec;
  (** [op.a2b(cell).rot] *)
  a2b_rot : Cell → Op → mat;
  (** the result of the floating-point matcher [map_k_points_fast] *)
  map_k_points_fast : list vec → list mat → Q → list (list Z);
  (** [symm.transform_mo_coeff(cell, kpt_scaled, mo, op, Dmats)] *)
  symm_transform_mo_coeff : Cell → vec → cmat → Op → Dmat → cmat;
  (** memory found by the [np.empty] call at a source line *)
  junk : nat → nat → Z;
}.

Definition np_empty (E : Env) (line n : nat) : list Z :=
  map (junk E line) (seq 0 n).

Definition KPTS_DIFF_TOL : Q := 1 # 1000000.
Definition logger_NOTE : Z := 3.

(** ** Float helpers of the operation search *)

Definition Qltb (x y : Q) : bool := negb (Qle_bool y x).

(** [x.round()]: to the nearest integer, ties to even *)
Definition Qrint (x : Q) : Z :=
  let f := Qfloor x in
  match Qcompare (x - inject_Z f) (1 # 2) with
  | Lt => f
  | Gt => f + 1
  | Eq => if Z.even f then f else f + 1
  end.

(** [np.dot(v, op.T)] *)
Definition dot_T (v : vec) (op : mat) : vec :=
  map (λ row, Qsum (zip_with Qmult v row)) op.

Definition mat_neg (m : mat) : mat := map (map Qopp) m.

(** lines 81-83 and 98-100 *)
Definition connects (bz_k_scaled ibz_k_scaled : vec) (op : mat) : bool :=
  let diff := zip_with Qminus bz_k_scaled (dot_T ibz_k_scaled op) in
  let diff := map (λ d, d - inject_Z (Qrint d))%Q diff in
  forallb (λ d, Qltb (Qabs d) KPTS_DIFF_TOL) diff.

(** [bz2bz_ks[:,io]] *)
Definition column (T : list (list Z)) (io : nat) : option (list Z) :=
  mapM (λ row : list Z, Py.get row (Z.of_nat io)) T.

(** The inner loop over [enumerate(op_rot)], from position [io] on: the
    first usable operation that connects the two points. *)
Fixpoint find_op (T : list (list Z)) (bz_k ibz_k : vec) (io : nat) (op_rot : list mat)
    : option (option nat) :=
  match op_rot with
  | [] => Some None
  | op :: rest =>
      col ← column T io;
      if Py.mem (-1) col then find_op T bz_k ibz_k (S io) rest
      else if connects bz_k ibz_k op then Some (Some io)
      else find_op T bz_k ibz_k (S io) rest
  end.

(** ** [KPoints.__init__] *)

Definition KPoints_init (E : Env) (cell_arg : option Cell) (kpts_arg : list vec)
    : option KPoints :=
  let s := Symmetry_init E cell_arg in
  let verbose :=
    match cell s with
    | Some c => if cell_verbose c =? 0 then logger_NOTE else cell_verbose c
    | None => logger_NOTE
    end in
  let nkpts := length kpts_arg in
  (* [1./nkpts] divides by zero on an empty mesh *)
  if (nkpts =? 0)%nat then None
  else
    let w := replicate nkpts (1 / f64_of_Z (Z.of_nat nkpts))%float in
    Some {| sym := s; verbose := verbose; time_reversal := false;
            kpts := kpts_arg; kpts_ibz := kpts_arg;
            kpts_scaled := None; kpts_scaled_ibz := None;
            weights := w; weights_ibz := w;
            ibz2bz := Py.arange nkpts; bz2ibz := Py.arange nkpts;
            k2opk := None; stars := []; stars_ops := [];
            stars_ops_bz := replicate nkpts 0;
            time_reversal_symm_bz := replicate nkpts 0;
            _nkpts := nkpts; _nkpts_ibz := nkpts;
            kk := {| ibz2bz_kk := None; ibz_kk_weight := None;
                     ibz2bz_kk_s2 := None; ibz_kk_s2_weight := None;
                     bz2ibz_kk := None; kk_group := None; kk_sym_group := None |} |}.

(** ** [make_kpts_ibz] *)

(** lines 44-46: the rotations, doubled by their negatives under time
    reversal *)
Definition op_rot_of (E : Env) (c : Cell) (self : KPoints) : list mat :=
  let op_rot := map (a2b_rot E c) (ops (sym self)) in
  if time_reversal self then op_rot ++ map mat_neg op_rot else op_rot.

Section OperationSearch.
Variable bz2bz_ks : list (list Z).
Variable op_rot : list mat.
Variable nop_ : Z.
Variable kpts_scaled_ kpts_scaled_ibz_ : list vec.
Variable bz2ibz_ : list Z.

(** lines 74-86, the state being [(time_reversal_symm_bz, stars_ops_bz)] *)
Fixpoint connect_bz (ks : list nat) (st : list Z * list Z) : option (list Z * list Z) :=
  match ks with
  | [] => Some st
  | k :: ks' =>
      bz_k_scaled ← Py.get kpts_scaled_ (Z.of_nat k);
      ibz_idx ← Py.get bz2ibz_ (Z.of_nat k);
      ibz_k_scaled ← Py.get kpts_scaled_ibz_ ibz_idx;
      r ← find_op bz2bz_ks bz_k_scaled ibz_k_scaled 0 op_rot;
      match r with
      | None => connect_bz ks' st
      | Some io =>
          if nop_ =? 0 then None
          else
            trs ← Py.set (fst st) (Z.of_nat k) (Z.of_nat io / nop_);
            sops ← Py.set (snd st) (Z.of_nat k) (Z.of_nat io mod nop_);
            connect_bz ks' (trs, sops)
      end
  end.

(** lines 93-102 for the orbit [i] with members [idx] *)
Fixpoint star_ops (ibz_k_scaled : vec) (i : Z) (idx : list Z) (sops : list (list Z))
    : option (list (list Z)) :=
  match idx with
  | [] => Some sops
  | kj :: idx' =>
      bz_k_scaled ← Py.get kpts_scaled_ kj;
      r ← find_op bz2bz_ks bz_k_scaled ibz_k_scaled 0 op_rot;
      match r with
      | None => star_ops ibz_k_scaled i idx' sops
      | Some io =>
          if nop_ =? 0 then None
          else
            cur ← Py.get sops i;
            sops' ← Py.set sops i (cur ++ [Z.of_nat io mod nop_]);
            star_ops ibz_k_scaled i idx' sops'
      end
  end.

(** lines 88-102, the state being [(stars, stars_ops)] *)
Fixpoint build_stars (rng : list nat) (st : list (list Z) * list (list Z))
    : option (list (list Z) * list (list Z)) :=
  match rng with
  | [] => Some st
  | i :: rng' =>
      let sops := snd st ++ [[]] in
      ibz_k_scaled ← Py.get kpts_scaled_ibz_ (Z.of_nat i);
      let idx := Py.where_ (Z.eqb (Z.of_nat i)) bz2ibz_ in
      let stars_ := fst st ++ [idx] in
      sops' ← star_ops ibz_k_scaled (Z.of_nat i) idx sops;
      build_stars rng' (stars_, sops')
  end.
End OperationSearch.

Definition make_kpts_ibz (E : Env) (self : KPoints) : option KPoints :=
  c ← cell (sym self);
  let nkpts := _nkpts self in
  let nop_ := nop (sym self) in
  let op_rot := op_rot_of E c self in
  ks ← kpts_scaled self;
  let bz2bz_ks := map_k_points_fast E ks op_rot KPTS_DIFF_TOL in
  '(ibz2bz_k, bz2ibz_k, _) ←
     orbit_index id (λ _, Some tt) nkpts bz2bz_ks (np_empty E 63 nkpts);
  counts ← Py.bincount bz2ibz_k;
  if (nkpts =? 0)%nat then None
  else
    let w_ibz := map (λ n, f64_of_Z n * (1 / f64_of_Z (Z.of_nat nkpts)))%float counts in
    ks_ibz ← Py.take ks ibz2bz_k;
    let k_ibz := get_abs_kpts E c ks_ibz in
    let nkpts_ibz := length k_ibz in
    '(trs, sops_bz) ←
       connect_bz bz2bz_ks op_rot nop_ ks ks_ibz bz2ibz_k (seq 0 nkpts)
                  (time_reversal_symm_bz self, stars_ops_bz self);
    '(stars_, sops) ←
       build_stars bz2bz_ks op_rot nop_ ks ks_ibz bz2ibz_k (seq 0 nkpts_ibz)
                   (stars self, stars_ops self);
    Some {| sym := sym self; verbose := verbose self;
            time_reversal := time_reversal self;
            kpts := kpts self; kpts_ibz := k_ibz;
            kpts_scaled := kpts_scaled self; kpts_scaled_ibz := Some ks_ibz;
            weights := weights self; weights_ibz := w_ibz;
            ibz2bz := ibz2bz_k; bz2ibz := bz2ibz_k;
            k2opk := Some bz2bz_ks; stars := stars_; stars_ops := sops;
            stars_ops_bz := sops_bz; time_reversal_symm_bz := trs;
            _nkpts := _nkpts self; _nkpts_ibz := nkpts_ibz;
            kk := kk self |}.

(** ** [make_kpairs_ibz] *)

(** [lib.cartesian_prod((a, b))]: the first array varies slowest *)
Definition cartesian_prod (a b : list Z) : list (Z * Z) :=
  flat_map (λ x, map (λ y, (x, y)) b) a.

(** lines 127-130: the image of every pair under one operation *)
Definition pair_column (nbzk : Z) (col : list Z) : list Z :=
  map (λ p : Z * Z, if (fst p =? -1) || (snd p =? -1) then -1 else fst p * nbzk + snd p)
      (cartesian_prod col col).

(** lines 126-132: [bz2bz_ksks], one row per pair; every column must fill
    a row of [bz2bz_ksks_T], which has [nbzk2] entries *)
Definition pair_table (nbzk nop_ : nat) (bz2bz_ks : list (list Z)) : option (list (list Z)) :=
  cols ← mapM (λ iop, col ← column bz2bz_ks iop;
                      let pc := pair_column (Z.of_nat nbzk) col in
                      if (length pc =? nbzk * nbzk)%nat then Some pc else None)
              (seq 0 nop_);
  Some (map (λ k, map (λ pc : list Z, nth k pc 0) cols) (seq 0 (nbzk * nbzk))).

(** lines 142-148: [(k_idx, op_idx)] of a representative's row *)
Definition pair_groups (row : list Z) : option (list Z * list Z) :=
  match np_unique_index Z.leb Z.eqb row with
  | [] => None
  | p :: u' =>
      let u := if fst p =? -1 then u' else p :: u' in
      Some (map fst u, map (λ q, Z.of_nat (snd q)) u)
  end.

(** lines 181-183 *)
Fixpoint halve_absent (ibz2bz_kk_ idx_ji : list Z) (l : loc) (rng : list nat) (h : heap)
    : option heap :=
  match rng with
  | [] => Some h
  | i :: rng' =>
      ji ← Py.get idx_ji (Z.of_nat i);
      if Py.mem ji ibz2bz_kk_ then halve_absent ibz2bz_kk_ idx_ji l rng' h
      else
        w ← h_get h l;
        x ← Py.get w (Z.of_nat i);
        w' ← Py.set w (Z.of_nat i) (x / 2)%float;
        h' ← h_set h l w';
        halve_absent ibz2bz_kk_ idx_ji l rng' h'
  end.

(** lines 166-183, run on the object as lines 117-163 leave it *)
Definition permutation_step (h : heap) (self : KPoints) : option (heap * KPoints) :=
  let nbzk := Z.of_nat (_nkpts self) in
  ibz2bz_kk_ ← ibz2bz_kk (kk self);
  let idx_i := map (λ p, p / nbzk) ibz2bz_kk_ in
  let idx_j := map (λ p, p mod nbzk) ibz2bz_kk_ in
  let idx_ij_sort := zip_with (λ i j, (Z.min i j, Z.max i j)) idx_i idx_j in
  let idx_ij_s2 := map (λ q, Z.of_nat (snd q)) (np_unique_index pair_leb pair_eqb idx_ij_sort) in
  s2 ← Py.take ibz2bz_kk_ idx_ij_s2;
  lw ← ibz_kk_weight (kk self);
  w ← h_get h lw;
  w_s2 ← Py.take w idx_ij_s2;
  let '(h1, l2) := h_alloc h w_s2 in
  let self1 :=
    {| sym := sym self; verbose := verbose self; time_reversal := time_reversal self;
       kpts := kpts self; kpts_ibz := kpts_ibz self;
       kpts_scaled := kpts_scaled self; kpts_scaled_ibz := kpts_scaled_ibz self;
       weights := weights self; weights_ibz := weights_ibz self;
       ibz2bz := ibz2bz self; bz2ibz := bz2ibz self;
       k2opk := k2opk self; stars := stars self; stars_ops := stars_ops self;
       stars_ops_bz := stars_ops_bz self;
       time_reversal_symm_bz := time_reversal_symm_bz self;
       _nkpts := _nkpts self; _nkpts_ibz := _nkpts_ibz self;
       kk := {| ibz2bz_kk := ibz2bz_kk (kk self);
                ibz_kk_weight := ibz_kk_weight (kk self);
                ibz2bz_kk_s2 := Some s2;
                ibz_kk_s2_weight := Some l2;
                bz2ibz_kk := bz2ibz_kk (kk self);
                kk_group := kk_group (kk self);
                kk_sym_group := kk_sym_group (kk self) |} |} in
  let idx_i := map (λ p, p / nbzk) s2 in
  let idx_j := map (λ p, p mod nbzk) s2 in
  let idx_ji := zip_with (λ j i, j * nbzk + i) idx_j idx_i in
  let offdiag := Py.where_ (λ p : Z * Z, negb (fst p =? snd p)) (combine idx_i idx_j) in
  w1 ← h_get h1 l2;
  vals ← Py.take w1 offdiag;
  w2 ← Py.put_each w1 offdiag (map (λ x, x * 2)%float vals);
  h2 ← h_set h1 l2 w2;
  w3 ← h_get h2 l2;
  ibz2bz_kk_now ← ibz2bz_kk (kk self1);
  h3 ← halve_absent ibz2bz_kk_now idx_ji l2 (seq 0 (length w3)) h2;
  Some (h3, self1).

Definition make_kpairs_ibz (E : Env) (h : heap) (self : KPoints)
    (permutation_symmetry : bool) : option (heap * KPoints) :=
  bz2bz_ks ← k2opk self;
  let nop_ := match bz2bz_ks with [] => O | r :: _ => length r end in
  let nbzk := _nkpts self in
  let nbzk2 := (nbzk * nbzk)%nat in
  bz2bz_ksks ← pair_table nbzk nop_ bz2bz_ks;
  '(ibz2bz_kk_, bz2ibz_kk_, groups) ←
     orbit_index Py.int32 pair_groups nbzk2 bz2bz_ksks
                 (map Py.int32 (np_empty E 156 nbzk2));
  counts ← Py.bincount bz2ibz_kk_;
  if (nbzk2 =? 0)%nat then None
  else
    let w := map (λ n, f64_of_Z n * (1 / f64_of_Z (Z.of_nat nbzk2)))%float counts in
    let '(h1, lw) := h_alloc h w in
    let self1 :=
      {| sym := sym self; verbose := verbose self; time_reversal := time_reversal self;
         kpts := kpts self; kpts_ibz := kpts_ibz self;
         kpts_scaled := kpts_scaled self; kpts_scaled_ibz := kpts_scaled_ibz self;
         weights := weights self; weights_ibz := weights_ibz self;
         ibz2bz := ibz2bz self; bz2ibz := bz2ibz self;
         k2opk := k2opk self; stars := stars self; stars_ops := stars_ops self;
         stars_ops_bz := stars_ops_bz self;
         time_reversal_symm_bz := time_reversal_symm_bz self;
         _nkpts := _nkpts self; _nkpts_ibz := _nkpts_ibz self;
         kk := {| ibz2bz_kk := Some ibz2bz_kk_;
                  ibz_kk_weight := Some lw;
                  ibz2bz_kk_s2 := ibz2bz_kk_s2 (kk self);
                  ibz_kk_s2_weight := ibz_kk_s2_weight (kk self);
                  bz2ibz_kk := Some bz2ibz_kk_;
                  kk_group := Some (Py.reversed (map fst groups));
                  kk_sym_group := Some (Py.reversed (map snd groups)) |} |} in
    if permutation_symmetry then permutation_step h1 self1 else Some (h1, self1).

(** ** [KPoints.build]

    The third component of the result tells whether [self] was returned
    ([true]) or the method left early with [None] ([false]).  [dump_info]
    only logs. *)

Definition build (E : Env) (h : heap) (self : KPoints)
    (space_group_symmetry time_reversal_symmetry symmorphic make_kpairs : bool)
    : option (heap * KPoints * bool) :=
  let s := Symmetry_build E (sym self) space_group_symmetry symmorphic in
  let self0 :=
    {| sym := s; verbose := verbose self; time_reversal := time_reversal self;
       kpts := kpts self; kpts_ibz := kpts_ibz self;
       kpts_scaled := kpts_scaled self; kpts_scaled_ibz := kpts_scaled_ibz self;
       weights := weights self; weights_ibz := weights_ibz self;
       ibz2bz := ibz2bz self; bz2ibz := bz2ibz self;
       k2opk := k2opk self; stars := stars self; stars_ops := stars_ops self;
       stars_ops_bz := stars_ops_bz self;
       time_reversal_symm_bz := time_reversal_symm_bz self;
       _nkpts := _nkpts self; _nkpts_ibz := _nkpts_ibz self; kk := kk self |} in
  match cell s with
  | None => Some (h, self0, false)
  | Some c =>
      if negb (_built c) then Some (h, self0, false)
      else
        let scaled := get_scaled_kpts E c (kpts self0) in
        let self1 :=
          {| sym := s; verbose := verbose self;
             time_reversal := time_reversal_symmetry && negb (has_inversion s);
             kpts := kpts self; kpts_ibz := kpts_ibz self;
             kpts_scaled := Some scaled; kpts_scaled_ibz := Some scaled;
             weights := weights self; weights_ibz := weights_ibz self;
             ibz2bz := ibz2bz self; bz2ibz := bz2ibz self;
             k2opk := k2opk self; stars := stars self; stars_ops := stars_ops self;
             stars_ops_bz := stars_ops_bz self;
             time_reversal_symm_bz := time_reversal_symm_bz self;
             _nkpts := _nkpts self; _nkpts_ibz := _nkpts_ibz self; kk := kk self |} in
        self2 ← make_kpts_ibz E self1;
        if make_kpairs then
          '(h', self3) ← make_kpairs_ibz E h self2 true;
          Some (h', self3, true)
        else Some (h, self2, true)
  end.

(** ** Transport *)

(** [transform_mo_coeff_k] *)
Definition transform_mo_coeff_k (E : Env) (self : KPoints) (mo_coeff_ibz : list cmat)
    (k : Z) : option cmat :=
  ibz_k_idx ← Py.get (bz2ibz self) k;
  ks_ibz ← kpts_scaled_ibz self;
  ibz_k_scaled ← Py.get ks_ibz ibz_k_idx;
  iop ← Py.get (stars_ops_bz self) k;
  op ← Py.get (ops (sym self)) iop;
  time_reversal_k ← Py.get (time_reversal_symm_bz self) k;
  mo_ibz ← Py.get mo_coeff_ibz ibz_k_idx;
  if is_eye op then
    if negb (time_reversal_k =? 0) then Some (conj mo_ibz) else Some mo_ibz
  else if is_inversion op then Some (conj mo_ibz)
  else
    c ← cell (sym self);
    D ← Py.get (Dmats (sym self)) iop;
    let mo_bz := symm_transform_mo_coeff E c ibz_k_scaled mo_ibz op D in
    if negb (time_reversal_k =? 0) then Some (conj mo_bz) else Some mo_bz.

(** Outcome of a call that may raise [RuntimeError("Symmetry broken")];
    [OtherError] stands for any other exception (a bad index, arrays that
    cannot be subtracted). *)
Inductive result (A : Type) : Type :=
  | Ok (a : A)
  | SymmetryBroken
  | OtherError.
Arguments Ok {A} a.
Arguments SymmetryBroken {A}.
Arguments OtherError {A}.

Definition of_option {A} (o : option A) : result A :=
  match o with Some a => Ok a | None => OtherError end.

Definition rbind {A B} (r : result A) (f : A → result B) : result B :=
  match r with
  | Ok a => f a
  | SymmetryBroken => SymmetryBroken
  | OtherError => OtherError
  end.

(** [a - b] for two one-dimensional arrays: entry by entry when the
    lengths agree; an array of length one is broadcast over the other;
    any other pair of lengths raises [ValueError]. *)
Definition np_sub (a b : fvec) : option fvec :=
  if (length a =? length b)%nat then Some (zip_with PrimFloat.sub a b)
  else match a, b with
       | [x], _ => Some (map (λ y, x - y)%float b)
       | _, [y] => Some (map (λ x, x - y)%float a)
       | _, _ => None
       end.

(** [(np.absolute(a - b) < tol).all()] *)
Definition occ_close (tol : f64) (a b : fvec) : option bool :=
  d ← np_sub a b;
  Some (forallb (λ x, PrimFloat.ltb (PrimFloat.abs x) tol) d).

Section CheckOcc.
Variable mo_occ : list fvec.
Variable tol : f64.

(** [for j in range(i+1, nbzk)] *)
Fixpoint check_row (bz_k : list Z) (i : nat) (js : list nat) : result unit :=
  match js with
  | [] => Ok tt
  | j :: js' =>
      rbind (of_option (ki ← Py.get bz_k (Z.of_nat i); Py.get mo_occ ki)) (λ a,
      rbind (of_option (kj ← Py.get bz_k (Z.of_nat j); Py.get mo_occ kj)) (λ b,
      rbind (of_option (occ_close tol a b)) (λ close,
      if negb close then SymmetryBroken
      else check_row bz_k i js')))
  end.

(** [for i in range(nbzk)] *)
Fixpoint check_star (bz_k : list Z) (rng : list nat) : result unit :=
  match rng with
  | [] => Ok tt
  | i :: rng' =>
      rbind (check_row bz_k i (seq (S i) (length bz_k - S i)))
            (λ _, check_star bz_k rng')
  end.

(** [for bz_k in kpts.stars] *)
Fixpoint check_stars (sts : list (list Z)) : result unit :=
  match sts with
  | [] => Ok tt
  | bz_k :: sts' =>
      rbind (check_star bz_k (seq 0 (length bz_k))) (λ _, check_stars sts')
  end.
End CheckOcc.

Definition check_mo_occ_symmetry (self : KPoints) (mo_occ : list fvec) (tol : f64)
    : result (list fvec) :=
  rbind (check_stars mo_occ tol (stars self)) (λ _,
  of_option (mapM (λ k, r ← Py.get (ibz2bz self) (Z.of_nat k); Py.get mo_occ r)
                  (seq 0 (_nkpts_ibz self)))).

(** Modelled from the spec: [kpts_helper.member] is imported from a module
    that is not part of the sources at hand.  The specification's data model
    takes two k-points as equal when they agree within a fixed tolerance
    (default 1e-6), and the docstring of [make_gdf_kptij_lst_jk] names the
    combinations [k_ibz != k_bz]: [member(kpt, kpts)] is the array of the
    indices [j] whose [kpts[j]] equals [kpt] within that tolerance. *)
Definition KPT_DIFF_TOL : Q := 1 # 1000000.
Definition member (kpt : vec) (kpts_ : list vec) : list Z :=
  Py.where_ (λ k : vec, Qltb (Qsum (map Qabs (zip_with Qminus k kpt))) KPT_DIFF_TOL) kpts_.

Section Gdf.
Variable kpts_ : list vec.

(** lines 645-648 *)
Fixpoint gdf_inner (ki : vec) (where_ki : list Z) (js : list nat)
    (kptij_lst : list (vec * vec)) : option (list (vec * vec)) :=
  match js with
  | [] => Some kptij_lst
  | j :: js' =>
      kj ← Py.get kpts_ (Z.of_nat j);
      if negb (Py.mem (Z.of_nat j) where_ki)
      then gdf_inner ki where_ki js' (kptij_lst ++ [(ki, kj)])
      else gdf_inner ki where_ki js' kptij_lst
  end.

(** lines 642-648 *)
Fixpoint gdf_outer (kpts_ibz_ : list vec) (nkpts : nat) (rng : list nat)
    (kptij_lst : list (vec * vec)) : option (list (vec * vec)) :=
  match rng with
  | [] => Some kptij_lst
  | i :: rng' =>
      ki ← Py.get kpts_ibz_ (Z.of_nat i);
      let where_ki := member ki kpts_ in
      lst ← gdf_inner ki where_ki (seq 0 nkpts) kptij_lst;
      gdf_outer kpts_ibz_ nkpts rng' lst
  end.
End Gdf.

Definition make_gdf_kptij_lst_jk (self : KPoints) : option (list (vec * vec)) :=
  diag ← mapM (λ i, ki ← Py.get (kpts self) (Z.of_nat i); Some (ki, ki))
              (seq 0 (_nkpts self));
  gdf_outer (kpts self) (kpts_ibz self) (_nkpts self) (seq 0 (_nkpts_ibz self)) diag.

(** ** Transport over the whole zone *)

(** The two layouts the transport functions accept: one entry per k-point,
    or one such list per spin.  The source tells them apart by the type of
    [x[0][0]]. *)
Inductive spin (A : Type) : Type :=
  | Restricted (x : list A)
  | Unrestricted (a b : list A).
Arguments Restricted {A} x.
Arguments Unrestricted {A} a b.

(** The evaluation of [x[0][0]] in the dispatch, with the value of
    [is_uhf]: in the restricted layout it reads the first entry of the first
    array, in the unrestricted one the first array of the first spin. *)
Definition probe {B} (x : spin (list B)) : option bool :=
  match x with
  | Restricted l => first ← Py.get l 0; _ ← Py.get first 0; Some false
  | Unrestricted a _ => _ ← Py.get a 0; Some true
  end.

(** [transform_mo_occ], lines 422-438 *)
Definition transform_mo_occ (self : KPoints) (mo_occ_ibz : spin fvec)
    : option (spin fvec) :=
  is_uhf ← probe mo_occ_ibz;
  match mo_occ_ibz with
  | Unrestricted a b =>
      occ ← mapM (λ k, ibz_k_idx ← Py.get (bz2ibz self) (Z.of_nat k);
                       oa ← Py.get a ibz_k_idx;
                       ob ← Py.get b ibz_k_idx;
                       Some (oa, ob))
                 (seq 0 (_nkpts self));
      Some (Unrestricted (map fst occ) (map snd occ))
  | Restricted x =>
      occ ← mapM (λ k, ibz_k_idx ← Py.get (bz2ibz self) (Z.of_nat k);
                       Py.get x ibz_k_idx)
                 (seq 0 (_nkpts self));
      Some (Restricted occ)
  end.

(** [transform_mo_energy], lines 486-503 *)
Definition transform_mo_energy (self : KPoints) (mo_energy_ibz : spin fvec)
    : option (spin fvec) :=
  is_uhf ← probe mo_energy_ibz;
  match mo_energy_ibz with
  | Unrestricted a b =>
      mo_energy_bz ← mapM (λ k, ibz_k_idx ← Py.get (bz2ibz self) (Z.of_nat k);
                                ea ← Py.get a ibz_k_idx;
                                eb ← Py.get b ibz_k_idx;
                                Some (ea, eb))
                          (seq 0 (_nkpts self));
      Some (Unrestricted (map fst mo_energy_bz) (map snd mo_energy_bz))
  | Restricted x =>
      mo_energy_bz ← mapM (λ k, ibz_k_idx ← Py.get (bz2ibz self) (Z.of_nat k);
                                Py.get x ibz_k_idx)
                          (seq 0 (_nkpts self));
      Some (Restricted mo_energy_bz)
  end.

(** the local function [_transform] of [transform_mo_coeff], lines 363-376 *)
Definition _transform (E : Env) (self : KPoints) (ibz_k_scaled : vec) (time_reversal_k : Z)
    (mo_ibz : cmat) (iop : Z) (op : Op) : option cmat :=
  if is_eye op then
    if negb (time_reversal_k =? 0) then Some (conj mo_ibz) else Some mo_ibz
  else if is_inversion op then Some (conj mo_ibz)
  else
    c ← cell (sym self);
    D ← Py.get (Dmats (sym self)) iop;
    let mo_bz := symm_transform_mo_coeff E c ibz_k_scaled mo_ibz op D in
    if negb (time_reversal_k =? 0) then Some (conj mo_bz) else Some mo_bz.

(** [transform_mo_coeff], lines 342-386 *)
Definition transform_mo_coeff (E : Env) (self : KPoints) (mo_coeff_ibz : spin cmat)
    : option (spin cmat) :=
  is_uhf ← probe mo_coeff_ibz;
  match mo_coeff_ibz with
  | Unrestricted a b =>
      mos ← mapM (λ k,
                   ibz_k_idx ← Py.get (bz2ibz self) (Z.of_nat k);
                   ks_ibz ← kpts_scaled_ibz self;
                   ibz_k_scaled ← Py.get ks_ibz ibz_k_idx;
                   iop ← Py.get (stars_ops_bz self) (Z.of_nat k);
                   op ← Py.get (ops (sym self)) iop;
                   time_reversal_k ← Py.get (time_reversal_symm_bz self) (Z.of_nat k);
                   mo_coeff_a ← Py.get a ibz_k_idx;
                   ma ← _transform E self ibz_k_scaled time_reversal_k mo_coeff_a iop op;
                   mo_coeff_b ← Py.get b ibz_k_idx;
                   mb ← _transform E self ibz_k_scaled time_reversal_k mo_coeff_b iop op;
                   Some (ma, mb))
                 (seq 0 (_nkpts self));
      Some (Unrestricted (map fst mos) (map snd mos))
  | Restricted x =>
      mos ← mapM (λ k,
                   ibz_k_idx ← Py.get (bz2ibz self) (Z.of_nat k);
                   ks_ibz ← kpts_scaled_ibz self;
                   ibz_k_scaled ← Py.get ks_ibz ibz_k_idx;
                   iop ← Py.get (stars_ops_bz self) (Z.of_nat k);
                   op ← Py.get (ops (sym self)) iop;
                   time_reversal_k ← Py.get (time_reversal_symm_bz self) (Z.of_nat k);
                   mo_coeff ← Py.get x ibz_k_idx;
                   _transform E self ibz_k_scaled time_reversal_k mo_coeff iop op)
                 (seq 0 (_nkpts self));
      Some (Restricted mos)
  end.

(** ** [make_kpts]

    The argument [kpts] is either an array of points or a [KPoints]
    object; [build] is called with its default [make_kpairs=True]. *)
Inductive kpts_arg : Type :=
  | Points (k : list vec)
  | Object (self : KPoints).


(** ** Vocabulary of the statements *)

(** entry [k, s] of a mapping table, [-1] where there is none *)
Definition tbl (T : list (list Z)) (k s : nat) : Z :=
  default (-1) (row ← T !! k; row !! s).

(** Shape of the matcher's result (lines 221 and 244-246 of the source):
    [n] rows of [nops] entries, each [-1] or the index of a point. *)
Definition table_wf (n nops : nat) (T : list (list Z)) : Prop :=
  length T = n ∧
  Forall (λ row, length row = nops ∧ Forall (λ e, -1 ≤ e < Z.of_nat n) row) T.

(** The table is that of a group of operations acting on the mesh, as far
    as the images stay in the mesh: some column is the identity, every
    column has an inverse column and any two columns compose to a third. *)
Definition action_table (n nops : nat) (T : list (list Z)) : Prop :=
  Exists (λ e, Forall (λ k, tbl T k e = Z.of_nat k) (seq 0 n)) (seq 0 nops) ∧
  Forall (λ s,
    Exists (λ t,
      Forall (λ k, tbl T k s ≠ -1 → tbl T (Z.to_nat (tbl T k s)) t = Z.of_nat k)
             (seq 0 n)) (seq 0 nops)) (seq 0 nops) ∧
  Forall (λ s, Forall (λ t,
    Exists (λ u,
      Forall (λ k, tbl T k s ≠ -1 →
                   tbl T (Z.to_nat (tbl T k s)) t ≠ -1 →
                   tbl T k u = tbl T (Z.to_nat (tbl T k s)) t)
             (seq 0 n)) (seq 0 nops)) (seq 0 nops)) (seq 0 nops).

#[global] Instance table_wf_dec n nops T : Decision (table_wf n nops T).
Proof. unfold table_wf. apply _. Defined.

#[global] Instance action_table_dec n nops T : Decision (action_table n nops T).
Proof. unfold action_table. apply _. Defined.

(** [j'] is among the images listed in row [j] *)
Definition reach (rows : list (list Z)) (j j' : nat) : Prop :=
  ∃ row, rows !! j = Some row ∧ Z.of_nat j' ∈ row.

(** the claim pass recorded [x] when it visited the row of [r] *)
Definition visited {X} (visit : list Z → option X) (rows : list (list Z))
    (r : Z) (x : X) : Prop :=
  ∃ (k : nat) row, r = Z.of_nat k ∧ rows !! k = Some row ∧ visit row = Some x.

(** no image in row [r] has a larger index than [r] *)
Definition is_top (rows : list (list Z)) (r : nat) : bool :=
  match rows !! r with
  | Some row => forallb (λ e, e <=? Z.of_nat r) row
  | None => false
  end.

(** What the environment is assumed to do: coordinate conversions keep the
    number of points, the matcher returns a table of the right shape. *)
Definition env_ok (E : Env) : Prop :=
  (∀ c l, length (get_scaled_kpts E c l) = length l) ∧
  (∀ c l, length (get_abs_kpts E c l) = length l) ∧
  (∀ pts op_rot tol,
     table_wf (length pts) (length op_rot) (map_k_points_fast E pts op_rot tol)).

(** The object as [__init__] and the first lines of [build] leave it, up
    to the call of [make_kpts_ibz]. *)
Definition ready (self : KPoints) : Prop :=
  is_Some (cell (sym self)) ∧
  (∃ ks, kpts_scaled self = Some ks ∧ length ks = _nkpts self) ∧
  (0 < _nkpts self)%nat ∧
  length (stars_ops_bz self) = _nkpts self ∧
  length (time_reversal_symm_bz self) = _nkpts self ∧
  nop (sym self) = Z.of_nat (length (ops (sym self))).

(** The operations on the mesh form a group, as far as the table of the
    matcher shows. *)
Definition group_closed (E : Env) (self : KPoints) : Prop :=
  ∀ c ks, cell (sym self) = Some c → kpts_scaled self = Some ks →
    action_table (_nkpts self) (length (op_rot_of E c self))
                 (map_k_points_fast E ks (op_rot_of E c self) KPTS_DIFF_TOL).

(** *** The claim pass *)

(** the slot an entry of a row lands in: [-1] is the spare last slot *)
Definition slot (n : nat) (e : Z) : nat := if e <? 0 then n else Z.to_nat e.

(** the representative a slot of [claimed] stands for *)
Definition target (n : nat) (v : Z) : Z := if v =? -1 then Z.of_nat (n - 1) else v.

(** What the claim pass keeps on any table of the right shape, the indices
    [m ..] being done. *)
Definition claimed_shape {X} (n m : nat) (st : list Z * list Z * list X) : Prop :=
  let '(c, reps, _) := st in
  length c = S n ∧
  (∀ j v, (j < n)%nat → c !! j = Some v → v = -1 ∨ v ∈ reps) ∧
  Forall (λ r, 0 ≤ r < Z.of_nat n) reps ∧
  (length reps + m ≤ n)%nat ∧
  (Z.of_nat (n - 1) ∈ reps ∨ (m = n ∧ ∀ j v, c !! j = Some v → v = -1)).

(** What it keeps when the rows are the classes of an equivalence: a
    claimed slot holds the largest index of its class. *)
Definition claimed_orbits {X} (rows : list (list Z)) (n m : nat)
    (st : list Z * list Z * list X) : Prop :=
  let '(c, reps, _) := st in
  length c = S n ∧
  (∀ j v, (j < n)%nat → c !! j = Some v → v ≠ -1 →
     ∃ r : nat, v = Z.of_nat r ∧ (m ≤ r)%nat ∧ reach rows r j ∧ is_top rows r = true) ∧
  (∀ j, (j < n)%nat → c !! j = Some (-1) → ∀ k, (m ≤ k)%nat → ¬ reach rows k j) ∧
  reps = map Z.of_nat (rev (List.filter (is_top rows) (seq m (n - m)))).

(** *** Occupations *)

(** two occupation vectors differ by at least [tol] in some entry: the
    comparison [|x - y| < tol] of the source fails there *)
Definition differ (tol : f64) (a b : fvec) : Prop :=
  ∃ e x y, a !! e = Some x ∧ b !! e = Some y ∧
           PrimFloat.ltb (PrimFloat.abs (x - y)) tol = false.

Definition broken_pair (mo_occ : list fvec) (tol : f64) (star : list Z) (i j : nat) : Prop :=
  ∃ ki kj a b, star !! i = Some ki ∧ star !! j = Some kj ∧
               Py.get mo_occ ki = Some a ∧ Py.get mo_occ kj = Some b ∧ differ tol a b.


(** the members of an orbit index [mo_occ] *)
Definition in_mesh (mo_occ : list fvec) (star : list Z) : Prop :=
  Forall (λ x, 0 ≤ x < Z.of_nat (length mo_occ)) star.


(** the occupation vectors of the members of one orbit have one length *)
Definition star_rect (mo_occ : list fvec) (star : list Z) : Prop :=
  ∀ ki kj a b, ki ∈ star → kj ∈ star →
    Py.get mo_occ ki = Some a → Py.get mo_occ kj = Some b → length a = length b.

(** *** The list of k-point pairs *)

Definition kpt_close (k kpt : vec) : bool :=
  Qltb (Qsum (map Qabs (zip_with Qminus k kpt))) KPT_DIFF_TOL.

(** the list as the code builds it *)
Definition gdf_pairs (self : KPoints) : list (vec * vec) :=
  map (λ k, (k, k)) (kpts self) ++
  flat_map (λ ki, map (λ kj, (ki, kj))
                      (List.filter (λ kj, negb (kpt_close kj ki)) (kpts self)))
           (kpts_ibz self).

(** the list as the specification words it: [kpts[j]] is left out when it
    equals a member of the orbit of representative [i] *)
Definition gdf_pairs_claimed (self : KPoints) : list (vec * vec) :=
  map (λ k, (k, k)) (kpts self) ++
  flat_map (λ i : nat,
    match kpts_ibz self !! i, stars self !! i with
    | Some ki, Some star =>
        map (λ kj, (ki, kj))
            (List.filter
               (λ kj, negb (existsb (λ m, match Py.get (kpts self) m with
                                          | Some km => kpt_close kj km
                                          | None => false
                                          end) star))
               (kpts self))
    | _, _ => []
    end) (seq 0 (_nkpts_ibz self)).

(** *** Pairs *)

(** image of a pair, [-1] when a component has none *)
Definition pair_image (n : Z) (a b : Z) : Z :=
  if (a =? -1) || (b =? -1) then -1 else a * n + b.

(** the pair with its two components exchanged *)
Definition swap_pair (n k : nat) : nat := ((k mod n) * n + k / n)%nat.

(** the sorted components of a pair index (lines 166-169) *)
Definition keyf (n r : Z) : Z * Z := (Z.min (r / n) (r mod n), Z.max (r / n) (r mod n)).

(** the index of the exchanged pair (lines 175-177) *)
Definition swapz (n r : Z) : Z := (r mod n) * n + r / n.

(** lines 180-183 for one entry: representative [r] of unreduced weight [a] *)
Definition s2_weight (n : Z) (R : list Z) (r : Z) (a : f64) : f64 :=
  let b := if negb (r / n =? r mod n) then (a * 2)%float else a in
  if Py.mem (swapz n r) R then b else (b / 2)%float.

(** the weight the specification words give a merged orbit *)
Definition s2_weight_claimed (n : Z) (s2 : list Z) (r : Z) (a : f64) : f64 :=
  if Py.mem (swapz n r) s2 then (a * 2)%float else (a / 2)%float.

(** the distinct sorted keys of the representatives, each with the position
    of its first representative (lines 166-171) *)
Definition s2_index (n : Z) (R : list Z) : list (Z * Z * nat) :=
  np_unique_index pair_leb pair_eqb (map (keyf n) R).

(** the integer factor an entry ends with *)
Definition s2_factor (n : Z) (R : list Z) (r : Z) : Z :=
  if negb (r / n =? r mod n) && Py.mem (swapz n r) R then 2 else 1.

(** what a representative among [L] still owes to an exchanged partner
    that is a representative but not yet among [L] *)
Definition pending (n : Z) (R L : list Z) (g : Z → Z) (r : Z) : Z :=
  if negb (r / n =? r mod n) && Py.mem (swapz n r) R && negb (Py.mem (swapz n r) L)
  then g r else 0.

Definition first_sum (n : Z) (h : nat → Z) (L : list Z) : Z :=
  Zsum (map (λ q : Z * Z * nat, h (snd q)) (first_occurrences pair_eqb (map (keyf n) L))).

(** the size of the orbit of the pair [r], read off [bz2ibz_kk] *)
Definition orbit_size (B : list Z) (r : Z) : Z :=
  Py.count (default (-1) (B !! Z.to_nat r)) B.

(** ** A concrete environment

    A cell whose scaled and absolute coordinates coincide, the group
    generated by the inversion, and a matcher in exact arithmetic.  The
    examples below are evaluated in it. *)

Module Example.

Definition is_integer (x : Q) : bool := Qeq_bool x (inject_Z (Qfloor x)).

(** [op * k1 = k2 + K] for a lattice vector [K] *)
Definition same_mod_lattice (a b : vec) : bool :=
  forallb is_integer (zip_with Qminus a b).

Definition image_index (pts : list vec) (op : mat) (k : vec) : Z :=
  match Py.where_ (same_mod_lattice (dot_T k op)) pts with
  | [] => -1
  | j :: _ => j
  end.

Definition matcher (pts : list vec) (op_rot : list mat) (tol : Q) : list (list Z) :=
  map (λ k, map (λ op, image_index pts op k) op_rot) pts.

Definition eye : Op :=
  {| rot := [[1;0;0];[0;1;0];[0;0;1]]; trans := [0;0;0]%Q;
     is_eye := true; is_inversion := false; trans_is_zero := true |}.
Definition inversion : Op :=
  {| rot := [[-1;0;0];[0;-1;0];[0;0;-1]]; trans := [0;0;0]%Q;
     is_eye := false; is_inversion := true; trans_is_zero := true |}.

Definition env : Env :=
  {| Symmetry_init := λ c, {| cell := c; ops := []; nop := 0;
                              has_inversion := false; Dmats := [] |};
     Symmetry_build := λ s sgs _,
       let c := (λ c, {| _built := true; cell_verbose := cell_verbose c |}) <$> cell s in
       if sgs then {| cell := c; ops := [eye; inversion]; nop := 2;
                      has_inversion := true; Dmats := [[]; []] |}
       else {| cell := c; ops := [eye]; nop := 1;
               has_inversion := false; Dmats := [[]] |};
     get_scaled_kpts := λ _ l, l;
     get_abs_kpts := λ _ l, l;
     a2b_rot := λ _ op, map (map inject_Z) (rot op);
     map_k_points_fast := matcher;
     symm_transform_mo_coeff := λ _ _ mo _ _, mo;
     junk := λ _ _, 7 |}.

Definition a_cell : Cell := {| _built := true; cell_verbose := 0 |}.

(** four points on a line: [0, 1/4, 1/2, 3/4] *)
Definition mesh4 : list vec :=
  [[0; 0; 0]; [1 # 4; 0; 0]; [1 # 2; 0; 0]; [3 # 4; 0; 0]]%Q.

(** two points exchanged by the inversion: [1/4, 3/4] *)
Definition mesh2 : list vec := [[1 # 4; 0; 0]; [3 # 4; 0; 0]]%Q.

(** [n] points on a line: [0, 1/n, ..., (n-1)/n] *)
Definition line (n : nat) : list vec :=
  map (λ i : nat, [Z.of_nat i # Pos.of_nat n; 0; 0]%Q) (seq 0 n).

(** the object [KPoints(a_cell, mesh)] *)
Definition fresh (mesh : list vec) : KPoints :=
  let n := length mesh in
  let w := replicate n (1 / f64_of_Z (Z.of_nat n))%float in
  {| sym := Symmetry_init env (Some a_cell); verbose := logger_NOTE;
     time_reversal := false; kpts := mesh; kpts_ibz := mesh;
     kpts_scaled := None; kpts_scaled_ibz := None;
     weights := w; weights_ibz := w;
     ibz2bz := Py.arange n; bz2ibz := Py.arange n;
     k2opk := None; stars := []; stars_ops := [];
     stars_ops_bz := replicate n 0; time_reversal_symm_bz := replicate n 0;
     _nkpts := n; _nkpts_ibz := n;
     kk := {| ibz2bz_kk := None; ibz_kk_weight := None;
              ibz2bz_kk_s2 := None; ibz_kk_s2_weight := None;
              bz2ibz_kk := None; kk_group := None; kk_sym_group := None |} |}.

(** the object as [build] hands it to [make_kpts_ibz] *)
Definition prepared (mesh : list vec) (sgs trs : bool) : KPoints :=
  let self := fresh mesh in
  let s := Symmetry_build env (sym self) sgs false in
  {| sym := s; verbose := verbose self;
     time_reversal := trs && negb (has_inversion s);
     kpts := kpts self; kpts_ibz := kpts_ibz self;
     kpts_scaled := Some mesh; kpts_scaled_ibz := Some mesh;
     weights := weights self; weights_ibz := weights_ibz self;
     ibz2bz := ibz2bz self; bz2ibz := bz2ibz self;
     k2opk := k2opk self; stars := stars self; stars_ops := stars_ops self;
     stars_ops_bz := stars_ops_bz self;
     time_reversal_symm_bz := time_reversal_symm_bz self;
     _nkpts := _nkpts self; _nkpts_ibz := _nkpts_ibz self; kk := kk self |}.

(** the object after [make_kpts_ibz] *)
Definition reduced (mesh : list vec) (sgs trs : bool) : KPoints :=
  default (prepared mesh sgs trs) (make_kpts_ibz env (prepared mesh sgs trs)).

(** occupations on [mesh4] that respect the orbits *)
Definition occ4 : list fvec := [[2; 0]; [1; 1]; [2; 0]; [1; 1]]%float.

(** coefficients, one matrix per representative of [mesh4] *)
Definition mo4 : list cmat :=
  [[[(1, 0)]]; [[(0, 1)]]; [[(1, 1)]]]%Q.

Definition built (mesh : list vec) (sgs trs : bool) : option (heap * KPoints * bool) :=
  self ← KPoints_init env (Some a_cell) mesh;
  build env [] self sgs trs true true.

End Example.

(** * Facts on binary64 arithmetic

    The kernel's operations are specified by [Prim2SF] and the functions of
    [SpecFloat]; the facts below are read off that specification. *)

Lemma f64_finite_cases (x : f64) :
  PrimFloat.is_finite x = true →
  (∃ s, Prim2SF x = S754_zero s) ∨ (∃ s m e, Prim2SF x = S754_finite s m e).
Proof.
  unfold PrimFloat.is_finite, PrimFloat.is_nan, PrimFloat.is_infinity.
  rewrite !FloatAxioms.eqb_spec, FloatAxioms.abs_spec. intros H.
  destruct (Prim2SF x) as [s|s| |s m e] eqn:E.
  - left. by exists s.
  - exfalso. destruct s; vm_compute in H; done.
  - exfalso. vm_compute in H. done.
  - right. by exists s, m, e.
Qed.

Lemma SFltb_zero_sign (s : bool) (t : spec_float) :
  SFltb (S754_zero s) t = SFltb (S754_zero false) t.
Proof. by destruct t. Qed.

(** the difference of a finite number and itself passes any positive
    tolerance *)
Lemma f64_sub_self_close (x tol : f64) :
  PrimFloat.is_finite x = true → PrimFloat.ltb 0 tol = true →
  PrimFloat.ltb (PrimFloat.abs (x - x)) tol = true.
Proof.
  intros Hx Ht. rewrite FloatAxioms.ltb_spec in Ht |- *. rewrite FloatAxioms.abs_spec, FloatAxioms.sub_spec.
  change (Prim2SF 0) with (S754_zero false) in Ht.
  assert (Hz : ∃ s, SF64sub (Prim2SF x) (Prim2SF x) = S754_zero s).
  { destruct (f64_finite_cases x Hx) as [[s ->]|(s & m & e & ->)].
    - destruct s; by eexists.
    - unfold SF64sub, SFsub. rewrite Z.min_id. unfold shl_align.
      rewrite (Z.sub_diag e). simpl. rewrite (Z.sub_diag (cond_Zopp s (Z.pos m))).
      simpl. by eexists. }
  destruct Hz as [s ->]. simpl. exact Ht.
Qed.

(** ** Digits and shifts *)

Lemma fexp64 (z : Z) : fexp prec emax z = Z.max (z - 53) (-1074).
Proof. reflexivity. Qed.

Lemma digits2_pos_bounds (p : positive) :
  2 ^ (Z.pos (digits2_pos p) - 1) ≤ Z.pos p < 2 ^ Z.pos (digits2_pos p).
Proof.
  induction p as [p IH|p IH|]; simpl digits2_pos.
  - rewrite Pos2Z.inj_succ. replace (Z.succ (Z.pos (digits2_pos p)) - 1)
      with (Z.succ (Z.pos (digits2_pos p) - 1)) by lia.
    rewrite !Z.pow_succ_r by lia. lia.
  - rewrite Pos2Z.inj_succ. replace (Z.succ (Z.pos (digits2_pos p)) - 1)
      with (Z.succ (Z.pos (digits2_pos p) - 1)) by lia.
    rewrite !Z.pow_succ_r by lia. lia.
  - simpl. lia.
Qed.

Lemma Zdigits2_nonneg (m : Z) : 0 ≤ Zdigits2 m.
Proof. destruct m; simpl; lia. Qed.

Lemma Zdigits2_bounds (m : Z) :
  0 < m → 2 ^ (Zdigits2 m - 1) ≤ m < 2 ^ Zdigits2 m.
Proof. destruct m as [|p|p]; [lia| |lia]. intros _. apply digits2_pos_bounds. Qed.

Lemma Zdigits2_le (m k : Z) : 0 ≤ m < 2 ^ k → 0 ≤ k → Zdigits2 m ≤ k.
Proof.
  intros [Hm Hk] Hk0. destruct (Z.eq_dec m 0) as [->|Hne]; [simpl; lia|].
  pose proof (Zdigits2_bounds m ltac:(lia)) as [Hlo _].
  pose proof (Zdigits2_nonneg m).
  destruct (Z.le_gt_cases (Zdigits2 m) k) as [|Hgt]; [done|].
  assert (2 ^ k ≤ 2 ^ (Zdigits2 m - 1)) by (apply Z.pow_le_mono_r; lia). lia.
Qed.

Lemma Zdigits2_unique (m j : Z) : 2 ^ (j - 1) ≤ m < 2 ^ j → 0 < m → Zdigits2 m = j.
Proof.
  intros [Hlo Hhi] Hm. pose proof (Zdigits2_bounds m Hm) as [Hlo' Hhi'].
  pose proof (Zdigits2_nonneg m).
  assert (Hj : 0 < j).
  { destruct (Z.lt_ge_cases 0 j) as [|Hj]; [done|].
    rewrite (Z.pow_neg_r 2 j) in Hhi by (assert (j ≠ 0); [intros ->; simpl in Hhi; lia|lia]).
    lia. }
  destruct (Z.lt_trichotomy (Zdigits2 m) j) as [Hlt|[Heq|Hgt]]; [|done|].
  - assert (2 ^ Zdigits2 m ≤ 2 ^ (j - 1)) by (apply Z.pow_le_mono_r; lia). lia.
  - assert (2 ^ j ≤ 2 ^ (Zdigits2 m - 1)) by (apply Z.pow_le_mono_r; lia). lia.
Qed.

Lemma Zdigits2_shift (m k : Z) : 0 < m → 0 ≤ k → Zdigits2 (m * 2 ^ k) = Zdigits2 m + k.
Proof.
  intros Hm Hk. pose proof (Zdigits2_bounds m Hm) as [Hlo Hhi].
  assert (Hd : 0 < Zdigits2 m) by (destruct m; simpl; lia).
  assert (Hp : 0 < 2 ^ k) by (apply Z.pow_pos_nonneg; lia).
  apply Zdigits2_unique; [|nia].
  replace (Zdigits2 m + k - 1) with (Zdigits2 m - 1 + k) by lia.
  rewrite !Z.pow_add_r by lia. nia.
Qed.

Lemma Zdigits2_mul (a b : Z) : 0 ≤ a → 0 ≤ b → Zdigits2 (a * b) ≤ Zdigits2 a + Zdigits2 b.
Proof.
  intros Ha Hb. pose proof (Zdigits2_nonneg a). pose proof (Zdigits2_nonneg b).
  apply Zdigits2_le; [|lia].
  destruct (Z.eq_dec a 0) as [->|Hna].
  { simpl. split; [lia|]. apply Z.pow_pos_nonneg; lia. }
  destruct (Z.eq_dec b 0) as [->|Hnb].
  { rewrite Z.mul_0_r. split; [lia|]. apply Z.pow_pos_nonneg; lia. }
  pose proof (Zdigits2_bounds a ltac:(lia)) as [_ Ha'].
  pose proof (Zdigits2_bounds b ltac:(lia)) as [_ Hb'].
  rewrite Z.pow_add_r by lia. nia.
Qed.

Lemma iter_pos_nat {A} (f : A → A) (p : positive) : ∀ x,
  SpecFloat.iter_pos f p x = Nat.iter (Pos.to_nat p) f x.
Proof.
  induction p as [p IH|p IH|]; intros x; simpl SpecFloat.iter_pos.
  - rewrite !IH, Pos2Nat.inj_xI. rewrite <- Nat.iter_add, <- Nat.iter_succ_r.
    f_equal. lia.
  - rewrite !IH, Pos2Nat.inj_xO. rewrite <- Nat.iter_add. f_equal. lia.
  - done.
Qed.

Lemma pos_iter_xO (k m : positive) : Z.pos (Pos.iter xO m k) = Z.pos m * 2 ^ Z.pos k.
Proof.
  induction k as [|k IH] using Pos.peano_ind.
  - simpl. lia.
  - rewrite Pos.iter_succ, Pos2Z.inj_xO, IH, Pos2Z.inj_succ, Z.pow_succ_r by lia. lia.
Qed.

(** one step to the right *)
Lemma shr_1_m (mrs : shr_record) : 0 ≤ shr_m mrs → shr_m (shr_1 mrs) = shr_m mrs / 2.
Proof.
  destruct mrs as [m r s]. simpl. intros Hm.
  destruct m as [|[p|p|]|p]; cbn [shr_m shr_1].
  - reflexivity.
  - apply Z.div_unique with 1; lia.
  - apply Z.div_unique with 0; lia.
  - reflexivity.
  - lia.
Qed.

Lemma shr_iter_m (n : nat) (mrs : shr_record) :
  0 ≤ shr_m mrs →
  shr_m (Nat.iter n shr_1 mrs) = shr_m mrs / 2 ^ Z.of_nat n.
Proof.
  intros Hm. induction n as [|n IH].
  - simpl. by rewrite Z.div_1_r.
  - rewrite Nat.iter_succ, shr_1_m.
    + rewrite IH, Z.div_div, Nat2Z.inj_succ, Z.pow_succ_r by lia. f_equal. lia.
    + rewrite IH. apply Z.div_pos; [done|]. apply Z.pow_pos_nonneg; lia.
Qed.

Lemma shr_1_exact (M : Z) :
  0 ≤ M → shr_1 (Build_shr_record (M * 2) false false) = Build_shr_record M false false.
Proof. destruct M as [|p|p]; [done| |lia]. intros _. simpl. by rewrite Pos.mul_comm. Qed.

Lemma shr_iter_exact (n : nat) : ∀ M, 0 ≤ M →
  Nat.iter n shr_1 (Build_shr_record (M * 2 ^ Z.of_nat n) false false)
  = Build_shr_record M false false.
Proof.
  induction n as [|n IH]; intros M HM.
  - simpl. by rewrite Z.mul_1_r.
  - rewrite Nat.iter_succ_r.
    replace (M * 2 ^ Z.of_nat (S n)) with (M * 2 ^ Z.of_nat n * 2)
      by (rewrite Nat2Z.inj_succ, Z.pow_succ_r by lia; lia).
    rewrite shr_1_exact; [by apply IH|].
    apply Z.mul_nonneg_nonneg; [done|]. apply Z.pow_nonneg. lia.
Qed.

(** [shr]: the exponent it returns and the mantissa it keeps *)
Lemma shr_spec (mrs : shr_record) (e n : Z) :
  0 ≤ shr_m mrs →
  snd (shr mrs e n) = e + Z.max n 0 ∧
  shr_m (fst (shr mrs e n)) = shr_m mrs / 2 ^ Z.max n 0.
Proof.
  intros Hm. destruct n as [|p|p]; simpl.
  - split; [lia|]. by rewrite Z.div_1_r.
  - split; [lia|]. rewrite iter_pos_nat, shr_iter_m by done.
    by rewrite positive_nat_Z.
  - split; [lia|]. by rewrite Z.div_1_r.
Qed.

Lemma shr_exact (M e k : Z) :
  0 ≤ M → 0 ≤ k →
  shr (Build_shr_record (M * 2 ^ k) false false) e k = (Build_shr_record M false false, e + k).
Proof.
  intros HM Hk. destruct k as [|p|p]; [| |lia]; simpl.
  - by rewrite Z.mul_1_r, Z.add_0_r.
  - rewrite iter_pos_nat. rewrite <- (positive_nat_Z p) at 1.
    by rewrite shr_iter_exact.
Qed.

(** the integer operations of [SpecFloat], written as those of [ZArith] *)
Ltac zfold :=
  change IntDef.Z.add with Z.add in *; change IntDef.Z.sub with Z.sub in *;
  change IntDef.Z.max with Z.max in *; change IntDef.Z.min with Z.min in *;
  change IntDef.Z.mul with Z.mul in *; change IntDef.Z.leb with Z.leb in *;
  change IntDef.Z.eqb with Z.eqb in *; change IntDef.Z.opp with Z.opp in *;
  change IntDef.Z.even with Z.even in *; change IntDef.Z.compare with Z.compare in *;
  change IntDef.Z.div_eucl with Z.div_eucl in *;
  change IntDef.Z.shiftl with Z.shiftl in *;
  change PosDef.Pos.mul with Pos.mul in *.

Lemma shr_exact_max (M e n k : Z) :
  0 ≤ M → Z.max n 0 = k →
  shr (Build_shr_record (M * 2 ^ k) false false) e n
  = (Build_shr_record M false false, e + k).
Proof.
  intros HM Hk. destruct n as [|p|p].
  - subst k. simpl. by rewrite Z.mul_1_r, Z.add_0_r.
  - assert (k = Z.pos p) as -> by lia. apply shr_exact; lia.
  - assert (k = 0) as -> by lia. simpl. by rewrite Z.mul_1_r, Z.add_0_r.
Qed.

(** ** Rounding *)

(** a mantissa that only carries [k] zero bits too many is rounded to
    itself *)
Lemma binary_round_aux_exact (s : bool) (M e k : Z) :
  0 < M → Z.max (fexp prec emax (Zdigits2 M + k + e) - e) 0 = k →
  e + k ≤ 971 →
  binary_round_aux prec emax s (M * 2 ^ k) e loc_Exact
  = S754_finite s (Z.to_pos M) (e + k).
Proof.
  intros HM Hk He.
  assert (Hk0 : 0 ≤ k) by lia.
  unfold binary_round_aux, shr_fexp. zfold.
  rewrite (Zdigits2_shift M k HM Hk0). cbn [shr_record_of_loc].
  rewrite (shr_exact_max M e _ k ltac:(lia) Hk).
  cbn [shr_m loc_of_shr_record round_nearest_even shr_record_of_loc].
  assert (Hn2 : fexp prec emax (Zdigits2 M + (e + k)) - (e + k) ≤ 0).
  { replace (Zdigits2 M + (e + k)) with (Zdigits2 M + k + e) by lia. lia. }
  destruct (fexp prec emax (Zdigits2 M + (e + k)) - (e + k)) as [|p|p] eqn:En; [|lia|];
    cbn [shr shr_m].
  - destruct M as [|q|q]; [lia| |lia]. simpl Z.to_pos.
    change (emax - prec) with 971. by rewrite (proj2 (Z.leb_le _ _) He).
  - destruct M as [|q|q]; [lia| |lia]. simpl Z.to_pos.
    change (emax - prec) with 971. by rewrite (proj2 (Z.leb_le _ _) He).
Qed.

Lemma round_nearest_even_bounds (m : Z) (l : location) :
  m ≤ round_nearest_even m l ≤ m + 1.
Proof.
  destruct l as [|[| |]]; simpl; [lia| |lia|lia].
  destruct (Z.even m); lia.
Qed.

(** the exponent of a rounded number *)
Lemma binary_round_aux_bound (s : bool) (m e : Z) (l : location) :
  0 ≤ m → Z.max (fexp prec emax (Zdigits2 m + e)) e + 1 ≤ 971 →
  (binary_round_aux prec emax s m e l = S754_zero s) ∨
  (∃ m' e', binary_round_aux prec emax s m e l = S754_finite s m' e' ∧
            e ≤ e' ≤ Z.max (fexp prec emax (Zdigits2 m + e)) e + 1).
Proof.
  intros Hm HB. unfold binary_round_aux, shr_fexp. zfold.
  set (n1 := fexp prec emax (Zdigits2 m + e) - e).
  assert (Hrec : shr_m (shr_record_of_loc m l) = m) by (by destruct l as [|[| |]]).
  destruct (shr_spec (shr_record_of_loc m l) e n1) as [He1 Hm1]; [lia|].
  destruct (shr (shr_record_of_loc m l) e n1) as [mrs1 e1]. simpl in He1, Hm1.
  rewrite Hrec in Hm1.
  set (mr := round_nearest_even (shr_m mrs1) (loc_of_shr_record mrs1)).
  pose proof (round_nearest_even_bounds (shr_m mrs1) (loc_of_shr_record mrs1)) as Hr.
  fold mr in Hr.
  assert (Hp : 0 < 2 ^ Z.max n1 0) by (apply Z.pow_pos_nonneg; lia).
  assert (Hm1' : 0 ≤ shr_m mrs1 < 2 ^ 53).
  { rewrite Hm1. split; [apply Z.div_pos; lia|].
    apply Z.div_lt_upper_bound; [done|].
    destruct (Z.eq_dec m 0) as [->|Hne].
    { apply Z.mul_pos_pos; [done|]. apply Z.pow_pos_nonneg; lia. }
    pose proof (Zdigits2_bounds m ltac:(lia)) as [_ Hhi].
    pose proof (Zdigits2_nonneg m).
    rewrite Z.mul_comm, <- Z.pow_add_r by lia.
    eapply Z.lt_le_trans; [exact Hhi|]. apply Z.pow_le_mono_r; [lia|].
    unfold n1. rewrite fexp64. lia. }
  assert (Hdr : Zdigits2 mr ≤ 54).
  { apply Zdigits2_le; [|lia]. change (2 ^ 54) with (2 ^ 53 * 2).
    change (2 ^ 53) with 9007199254740992 in *. lia. }
  assert (Hrec2 : shr_record_of_loc mr loc_Exact = Build_shr_record mr false false) by done.
  set (n2 := fexp prec emax (Zdigits2 mr + e1) - e1).
  destruct (shr_spec (shr_record_of_loc mr loc_Exact) e1 n2) as [He2 Hm2]; [simpl; lia|].
  destruct (shr (shr_record_of_loc mr loc_Exact) e1 n2) as [mrs2 e2]. simpl in He2, Hm2.
  assert (Hm2' : 0 ≤ shr_m mrs2).
  { rewrite Hm2. apply Z.div_pos; [lia|]. apply Z.pow_pos_nonneg; lia. }
  assert (He2' : e ≤ e2 ≤ Z.max (fexp prec emax (Zdigits2 m + e)) e + 1).
  { unfold n1, n2 in *. rewrite !fexp64 in *. lia. }
  destruct (shr_m mrs2) as [|q|q]; [by left| |lia].
  right. exists q, e2. split; [|done].
  change (emax - prec) with 971. rewrite (proj2 (Z.leb_le e2 971)) by lia. done.
Qed.

Lemma binary_round_aux_id (s : bool) (M e : Z) :
  0 < M → fexp prec emax (Zdigits2 M + e) ≤ e → e ≤ 971 →
  binary_round_aux prec emax s M e loc_Exact = S754_finite s (Z.to_pos M) e.
Proof.
  intros HM Hf He.
  pose proof (binary_round_aux_exact s M e 0 HM) as H.
  rewrite Z.mul_1_r, !Z.add_0_r in H. apply H; lia.
Qed.

(** ** Conversion of an integer *)

Lemma f64_of_Z_zero : Prim2SF (f64_of_Z 0) = S754_zero false.
Proof. reflexivity. Qed.

(** an integer below [2^53] is converted without rounding: the mantissa is
    the integer shifted to 53 bits *)
Lemma f64_of_Z_small (z : Z) :
  0 < z < 2 ^ 53 →
  Prim2SF (f64_of_Z z)
  = S754_finite false (Z.to_pos (z * 2 ^ (53 - Zdigits2 z))) (Zdigits2 z - 53).
Proof.
  intros [Hz Hhi]. unfold f64_of_Z.
  rewrite (proj2 (Z.ltb_ge z 0)) by lia.
  rewrite of_uint63_spec, Uint63.of_Z_spec.
  rewrite Z.mod_small by (change Uint63.wB with (2 ^ 63); split; [lia|];
    eapply Z.lt_trans; [exact Hhi|done]).
  pose proof (Zdigits2_le z 53 ltac:(lia) ltac:(lia)) as Hd.
  assert (Hd0 : 0 < Zdigits2 z) by (destruct z; simpl; lia).
  destruct z as [|p|p]; [lia| |lia].
  unfold binary_normalize, binary_round. zfold.
  change (Z.pos (digits2_pos p)) with (Zdigits2 (Z.pos p)).
  set (d := Zdigits2 (Z.pos p)) in *.
  rewrite Z.add_0_r, fexp64, (Z.max_l (d - 53) (-1074)) by lia.
  unfold shl_align. zfold. rewrite Z.sub_0_r.
  destruct (d - 53) as [|k|k] eqn:Ek; [|lia|].
  - replace (53 - d) with 0 by lia. rewrite Z.mul_1_r. simpl Z.to_pos.
    apply (binary_round_aux_id false (Z.pos p) 0); [lia| |lia].
    fold d. rewrite fexp64. lia.
  - rewrite pos_iter_xO. replace (53 - d) with (Z.pos k) by lia.
    apply (binary_round_aux_id false (Z.pos p * 2 ^ Z.pos k) (Z.neg k)); [lia| |lia].
    rewrite Zdigits2_shift by lia. fold d. rewrite fexp64. lia.
Qed.

Lemma f64_mantissa_digits (x : f64) (s : bool) (m : positive) (e : Z) :
  Prim2SF x = S754_finite s m e →
  fexp prec emax (Zdigits2 (Z.pos m) + e) = e ∧ e ≤ 971 ∧ Zdigits2 (Z.pos m) ≤ 53 ∧
  -1074 ≤ e.
Proof.
  intros Hx. pose proof (Prim2SF_valid x) as Hv. rewrite Hx in Hv.
  unfold SpecFloat.valid_binary, bounded, canonical_mantissa in Hv. zfold.
  apply andb_true_iff in Hv as [Hc Hb]. apply Z.eqb_eq in Hc. apply Z.leb_le in Hb.
  change (emax - prec) with 971 in Hb.
  change (Z.pos (digits2_pos m)) with (Zdigits2 (Z.pos m)) in Hc.
  split; [done|]. split; [done|]. rewrite fexp64 in Hc. lia.
Qed.

(** ** The inverse of an integer and the weights *)

Lemma f64_inv_bound (N : Z) :
  0 < N < 2 ^ 53 →
  (∃ s, Prim2SF (1 / f64_of_Z N) = S754_zero s) ∨
  (∃ s m e, Prim2SF (1 / f64_of_Z N) = S754_finite s m e ∧ e ≤ -51).
Proof.
  intros HN. rewrite div_spec, (f64_of_Z_small N HN).
  change (Prim2SF 1) with (S754_finite false 4503599627370496 (-52)).
  pose proof (Zdigits2_le N 53 ltac:(lia) ltac:(lia)) as Hd.
  assert (Hd0 : 0 < Zdigits2 N) by (destruct N; simpl; lia).
  set (d := Zdigits2 N) in *.
  assert (Hp : 0 < 2 ^ (53 - d)) by (apply Z.pow_pos_nonneg; lia).
  set (M := N * 2 ^ (53 - d)).
  assert (HM : 0 < M) by (unfold M; nia).
  assert (HdM : Zdigits2 M = 53).
  { unfold M. rewrite Zdigits2_shift by lia. fold d. lia. }
  pose proof (Zdigits2_bounds M HM) as HMb. rewrite HdM in HMb.
  change (2 ^ (53 - 1)) with 4503599627370496 in HMb.
  change (2 ^ 53) with 9007199254740992 in HMb.
  unfold SF64div, SFdiv, SFdiv_core_binary. zfold.
  rewrite Z2Pos.id by done.
  change (Zdigits2 4503599627370496) with 53. rewrite HdM.
  rewrite fexp64.
  replace (Z.min (Z.max (53 + -52 - (53 + (d - 53)) - 53) (-1074)) (-52 - (d - 53)))
    with (-52 - d) by lia.
  replace (-52 - (d - 53) - (-52 - d)) with 53 by lia.
  change (Z.shiftl 4503599627370496 53) with 40564819207303340847894502572032.
  pose proof (Z_div_mod 40564819207303340847894502572032 M ltac:(lia)) as Hdm.
  destruct (Z.div_eucl 40564819207303340847894502572032 M) as [q r].
  destruct Hdm as [Hq Hr].
  assert (Hq' : 0 ≤ q ≤ 9007199254740992) by nia.
  assert (Hdq : Zdigits2 q ≤ 54).
  { apply Zdigits2_le; [|lia]. change (2 ^ 54) with 18014398509481984. lia. }
  pose proof (Zdigits2_nonneg q) as Hdq0.
  destruct (binary_round_aux_bound (xorb false false) q (-52 - d) (new_location M r))
    as [Hz|(m' & e' & Hf & He)]; [lia|rewrite fexp64; lia|..].
  - left. eexists. exact Hz.
  - right. exists (xorb false false), m', e'. split; [exact Hf|].
    rewrite fexp64 in He. lia.
Qed.

(** ** Doubling and halving *)

(** the quotient by two, when the shifted mantissa is a multiple of the
    mantissa of [2.0] *)
Lemma SFdiv_core_two (m1 e1 e' sh X : Z) :
  e' = Z.min (fexp prec emax (Zdigits2 m1 + e1 - 2)) (e1 + 51) →
  sh = e1 + 51 - e' → 0 < sh → m1 * 2 ^ sh = X * 2 ^ 52 →
  SFdiv_core_binary prec emax m1 e1 4503599627370496 (-51) = (X, e', loc_Exact).
Proof.
  intros He' Hsh Hpos HX. unfold SFdiv_core_binary. zfold.
  change (Zdigits2 4503599627370496) with 53.
  replace (Zdigits2 m1 + e1 - (53 + -51)) with (Zdigits2 m1 + e1 - 2) by lia.
  replace (e1 - -51) with (e1 + 51) by lia.
  rewrite <- He', <- Hsh.
  destruct sh as [|p|p]; [lia| |lia].
  rewrite Z.shiftl_mul_pow2 by lia. rewrite HX.
  change (2 ^ 52) with 4503599627370496.
  pose proof (Z_div_mod (X * 4503599627370496) 4503599627370496 ltac:(lia)) as Hdm.
  destruct (Z.div_eucl (X * 4503599627370496) 4503599627370496) as [q r].
  destruct Hdm as [Hq Hr].
  assert (r = 0) as -> by lia. assert (q = X) as -> by lia. reflexivity.
Qed.

(** doubling and then halving a number returns it, unless the doubling
    overflows *)
Lemma f64_double_halve (a : f64) :
  (∀ s m e, Prim2SF a = S754_finite s m e → e ≤ 970) →
  (a * 2 / 2)%float = a.
Proof.
  intros Hsmall. apply Prim2SF_inj. rewrite div_spec, mul_spec.
  change (Prim2SF 2) with (S754_finite false 4503599627370496 (-51)).
  destruct (Prim2SF a) as [s|s| |s m e] eqn:E.
  - by destruct s.
  - by destruct s.
  - done.
  - destruct (f64_mantissa_digits a s m e E) as (Hc & _ & HD & Hmin).
    specialize (Hsmall s m e eq_refl).
    assert (HD0 : 0 < Zdigits2 (Z.pos m)) by (simpl; lia).
    set (D := Zdigits2 (Z.pos m)) in *.
    rewrite fexp64 in Hc.
    assert (Hs : xorb (xorb s false) false = s) by (by destruct s).
    unfold SF64mul, SFmul. zfold. rewrite Pos2Z.inj_mul.
    destruct (Z.eq_dec D 53) as [HD53|HD53].
    + (* a normal number *)
      change (Z.pos 4503599627370496) with (2 ^ 52).
      rewrite (binary_round_aux_exact (xorb s false) (Z.pos m) (e + -51) 52);
        [|lia|fold D; rewrite fexp64; lia|lia].
      simpl Z.to_pos. unfold SF64div, SFdiv.
      destruct (Z.eq_dec e (-1074)) as [He|He].
      * rewrite (SFdiv_core_two (Z.pos m) (e + -51 + 52) (-1074) 52 (Z.pos m));
          [|fold D; rewrite fexp64; lia|lia|lia|done].
        rewrite Hs.
        rewrite (binary_round_aux_id s (Z.pos m) (-1074)); [|lia|fold D; rewrite fexp64; lia|lia].
        simpl Z.to_pos. by rewrite He.
      * rewrite (SFdiv_core_two (Z.pos m) (e + -51 + 52) (e - 1) 53 (Z.pos m * 2 ^ 1));
          [|fold D; rewrite fexp64; lia|lia|lia|
           change (2 ^ 53) with 9007199254740992; change (2 ^ 52) with 4503599627370496;
           change (2 ^ 1) with 2; lia].
        rewrite Hs.
        rewrite (binary_round_aux_exact s (Z.pos m) (e - 1) 1);
          [|lia|fold D; rewrite fexp64; lia|lia].
        simpl Z.to_pos. f_equal. lia.
    + (* a subnormal number *)
      assert (He : e = -1074) by lia.
      assert (Hd2 : Zdigits2 (Z.pos m * 2) = D + 1).
      { change (Z.pos m * 2) with (Z.pos m * 2 ^ 1). by rewrite Zdigits2_shift by lia. }
      replace (Z.pos m * Z.pos 4503599627370496) with (Z.pos m * 2 * 2 ^ 51)
        by (change (2 ^ 51) with 2251799813685248; lia).
      rewrite (binary_round_aux_exact (xorb s false) (Z.pos m * 2) (e + -51) 51);
        [|lia|rewrite Hd2, fexp64; lia|lia].
      unfold SF64div, SFdiv.
      rewrite Z2Pos.id by lia.
      rewrite (SFdiv_core_two (Z.pos m * 2) (e + -51 + 51) (-1074) 51 (Z.pos m));
        [|rewrite Hd2, fexp64; lia|lia|lia|
         change (2 ^ 52) with 4503599627370496; change (2 ^ 51) with 2251799813685248; lia].
      rewrite Hs.
      rewrite (binary_round_aux_id s (Z.pos m) (-1074)); [|lia|fold D; rewrite fexp64; lia|lia].
      simpl Z.to_pos. by rewrite He.
Qed.

(** a weight [count * (1.0 / n)] is far from the overflow threshold *)
Lemma f64_weight_bound (c N : Z) :
  0 ≤ c < 2 ^ 53 → 0 < N < 2 ^ 53 →
  ∀ s m e, Prim2SF (f64_of_Z c * (1 / f64_of_Z N)) = S754_finite s m e → e ≤ 970.
Proof.
  intros Hc HN s m e. rewrite mul_spec.
  destruct (Z.eq_dec c 0) as [->|Hc0].
  { rewrite f64_of_Z_zero.
    destruct (Prim2SF (1 / f64_of_Z N)) as [s'|s'| |s' m' e']; simpl; done. }
  rewrite (f64_of_Z_small c ltac:(lia)).
  pose proof (Zdigits2_le c 53 ltac:(lia) ltac:(lia)) as Hd.
  assert (Hp : 0 < 2 ^ (53 - Zdigits2 c)) by (apply Z.pow_pos_nonneg; lia).
  assert (HM : 0 < c * 2 ^ (53 - Zdigits2 c)) by nia.
  assert (HdM : Zdigits2 (c * 2 ^ (53 - Zdigits2 c)) = 53).
  { rewrite Zdigits2_shift by lia. lia. }
  destruct (f64_inv_bound N HN) as [[s' Hz]|(s' & m' & e' & Hf & He')].
  { rewrite Hz. simpl. done. }
  destruct (f64_mantissa_digits _ _ _ _ Hf) as (_ & _ & HD' & Hmin').
  rewrite Hf. unfold SF64mul, SFmul. zfold. rewrite Pos2Z.inj_mul, Z2Pos.id by done.
  pose proof (Zdigits2_mul (c * 2 ^ (53 - Zdigits2 c)) (Z.pos m') ltac:(lia) ltac:(lia)) as Hmul.
  pose proof (Zdigits2_nonneg (c * 2 ^ (53 - Zdigits2 c) * Z.pos m')) as Hnn.
  pose proof (Zdigits2_nonneg c) as Hdc.
  destruct (binary_round_aux_bound (xorb false s') (c * 2 ^ (53 - Zdigits2 c) * Z.pos m')
              (Zdigits2 c - 53 + e') loc_Exact) as [->|(m2 & e2 & -> & He2)];
    [nia|rewrite fexp64; lia|done|].
  intros [= _ _ <-]. rewrite fexp64 in He2. lia.
Qed.

(** doubling and halving leaves a weight as it is *)
Lemma f64_weight_double_halve (c N : Z) :
  0 ≤ c < 2 ^ 53 → 0 < N < 2 ^ 53 →
  (f64_of_Z c * (1 / f64_of_Z N) * 2 / 2)%float = (f64_of_Z c * (1 / f64_of_Z N))%float.
Proof.
  intros Hc HN. apply f64_double_halve. by apply f64_weight_bound.
Qed.

(** * Facts on the Python primitives *)

Lemma index_of_nat (len i : nat) :
  (i < len)%nat → Py.index len (Z.of_nat i) = Some i.
Proof.
  intros H. unfold Py.index.
  replace ((0 <=? Z.of_nat i) && (Z.of_nat i <? Z.of_nat len)) with true.
  - by rewrite Nat2Z.id.
  - symmetry. apply andb_true_iff. split; [apply Z.leb_le | apply Z.ltb_lt]; lia.
Qed.

Lemma index_minus_one (len : nat) :
  (0 < len)%nat → Py.index len (-1) = Some (len - 1)%nat.
Proof.
  intros H. unfold Py.index. simpl.
  destruct (Z.ltb_spec (-1) (Z.of_nat len)); [|lia]. 
  replace (- Z.of_nat len <=? -1) with true by (symmetry; apply Z.leb_le; lia).
  simpl. f_equal. lia.
Qed.

Lemma index_Some (len : nat) (i : Z) (j : nat) :
  Py.index len i = Some j →
  (j < len)%nat ∧ ((0 ≤ i ∧ i = Z.of_nat j) ∨ (i < 0 ∧ i + Z.of_nat len = Z.of_nat j)).
Proof.
  unfold Py.index. intros H.
  destruct (Z.leb_spec 0 i), (Z.ltb_spec i (Z.of_nat len)); simpl in H;
    try (destruct (Z.leb_spec (- Z.of_nat len) i), (Z.ltb_spec i 0); simpl in H);
    inversion H; subst; lia.
Qed.

Lemma get_of_nat {A} (l : list A) (i : nat) : Py.get l (Z.of_nat i) = l !! i.
Proof.
  unfold Py.get. destruct (decide (i < length l)%nat) as [H|H].
  - by rewrite index_of_nat.
  - rewrite (lookup_ge_None_2 l i) by lia.
    destruct (Py.index (length l) (Z.of_nat i)) as [j|] eqn:E; [|done].
    apply index_Some in E. lia.
Qed.

Lemma get_minus_one {A} (l : list A) :
  Py.get l (-1) = l !! (length l - 1)%nat.
Proof.
  unfold Py.get. destruct l as [|x l]; [done|].
  by rewrite index_minus_one by (simpl; lia).
Qed.

Lemma set_of_nat {A} (l : list A) (i : nat) (v : A) :
  (i < length l)%nat → Py.set l (Z.of_nat i) v = Some (<[i:=v]> l).
Proof. intros H. unfold Py.set. by rewrite index_of_nat. Qed.

Lemma set_length {A} (l l' : list A) i v :
  Py.set l i v = Some l' → length l' = length l.
Proof.
  unfold Py.set. destruct (Py.index _ _); simpl; [|done].
  intros [= <-]. apply length_insert.
Qed.

Lemma set_slot (n : nat) (c : list Z) (e v : Z) :
  length c = S n → -1 ≤ e < Z.of_nat n →
  Py.set c e v = Some (<[slot n e := v]> c).
Proof.
  intros Hc He. unfold slot. destruct (Z.ltb_spec e 0).
  - assert (e = -1) as -> by lia. unfold Py.set.
    rewrite index_minus_one by lia. simpl. do 2 f_equal. lia.
  - rewrite <- (Z2Nat.id e) at 1 by lia. apply set_of_nat. lia.
Qed.

Lemma put_spec (n : nat) (row : list Z) (v : Z) : ∀ c : list Z,
  length c = S n → Forall (λ e, -1 ≤ e < Z.of_nat n) row →
  ∃ c', Py.put c row v = Some c' ∧ length c' = S n ∧
        ∀ j, (j < n)%nat →
             c' !! j = if decide (Z.of_nat j ∈ row) then Some v else c !! j.
Proof.
  induction row as [|e row IH]; intros c Hc Hrow.
  - exists c. split; [done|]. split; [done|]. intros j Hj.
    destruct (decide _) as [H|H]; [by apply elem_of_nil in H | done].
  - apply Forall_cons in Hrow as [He Hrow]. simpl.
    rewrite (set_slot n) by done. simpl.
    destruct (IH (<[slot n e := v]> c)) as (c' & Hput & Hlen & Hc'); [by rewrite length_insert|done|].
    exists c'. split; [done|]. split; [done|]. intros j Hj. rewrite Hc' by done.
    destruct (decide (Z.of_nat j ∈ row)) as [Hin|Hin].
    + rewrite decide_True; [done | by right].
    + destruct (decide (Z.of_nat j = e)) as [<-|Hne].
      * rewrite decide_True by left. unfold slot.
        destruct (Z.ltb_spec (Z.of_nat j) 0); [lia|].
        rewrite Nat2Z.id. apply list_lookup_insert_eq. lia.
      * rewrite decide_False.
        -- apply list_lookup_insert_ne. unfold slot. destruct (Z.ltb_spec e 0); lia.
        -- intros [?|?]%elem_of_cons; done.
Qed.

Lemma elem_of_rev {A} (l : list A) (x : A) : x ∈ rev l ↔ x ∈ l.
Proof. rewrite !list_elem_of_In. symmetry. apply in_rev. Qed.

Section ClaimFacts.
Context {X : Type}.
Variable cast : Z → Z.
Variable visit : list Z → option X.
Variable rows : list (list Z).
Variable n : nat.
Hypothesis Hrows : length rows = n.
Hypothesis Hwf : Forall (Forall (λ e, -1 ≤ e < Z.of_nat n)) rows.
Hypothesis Hcast : ∀ k, 0 ≤ k < Z.of_nat n → cast k = k.
Hypothesis Hvisit : Forall (λ row, is_Some (visit row)) rows.

Local Abbreviation state := (list Z * list Z * list X)%type.

Lemma claim_step_spec (k : nat) (c reps : list Z) (extra : list X) :
  length c = S n → (k < n)%nat →
  ∃ v, c !! k = Some v ∧
    ((v ≠ -1 ∧ claim_step cast visit rows k (c, reps, extra) = Some (c, reps, extra)) ∨
     (v = -1 ∧ ∃ row c' x,
        rows !! k = Some row ∧
        claim_step cast visit rows k (c, reps, extra)
          = Some (c', reps ++ [Z.of_nat k], extra ++ [x]) ∧
        length c' = S n ∧
        ∀ j, (j < n)%nat →
             c' !! j = if decide (Z.of_nat j ∈ row) then Some (Z.of_nat k) else c !! j)).
Proof.
  intros Hc Hk.
  destruct (lookup_lt_is_Some_2 c k) as [v Hv]; [lia|].
  exists v. split; [done|]. unfold claim_step. rewrite get_of_nat, Hv. simpl.
  destruct (Z.eqb_spec v (-1)) as [->|Hne]; [right|left; done].
  split; [done|].
  destruct (lookup_lt_is_Some_2 rows k) as [row Hrow]; [lia|].
  rewrite Hrow. simpl.
  pose proof (Forall_lookup_1 _ _ _ _ Hwf Hrow) as Hr.
  pose proof (Forall_lookup_1 _ _ _ _ Hvisit Hrow) as [x Hx].
  destruct (put_spec n row (cast (Z.of_nat k)) c Hc Hr) as (c' & Hput & Hlen & Hc').
  exists row, c', x. rewrite Hput. simpl. rewrite Hx. simpl.
  repeat split; try done.
  intros j Hj. rewrite Hc' by done. rewrite Hcast by lia. done.
Qed.

Lemma claim_desc_inv (I : nat → state → Prop) :
  (∀ k st, (k < n)%nat → I (S k) st →
           ∃ st', claim_step cast visit rows k st = Some st' ∧ I k st') →
  ∀ m st, (m ≤ n)%nat → I m st →
          ∃ st', claim_desc cast visit rows m st = Some st' ∧ I O st'.
Proof.
  intros Hstep m. induction m as [|k IH]; intros st Hm HI.
  - by exists st.
  - destruct (Hstep k st) as (st1 & H1 & HI1); [lia|done|].
    destruct (IH st1) as (st2 & H2 & HI2); [lia|done|].
    exists st2. simpl. rewrite H1. simpl. done.
Qed.

(** ** Any table of the right shape *)

Lemma G_step k st :
  (k < n)%nat → claimed_shape n (S k) st →
  ∃ st', claim_step cast visit rows k st = Some st' ∧ claimed_shape n k st'.
Proof.
  destruct st as [[c reps] extra]. intros Hk (Hc & Hmem & Hrange & Hlen & Hlast).
  destruct (claim_step_spec k c reps extra Hc Hk) as (v & Hv & [[Hne Hs]|[-> Hs]]).
  - exists (c, reps, extra). split; [done|]. repeat split; try done; [lia|].
    left. destruct Hlast as [?|[_ Hall]]; [done|].
    specialize (Hall _ _ Hv). done.
  - destruct Hs as (row & c' & x & Hrow & Hs & Hlen' & Hc').
    exists (c', reps ++ [Z.of_nat k], extra ++ [x]). split; [done|].
    repeat split; try done.
    + intros j w Hj Hw. rewrite Hc' in Hw by done.
      destruct (decide _).
      * injection Hw as <-. right. apply elem_of_app. right. by left.
      * destruct (Hmem j w Hj Hw) as [?|?]; [by left|].
        right. apply elem_of_app. by left.
    + apply Forall_app. split; [done|]. apply Forall_singleton. lia.
    + rewrite length_app. simpl. lia.
    + left. destruct Hlast as [?|[Hkn _]].
      * apply elem_of_app. by left.
      * apply elem_of_app. right. replace (n - 1)%nat with k by lia. by left.
Qed.

Lemma G_init : claimed_shape (X:=X) n n (replicate (n + 1) (-1), [], []).
Proof.
  repeat split.
  - rewrite length_replicate. lia.
  - intros j v _ Hv. apply lookup_replicate in Hv as [-> _]. by left.
  - done.
  - simpl. lia.
  - right. split; [done|]. intros j v Hv. by apply lookup_replicate in Hv as [-> _].
Qed.

Lemma claim_desc_general :
  ∃ c reps extra,
    claim_desc cast visit rows n (replicate (n + 1) (-1), [], []) = Some (c, reps, extra) ∧
    length c = S n ∧
    (∀ j v, (j < n)%nat → c !! j = Some v → v = -1 ∨ v ∈ reps) ∧
    Forall (λ r, 0 ≤ r < Z.of_nat n) reps ∧
    (length reps ≤ n)%nat ∧
    ((0 < n)%nat → Z.of_nat (n - 1) ∈ reps).
Proof.
  destruct (claim_desc_inv (claimed_shape n) G_step n _ (le_n n) G_init) as ([[c reps] extra] & Hrun & HG).
  destruct HG as (Hc & Hmem & Hrange & Hlen & Hlast).
  exists c, reps, extra. repeat split; try done; [lia|].
  intros Hn. destruct Hlast as [?|[? _]]; [done|lia].
Qed.

(** ** The table of an equivalence *)

Section Equivalence.
Hypothesis Hrefl : ∀ j, (j < n)%nat → reach rows j j.
Hypothesis Hsym : ∀ j j', reach rows j j' → reach rows j' j.
Hypothesis Htrans : ∀ a b d, reach rows a b → reach rows b d → reach rows a d.

Lemma reach_lt j j' : reach rows j j' → (j < n)%nat ∧ (j' < n)%nat.
Proof.
  intros (row & Hrow & Hin). split.
  - apply lookup_lt_Some in Hrow. lia.
  - pose proof (Forall_lookup_1 _ _ _ _ Hwf Hrow) as Hr.
    rewrite Forall_forall in Hr. apply Hr in Hin. lia.
Qed.

Lemma is_top_spec r :
  (r < n)%nat → is_top rows r = true ↔ ∀ j, reach rows r j → (j ≤ r)%nat.
Proof.
  intros Hr. unfold is_top.
  destruct (lookup_lt_is_Some_2 rows r) as [row Hrow]; [lia|]. rewrite Hrow.
  rewrite forallb_forall. split.
  - intros H j (row' & Hrow' & Hin). rewrite Hrow in Hrow'. injection Hrow' as <-.
    apply list_elem_of_In, H, Z.leb_le in Hin. lia.
  - intros H e He. apply Z.leb_le.
    pose proof (Forall_lookup_1 _ _ _ _ Hwf Hrow) as Hb.
    rewrite Forall_forall in Hb. apply list_elem_of_In in He.
    pose proof (Hb _ He) as Hbe.
    destruct (Z.ltb_spec e 0); [lia|].
    assert (Z.to_nat e ≤ r)%nat; [|lia].
    apply H. exists row. split; [done|]. by rewrite Z2Nat.id.
Qed.

Lemma P_step k st :
  (k < n)%nat → claimed_orbits rows n (S k) st →
  ∃ st', claim_step cast visit rows k st = Some st' ∧ claimed_orbits rows n k st'.
Proof.
  destruct st as [[c reps] extra]. intros Hk (Hc & Hcl & Hun & Hreps).
  assert (Hseq : seq k (n - k) = k :: seq (S k) (n - S k)).
  { replace (n - k)%nat with (S (n - S k)) by lia. done. }
  destruct (claim_step_spec k c reps extra Hc Hk) as (v & Hv & [[Hne Hs]|[-> Hs]]).
  - exists (c, reps, extra). split; [done|].
    destruct (Hcl k v Hk Hv Hne) as (r & -> & Hr & Hrk & Htop).
    repeat split; try done.
    + intros j w Hj Hw Hw1. destruct (Hcl j w Hj Hw Hw1) as (r' & ? & ? & ? & ?).
      exists r'. repeat split; try done. lia.
    + intros j Hj Hw k' Hk' Hreach.
      destruct (decide (k' = k)) as [->|Hne'].
      * apply (Hun j Hj Hw r Hr). by apply Htrans with k.
      * apply (Hun j Hj Hw k'); [lia|done].
    + rewrite Hseq. simpl.
      replace (is_top rows k) with false; [done|].
      symmetry. apply not_true_is_false. intros Ht.
      pose proof (proj1 (is_top_spec k Hk) Ht r (Hsym _ _ Hrk)). lia.
  - destruct Hs as (row & c' & x & Hrow & Hs & Hlen & Hc').
    assert (Htop : is_top rows k = true).
    { apply (is_top_spec k Hk). intros j Hkj.
      destruct (decide (j ≤ k)%nat) as [|Hgt]; [done|]. exfalso.
      apply (Hun k Hk Hv j); [lia|]. by apply Hsym. }
    exists (c', reps ++ [Z.of_nat k], extra ++ [x]). split; [done|].
    repeat split; try done.
    + intros j w Hj Hw Hw1. rewrite Hc' in Hw by done.
      destruct (decide _) as [Hin|Hin].
      * injection Hw as <-. exists k. split; [done|]. split; [lia|]. split; [by exists row|done].
      * destruct (Hcl j w Hj Hw Hw1) as (r' & ? & ? & ? & ?).
        exists r'. repeat split; try done. lia.
    + intros j Hj Hw k' Hk' Hreach. rewrite Hc' in Hw by done.
      destruct (decide _) as [Hin|Hin]; [injection Hw as Hw; lia|].
      destruct (decide (k' = k)) as [->|Hne'].
      * apply Hin. destruct Hreach as (row' & Hrow' & ?).
        rewrite Hrow in Hrow'. by injection Hrow' as <-.
      * apply (Hun j Hj Hw k'); [lia|done].
    + rewrite Hseq. simpl. rewrite Htop. simpl.
      rewrite map_app. simpl. by rewrite Hreps.
Qed.

Lemma P_init : claimed_orbits (X:=X) rows n n (replicate (n + 1) (-1), [], []).
Proof.
  repeat split.
  - rewrite length_replicate. lia.
  - intros j v _ Hv Hne. by apply lookup_replicate in Hv as [-> _].
  - intros j Hj _ k Hk Hreach. apply reach_lt in Hreach. lia.
  - by rewrite Nat.sub_diag.
Qed.

Lemma claim_desc_equiv :
  ∃ c extra,
    claim_desc cast visit rows n (replicate (n + 1) (-1), [], [])
      = Some (c, map Z.of_nat (rev (List.filter (is_top rows) (seq 0 n))), extra) ∧
    length c = S n ∧
    (∀ j, (j < n)%nat →
       ∃ r : nat, c !! j = Some (Z.of_nat r) ∧ reach rows r j ∧ is_top rows r = true).
Proof.
  destruct (claim_desc_inv (claimed_orbits rows n) P_step n _ (le_n n) P_init) as ([[c reps] extra] & Hrun & HP).
  destruct HP as (Hc & Hcl & Hun & Hreps).
  rewrite Nat.sub_0_r in Hreps. subst reps.
  exists c, extra. repeat split; try done.
  intros j Hj. destruct (lookup_lt_is_Some_2 c j) as [v Hv]; [lia|].
  destruct (decide (v = -1)) as [->|Hne].
  - exfalso. apply (Hun j Hj Hv j); [lia|]. by apply Hrefl.
  - destruct (Hcl j v Hj Hv Hne) as (r & -> & _ & ? & ?). by exists r.
Qed.
End Equivalence.
End ClaimFacts.

Lemma put_each_spec {A} (idx : list Z) : ∀ (vals l : list A),
  length idx = length vals →
  Forall (λ r, 0 ≤ r < Z.of_nat (length l)) idx →
  ∃ l', Py.put_each l idx vals = Some l' ∧ length l' = length l ∧
        (∀ r : nat, Z.of_nat r ∈ idx →
           ∃ i, idx !! i = Some (Z.of_nat r) ∧ l' !! r = vals !! i) ∧
        (∀ r : nat, Z.of_nat r ∉ idx → l' !! r = l !! r).
Proof.
  induction idx as [|e idx IH]; intros vals l Hlen Hidx.
  - exists l. split; [done|]. split; [done|]. split; [|done].
    intros r Hr. by apply elem_of_nil in Hr.
  - destruct vals as [|v vals]; [done|]. simpl in Hlen.
    apply Forall_cons in Hidx as [He Hidx]. simpl.
    assert (Hs : Py.set l e v = Some (<[Z.to_nat e := v]> l)).
    { rewrite <- (Z2Nat.id e) at 1 by lia. apply set_of_nat. lia. }
    rewrite Hs. simpl.
    destruct (IH vals (<[Z.to_nat e := v]> l)) as (l' & Hput & Hl' & Hin & Hout).
    { lia. } { by rewrite length_insert. }
    exists l'. split; [done|]. split; [by rewrite Hl', length_insert|]. split.
    + intros r Hr. destruct (decide (Z.of_nat r ∈ idx)) as [Hr'|Hr'].
      * destruct (Hin r Hr') as (i & Hi & Hv). by exists (S i).
      * apply elem_of_cons in Hr as [Hr|Hr]; [|done].
        exists O. split; [simpl; by rewrite Hr|].
        rewrite (Hout r Hr'). simpl. subst e. rewrite Nat2Z.id.
        apply list_lookup_insert_eq. lia.
    + intros r Hr. apply not_elem_of_cons in Hr as [Hne Hr].
      rewrite (Hout r Hr). apply list_lookup_insert_ne. lia.
Qed.

Lemma take_spec {A} (l : list A) (idx : list Z) :
  Forall (λ e, is_Some (Py.get l e)) idx →
  ∃ r, Py.take l idx = Some r ∧ length r = length idx ∧
       ∀ i e, idx !! i = Some e → r !! i = Py.get l e.
Proof.
  intros H. unfold Py.take.
  destruct (mapM (Py.get l) idx) as [r|] eqn:E.
  - exists r. split; [done|]. apply mapM_Some in E. split.
    + symmetry. by eapply Forall2_length.
    + intros i e Hi. destruct (Forall2_lookup_l _ _ _ _ _ E Hi) as (y & Hy & Hg).
      by rewrite Hy, Hg.
  - exfalso. assert (is_Some (mapM (Py.get l) idx)) as [? ?]; [|congruence].
    apply mapM_is_Some. done.
Qed.

Section OrbitIndex.
Context {X : Type}.
Variable cast : Z → Z.
Variable visit : list Z → option X.
Variable rows : list (list Z).
Variable n : nat.
Variable empty : list Z.
Hypothesis Hrows : length rows = n.
Hypothesis Hwf : Forall (Forall (λ e, -1 ≤ e < Z.of_nat n)) rows.
Hypothesis Hcast : ∀ k, 0 ≤ k < Z.of_nat n → cast k = k.
Hypothesis Hvisit : Forall (λ row, is_Some (visit row)) rows.
Hypothesis Hempty : length empty = n.

Lemma orbit_index_from_claim c reps extra :
  claim_desc cast visit rows n (replicate (n + 1) (-1), [], []) = Some (c, reps, extra) →
  length c = S n →
  Forall (λ r, 0 ≤ r < Z.of_nat n) reps →
  (length reps ≤ n)%nat →
  (∀ j v, (j < n)%nat → c !! j = Some v → target n v ∈ reps) →
  ∃ bz2ibz,
    orbit_index cast visit n rows empty = Some (rev reps, bz2ibz, extra) ∧
    length bz2ibz = n ∧
    ∀ j, (j < n)%nat →
      ∃ v i, c !! j = Some v ∧ bz2ibz !! j = Some (Z.of_nat i) ∧
             rev reps !! i = Some (target n v).
Proof.
  intros Hrun Hc Hrange Hlen Htarget.
  unfold orbit_index. rewrite Hrun. simpl. unfold Py.reversed, Py.drop_last.
  destruct (put_each_spec (rev reps) (map cast (Py.arange (length (rev reps)))) empty)
    as (tmp & Hput & Htmp & Hin & _).
  { unfold Py.arange. by rewrite !length_map, length_seq. }
  { rewrite Hempty. apply Forall_rev. done. }
  rewrite Hput. simpl.
  assert (Hval : ∀ i r, rev reps !! i = Some r →
            map cast (Py.arange (length (rev reps))) !! i = Some (Z.of_nat i)).
  { intros i r Hi. apply lookup_lt_Some in Hi.
    unfold Py.arange. rewrite !list_lookup_fmap.
    rewrite (proj2 (lookup_seq 0 _ i i)) by (split; [done|lia]). simpl.
    f_equal. apply Hcast. rewrite length_rev in Hi. lia. }
  assert (Hget : ∀ j v, (j < n)%nat → c !! j = Some v →
            ∃ i, Py.get tmp v = Some (Z.of_nat i) ∧ rev reps !! i = Some (target n v)).
  { intros j v Hj Hv. pose proof (Htarget j v Hj Hv) as Ht.
    assert (Hb : 0 ≤ target n v < Z.of_nat n).
    { rewrite Forall_forall in Hrange. by apply Hrange. }
    assert (Ht' : Z.of_nat (Z.to_nat (target n v)) ∈ rev reps).
    { rewrite Z2Nat.id by lia. by apply elem_of_rev. }
    destruct (Hin _ Ht') as (i & Hi & Hl). rewrite Z2Nat.id in Hi by lia.
    exists i. split; [|done]. rewrite (Hval i _ Hi) in Hl. rewrite <- Hl.
    unfold target in *. destruct (Z.eqb_spec v (-1)) as [->|Hne].
    - rewrite get_minus_one. rewrite Htmp, Hempty. by rewrite Nat2Z.id.
    - rewrite <- (Z2Nat.id v) at 1 by lia. apply get_of_nat. }
  destruct (take_spec tmp (firstn (length c - 1) c)) as (bz2ibz & Htake & Hl & Hb).
  { apply Forall_forall. intros v Hv. apply list_elem_of_lookup in Hv as [j Hj].
    rewrite lookup_take in Hj. destruct (decide _) as [Hjn|]; [|done].
    destruct (Hget j v) as (i & -> & _); [lia|done|]. by eexists. }
  exists bz2ibz. rewrite Htake. simpl. split; [done|].
  split. { rewrite Hl, length_take. lia. }
  intros j Hj. destruct (lookup_lt_is_Some_2 c j) as [v Hv]; [lia|].
  destruct (Hget j v Hj Hv) as (i & Hi & Hr). exists v, i. split; [done|]. split; [|done].
  rewrite (Hb j v); [done|]. rewrite lookup_take. rewrite decide_True by lia. done.
Qed.

Lemma orbit_index_general :
  ∃ ibz2bz bz2ibz extra,
    orbit_index cast visit n rows empty = Some (ibz2bz, bz2ibz, extra) ∧
    length bz2ibz = n ∧
    Forall (λ r, 0 ≤ r < Z.of_nat n) ibz2bz ∧
    ∀ j, (j < n)%nat →
      ∃ i, bz2ibz !! j = Some (Z.of_nat i) ∧ (i < length ibz2bz)%nat.
Proof.
  destruct (claim_desc_general cast visit rows n Hrows Hwf Hcast Hvisit)
    as (c & reps & extra & Hrun & Hc & Hmem & Hrange & Hlen & Hlast).
  destruct (orbit_index_from_claim c reps extra Hrun Hc Hrange Hlen)
    as (bz2ibz & Hoi & Hl & Hb).
  { intros j v Hj Hv. unfold target. destruct (Z.eqb_spec v (-1)).
    - apply Hlast. lia.
    - destruct (Hmem j v Hj Hv); done. }
  exists (rev reps), bz2ibz, extra. split; [done|]. split; [done|].
  split; [by apply Forall_rev|].
  intros j Hj. destruct (Hb j Hj) as (v & i & _ & Hi & Hr).
  exists i. split; [done|]. by apply lookup_lt_Some in Hr.
Qed.

Section Equivalence.
Hypothesis Hrefl : ∀ j, (j < n)%nat → reach rows j j.
Hypothesis Hsym : ∀ j j', reach rows j j' → reach rows j' j.
Hypothesis Htrans : ∀ a b d, reach rows a b → reach rows b d → reach rows a d.

Lemma orbit_index_equiv :
  ∃ bz2ibz extra,
    orbit_index cast visit n rows empty
      = Some (map Z.of_nat (List.filter (is_top rows) (seq 0 n)), bz2ibz, extra) ∧
    length bz2ibz = n ∧
    ∀ j, (j < n)%nat →
      ∃ i r, bz2ibz !! j = Some (Z.of_nat i) ∧
             List.filter (is_top rows) (seq 0 n) !! i = Some r ∧
             reach rows r j ∧ is_top rows r = true.
Proof.
  destruct (claim_desc_equiv cast visit rows n Hrows Hwf Hcast Hvisit Hrefl Hsym Htrans)
    as (c & extra & Hrun & Hc & Hcl).
  set (tops := List.filter (is_top rows) (seq 0 n)) in *.
  assert (Htops : Forall (λ r, 0 ≤ r < Z.of_nat n) (map Z.of_nat (rev tops))).
  { apply Forall_forall. intros r Hr. apply list_elem_of_fmap in Hr as (r' & -> & Hr').
    apply elem_of_rev, list_elem_of_In, filter_In in Hr' as [Hr' _].
    apply in_seq in Hr'. lia. }
  destruct (orbit_index_from_claim c _ extra Hrun Hc Htops) as (bz2ibz & Hoi & Hl & Hb).
  { rewrite length_map, length_rev. subst tops.
    etransitivity; [apply filter_length_le|]. by rewrite length_seq. }
  { intros j v Hj Hv. destruct (Hcl j Hj) as (r & Hr & Hreach & Htop).
    rewrite Hv in Hr. injection Hr as ->. unfold target.
    destruct (Z.eqb_spec (Z.of_nat r) (-1)); [lia|].
    apply list_elem_of_fmap. exists r. split; [done|].
    apply elem_of_rev, list_elem_of_In, filter_In. split; [|done].
    apply in_seq. apply (reach_lt rows n Hrows Hwf) in Hreach. lia. }
  exists bz2ibz, extra. rewrite <- map_rev, rev_involutive in Hoi.
  split; [done|]. split; [done|].
  intros j Hj. destruct (Hb j Hj) as (v & i & Hv & Hi & Hr).
  destruct (Hcl j Hj) as (r & Hr' & Hreach & Htop).
  rewrite Hv in Hr'. injection Hr' as ->.
  exists i, r. split; [done|]. split; [|done].
  rewrite <- map_rev, rev_involutive in Hr. unfold target in Hr.
  destruct (Z.eqb_spec (Z.of_nat r) (-1)); [lia|].
  rewrite list_lookup_fmap in Hr.
  destruct (tops !! i) as [r'|]; [|done]. simpl in Hr.
  injection Hr as Hr. f_equal. lia.
Qed.
End Equivalence.
End OrbitIndex.

(** * [np.where], counting and [np.bincount] *)

Lemma where_elem {A} (f : A → bool) (l : list A) (z : Z) :
  z ∈ Py.where_ f l ↔ ∃ (k : nat) x, z = Z.of_nat k ∧ l !! k = Some x ∧ f x = true.
Proof.
  unfold Py.where_. rewrite list_elem_of_fmap. split.
  - intros (k & -> & Hk). apply list_elem_of_In, filter_In in Hk as [_ Hk].
    destruct (l !! k) as [x|] eqn:E; [|done]. by exists k, x.
  - intros (k & x & -> & Hx & Hf). exists k. split; [done|].
    apply list_elem_of_In, filter_In. split.
    + apply in_seq. apply lookup_lt_Some in Hx. lia.
    + by rewrite Hx.
Qed.

Lemma where_NoDup {A} (f : A → bool) (l : list A) : NoDup (Py.where_ f l).
Proof.
  unfold Py.where_. apply NoDup_fmap; [intros ???; lia|].
  apply NoDup_ListNoDup, List.NoDup_filter, seq_NoDup.
Qed.

Lemma count_cons (i x : Z) (l : list Z) :
  Py.count i (x :: l) = (if i =? x then 1 else 0) + Py.count i l.
Proof. unfold Py.count. simpl. destruct (i =? x); simpl; lia. Qed.


Lemma count_nonneg i l : 0 ≤ Py.count i l.
Proof. unfold Py.count. lia. Qed.

(** the members of an orbit are counted by [bincount] *)
Lemma where_length (i : Z) (l : list Z) :
  Z.of_nat (length (Py.where_ (Z.eqb i) l)) = Py.count i l.
Proof.
  unfold Py.where_, Py.count. rewrite length_map. f_equal.
  induction l as [|x l IH] using rev_ind; [done|].
  rewrite length_app. simpl. rewrite Nat.add_1_r, seq_S, !List.filter_app, !length_app.
  simpl. rewrite lookup_app_r, Nat.sub_diag by lia. simpl.
  rewrite <- IH. f_equal; [f_equal|by destruct (i =? x)].
  apply filter_ext_in. intros k Hk. apply in_seq in Hk.
  rewrite lookup_app_l by lia. done.
Qed.

Lemma maximum_ge (l : list Z) : 0 ≤ Py.maximum l ∧ ∀ x, x ∈ l → x ≤ Py.maximum l.
Proof.
  induction l as [|y l [IH0 IH]]; simpl.
  - split; [done|]. intros x Hx. by apply elem_of_nil in Hx.
  - split; [lia|]. intros x [->|Hx]%elem_of_cons; [lia|]. specialize (IH x Hx). lia.
Qed.

Lemma maximum_elem (l : list Z) (M : Z) :
  M ∈ l → (∀ x, x ∈ l → 0 ≤ x ≤ M) → Py.maximum l = M.
Proof.
  intros HM Hb. destruct (maximum_ge l) as [H0 Hge].
  assert (0 ≤ M) by (specialize (Hb M HM); lia).
  assert (Py.maximum l ≤ M); [|specialize (Hge M HM); lia].
  clear HM Hge H0. induction l as [|y l IH]; simpl; [done|].
  assert (y ≤ M) by (assert (Hy : y ∈ y :: l) by left; specialize (Hb y Hy); lia).
  assert (Py.maximum l ≤ M); [|lia].
  apply IH. intros x Hx. apply Hb. by right.
Qed.

Lemma Zsum_app l1 l2 : Zsum (l1 ++ l2) = Zsum l1 + Zsum l2.
Proof. induction l1; simpl; lia. Qed.

Lemma Zsum_indicator (x : Z) (m : nat) :
  Zsum (map (λ i : nat, if Z.of_nat i =? x then 1 else 0) (seq 0 m))
  = if (0 <=? x) && (x <? Z.of_nat m) then 1 else 0.
Proof.
  induction m as [|m IH].
  - cbn. change (Z.of_nat 0) with 0.
    destruct (0 <=? x) eqn:E1, (x <? 0) eqn:E2; cbn; try reflexivity.
    apply Z.leb_le in E1. apply Z.ltb_lt in E2. lia.
  - rewrite seq_S, map_app, Zsum_app, IH. cbn [map Zsum fold_right Nat.add].
    destruct (Z.leb_spec 0 x), (Z.ltb_spec x (Z.of_nat m)), (Z.eqb_spec (Z.of_nat m) x),
      (Z.ltb_spec x (Z.of_nat (S m))); cbn [andb]; lia.
Qed.

Lemma Zsum_counts (l : list Z) (m : nat) :
  Forall (λ x, 0 ≤ x < Z.of_nat m) l →
  Zsum (map (λ i : nat, Py.count (Z.of_nat i) l) (seq 0 m)) = Z.of_nat (length l).
Proof.
  induction 1 as [|x l Hx Hl IH].
  - unfold Py.count. simpl. induction (seq 0 m); simpl; lia.
  - replace (Z.of_nat (length (x :: l))) with (1 + Z.of_nat (length l)) by (simpl; lia).
    rewrite <- IH. clear IH.
    transitivity (Zsum (map (λ i : nat, if Z.of_nat i =? x then 1 else 0) (seq 0 m))
                  + Zsum (map (λ i : nat, Py.count (Z.of_nat i) l) (seq 0 m))).
    + induction (seq 0 m) as [|i s IHs]; simpl; [done|]. rewrite count_cons. lia.
    + rewrite Zsum_indicator.
      replace ((0 <=? x) && (x <? Z.of_nat m)) with true; [done|].
      symmetry. apply andb_true_iff. split; [apply Z.leb_le | apply Z.ltb_lt]; lia.
Qed.

Lemma bincount_spec (l : list Z) (m : nat) :
  l ≠ [] → Forall (λ x, 0 ≤ x < Z.of_nat m) l →
  ∃ counts, Py.bincount l = Some counts ∧
    length counts = S (Z.to_nat (Py.maximum l)) ∧
    (length counts ≤ m)%nat ∧
    (∀ i c, counts !! i = Some c → c = Py.count (Z.of_nat i) l) ∧
    Zsum counts = Z.of_nat (length l).
Proof.
  intros Hne Hl. unfold Py.bincount.
  replace (existsb (λ x, x <? 0) l) with false.
  2:{ symmetry. apply not_true_is_false. intros (x & Hx & Hx')%existsb_exists.
      rewrite Forall_forall in Hl. apply list_elem_of_In, Hl in Hx.
      apply Z.ltb_lt in Hx'. lia. }
  destruct l as [|x0 l0] eqn:El; [done|]. rewrite <- El in *. clear El x0 l0.
  destruct (maximum_ge l) as [H0 Hge].
  assert (HM : Py.maximum l < Z.of_nat m).
  { assert (Hm : 0 < Z.of_nat m).
    { destruct l as [|x l']; [done|]. apply Forall_cons in Hl as [? _]. lia. }
    clear Hne Hge H0. induction Hl as [|x l Hx Hl IH]; simpl; lia. }
  eexists. split; [done|]. rewrite length_map, length_seq.
  split; [done|]. split; [lia|]. split.
  - intros i c Hi. rewrite list_lookup_fmap in Hi.
    destruct (seq 0 _ !! i) as [i'|] eqn:E; [|done].
    apply lookup_seq in E as [-> _]. simpl in Hi. by injection Hi as <-.
  - set (m' := S (Z.to_nat (Py.maximum l))).
    apply Zsum_counts. apply Forall_forall. intros x Hx.
    rewrite Forall_forall in Hl. specialize (Hl x Hx). specialize (Hge x Hx). lia.
Qed.

(** * The operation search of [make_kpts_ibz] always completes *)

Lemma table_wf_rows n nops T :
  table_wf n nops T → Forall (Forall (λ e, -1 ≤ e < Z.of_nat n)) T.
Proof. intros [_ H]. eapply Forall_impl; [exact H|]. by intros row [_ ?]. Qed.

Lemma column_some n nops T io :
  table_wf n nops T → (io < nops)%nat → is_Some (column T io).
Proof.
  intros [_ H] Hio. unfold column. apply mapM_is_Some.
  eapply Forall_impl; [exact H|]. intros row [Hlen _]. simpl.
  rewrite get_of_nat. apply lookup_lt_is_Some_2. lia.
Qed.

Lemma find_op_some n nops T a b : ∀ op_rot io,
  table_wf n nops T → (io + length op_rot ≤ nops)%nat →
  is_Some (find_op T a b io op_rot).
Proof.
  induction op_rot as [|op rest IH]; intros io Hwf Hio; simpl; [done|].
  simpl in Hio. destruct (column_some n nops T io Hwf) as [col ->]; [lia|]. simpl.
  destruct (Py.mem (-1) col); [apply IH; [done|lia]|].
  destruct (connects a b op); [done|]. apply IH; [done|lia].
Qed.

Lemma find_op_nonempty T a b op_rot io j :
  find_op T a b io op_rot = Some (Some j) → op_rot ≠ [].
Proof. by destruct op_rot. Qed.

Section SearchCompletes.
Variable T : list (list Z).
Variable op_rot : list mat.
Variable nop_ : Z.
Variable ks ks_ibz : list vec.
Variable bz2ibz_ : list Z.
Variable n : nat.
Hypothesis Hwf : table_wf n (length op_rot) T.
Hypothesis Hnop : op_rot ≠ [] → nop_ ≠ 0.
Hypothesis Hks : length ks = n.
Hypothesis Hlen : length bz2ibz_ = n.
Hypothesis Hidx : ∀ j, (j < n)%nat →
  ∃ i, bz2ibz_ !! j = Some (Z.of_nat i) ∧ (i < length ks_ibz)%nat.

Lemma connect_bz_some : ∀ rng st,
  Forall (λ k, k < n)%nat rng → length (fst st) = n → length (snd st) = n →
  is_Some (connect_bz T op_rot nop_ ks ks_ibz bz2ibz_ rng st).
Proof.
  induction rng as [|k rng IH]; intros st Hrng H1 H2; simpl; [done|].
  apply Forall_cons in Hrng as [Hk Hrng].
  rewrite !get_of_nat.
  destruct (lookup_lt_is_Some_2 ks k) as [bz ->]; [lia|]. simpl.
  destruct (Hidx k Hk) as (i & -> & Hi). simpl. rewrite get_of_nat.
  destruct (lookup_lt_is_Some_2 ks_ibz i Hi) as [ibz ->]. simpl.
  destruct (find_op_some n (length op_rot) T bz ibz op_rot O Hwf) as [r Hr]; [simpl; lia|].
  rewrite Hr. simpl. destruct r as [io|]; [|by apply IH].
  apply find_op_nonempty, Hnop in Hr.
  destruct (Z.eqb_spec nop_ 0); [done|].
  rewrite !set_of_nat by lia. simpl.
  apply IH; [done|simpl; by rewrite length_insert..].
Qed.

Lemma star_ops_some ibz i : ∀ idx sops,
  Forall (λ kj, ∃ k : nat, kj = Z.of_nat k ∧ (k < n)%nat) idx →
  (i < length sops)%nat →
  ∃ sops', star_ops T op_rot nop_ ks ibz (Z.of_nat i) idx sops = Some sops' ∧
           length sops' = length sops.
Proof.
  induction idx as [|kj idx IH]; intros sops Hidx' Hi; [by exists sops|].
  apply Forall_cons in Hidx' as [(k & -> & Hk) Hidx']. cbn [star_ops].
  rewrite (get_of_nat ks k).
  destruct (lookup_lt_is_Some_2 ks k) as [bz ->]; [lia|]. simpl.
  destruct (find_op_some n (length op_rot) T bz ibz op_rot O Hwf) as [r Hr]; [simpl; lia|].
  rewrite Hr. simpl. destruct r as [io|]; [|by apply IH].
  apply find_op_nonempty, Hnop in Hr.
  destruct (Z.eqb_spec nop_ 0); [done|].
  rewrite (get_of_nat sops i).
  destruct (lookup_lt_is_Some_2 sops i Hi) as [cur ->]. simpl.
  rewrite set_of_nat by done. simpl.
  destruct (IH (<[i:=cur ++ [Z.of_nat io mod nop_]]> sops)) as (sops' & -> & Hl);
    [done|by rewrite length_insert|].
  exists sops'. split; [done|]. by rewrite Hl, length_insert.
Qed.

Lemma where_range i :
  Forall (λ kj, ∃ k : nat, kj = Z.of_nat k ∧ (k < n)%nat)
         (Py.where_ (Z.eqb i) bz2ibz_).
Proof.
  apply Forall_forall. intros z (k & x & -> & Hk & _)%where_elem.
  exists k. split; [done|]. apply lookup_lt_Some in Hk. lia.
Qed.

Lemma build_stars_spec : ∀ b a st,
  (a + b ≤ length ks_ibz)%nat → (a ≤ length (snd st))%nat →
  ∃ sops',
    build_stars T op_rot nop_ ks ks_ibz bz2ibz_ (seq a b) st
    = Some (fst st ++ map (λ i : nat, Py.where_ (Z.eqb (Z.of_nat i)) bz2ibz_) (seq a b),
            sops').
Proof.
  induction b as [|b IH]; intros a st Hab Ha; simpl.
  - exists (snd st). rewrite app_nil_r. by destruct st.
  - rewrite (get_of_nat ks_ibz a).
    destruct (lookup_lt_is_Some_2 ks_ibz a) as [ibz ->]; [lia|]. simpl.
    destruct (star_ops_some ibz a (Py.where_ (Z.eqb (Z.of_nat a)) bz2ibz_) (snd st ++ [[]]))
      as (sops1 & -> & Hl1); [apply where_range|rewrite length_app; simpl; lia|].
    simpl.
    destruct (IH (S a) (fst st ++ [Py.where_ (Z.eqb (Z.of_nat a)) bz2ibz_], sops1))
      as (sops' & ->); [lia|simpl; rewrite Hl1, length_app; simpl; lia|].
    exists sops'. simpl. by rewrite <- app_assoc.
Qed.
End SearchCompletes.

(** * [make_kpts_ibz] runs to completion *)

Lemma visit_tt (T : list (list Z)) : Forall (λ row, is_Some ((λ _ : list Z, Some tt) row)) T.
Proof. apply Forall_forall. intros ? _. by eexists. Qed.

Lemma np_empty_length E line n : length (np_empty E line n) = n.
Proof. unfold np_empty. by rewrite length_map, length_seq. Qed.

Lemma make_kpts_ibz_run (E : Env) (self : KPoints) :
  env_ok E → ready self →
  ∃ c ks self' x counts,
    cell (sym self) = Some c ∧ kpts_scaled self = Some ks ∧
    make_kpts_ibz E self = Some self' ∧
    let T := map_k_points_fast E ks (op_rot_of E c self) KPTS_DIFF_TOL in
    table_wf (_nkpts self) (length (op_rot_of E c self)) T ∧
    orbit_index id (λ _, Some tt) (_nkpts self) T (np_empty E 63 (_nkpts self))
      = Some (ibz2bz self', bz2ibz self', x) ∧
    length (bz2ibz self') = _nkpts self ∧
    Forall (λ r, 0 ≤ r < Z.of_nat (_nkpts self)) (ibz2bz self') ∧
    (∀ j, (j < _nkpts self)%nat →
       ∃ i, bz2ibz self' !! j = Some (Z.of_nat i) ∧ (i < length (ibz2bz self'))%nat) ∧
    k2opk self' = Some T ∧
    Py.bincount (bz2ibz self') = Some counts ∧
    weights_ibz self' =
      map (λ m, f64_of_Z m * (1 / f64_of_Z (Z.of_nat (_nkpts self))))%float counts ∧
    _nkpts_ibz self' = length (ibz2bz self') ∧
    stars self' =
      stars self ++ map (λ i : nat, Py.where_ (Z.eqb (Z.of_nat i)) (bz2ibz self'))
                        (seq 0 (length (ibz2bz self'))) ∧
    _nkpts self' = _nkpts self ∧ sym self' = sym self ∧
    time_reversal self' = time_reversal self ∧ kpts self' = kpts self ∧
    kk self' = kk self.
Proof.
  intros (Hscaled & Habs & Hmatch) ([c Hc] & (ks & Hks & Hlen) & Hpos & Hsops & Htrs & Hnop).
  remember (_nkpts self) as n eqn:Hn.
  set (T := map_k_points_fast E ks (op_rot_of E c self) KPTS_DIFF_TOL).
  assert (Hwf : table_wf n (length (op_rot_of E c self)) T).
  { subst T. rewrite <- Hlen. apply Hmatch. }
  destruct (orbit_index_general id (λ _, Some tt) T n (np_empty E 63 n))
    as (ibz2bz_k & bz2ibz_k & x & Hoi & Hl & Hrange & Hidx).
  { apply Hwf. } { by eapply table_wf_rows. } { done. } { apply visit_tt. }
  { apply np_empty_length. }
  destruct (bincount_spec bz2ibz_k (length ibz2bz_k)) as (counts & Hbin & _).
  { destruct bz2ibz_k; [simpl in Hl; lia|done]. }
  { apply Forall_forall. intros z Hz. apply list_elem_of_lookup in Hz as [j Hj].
    pose proof (lookup_lt_Some _ _ _ Hj) as Hjn. rewrite Hl in Hjn.
    destruct (Hidx j Hjn) as (i & Hi & Hin). rewrite Hj in Hi. injection Hi as ->. lia. }
  destruct (take_spec ks ibz2bz_k) as (ks_ibz & Htake & Hlk & _).
  { eapply Forall_impl; [exact Hrange|]. intros r Hr. simpl in *.
    rewrite <- (Z2Nat.id r) by lia. rewrite get_of_nat.
    apply lookup_lt_is_Some_2. lia. }
  assert (Hnop' : op_rot_of E c self ≠ [] → nop (sym self) ≠ 0).
  { intros Hne Hz. apply Hne. unfold op_rot_of.
    destruct (ops (sym self)); [by destruct (time_reversal self)|]. simpl in Hnop. lia. }
  assert (Hidx' : ∀ j, (j < n)%nat →
            ∃ i, bz2ibz_k !! j = Some (Z.of_nat i) ∧ (i < length ks_ibz)%nat).
  { intros j Hj. destruct (Hidx j Hj) as (i & ? & ?). exists i. split; [done|lia]. }
  destruct (connect_bz_some T _ (nop (sym self)) ks ks_ibz bz2ibz_k n Hwf Hnop' Hlen Hl Hidx'
              (seq 0 n) (time_reversal_symm_bz self, stars_ops_bz self))
    as [[trs sops_bz] Hconn]; [|done|done|].
  { apply Forall_forall. intros k Hk. apply elem_of_seq in Hk. lia. }
  destruct (build_stars_spec T _ (nop (sym self)) ks ks_ibz bz2ibz_k n Hwf Hnop' Hlen Hl
              (length (get_abs_kpts E c ks_ibz)) O (stars self, stars_ops self))
    as (sops & Hstars); [rewrite Habs; simpl; lia|simpl; lia|].
  eexists c, ks, _, x, counts. split; [done|]. split; [done|].
  split.
  { unfold make_kpts_ibz. rewrite Hc, Hks. simpl. rewrite <- Hn. fold T. rewrite Hoi. simpl.
    rewrite Hbin. simpl.
    destruct (Nat.eqb_spec n 0); [lia|].
    rewrite Htake. simpl. rewrite Hconn. simpl. rewrite Hstars. simpl. reflexivity. }
  simpl. rewrite Habs, Hlk. split; [exact Hwf|]. repeat split; try done.
Qed.

(** * Orbits of an equivalence: every point gets the index of its class *)

Section OrbitClasses.
Context {X : Type}.
Variable cast : Z → Z.
Variable visit : list Z → option X.
Variable rows : list (list Z).
Variable n : nat.
Variable empty : list Z.
Hypothesis Hrows : length rows = n.
Hypothesis Hwf : Forall (Forall (λ e, -1 ≤ e < Z.of_nat n)) rows.
Hypothesis Hcast : ∀ k, 0 ≤ k < Z.of_nat n → cast k = k.
Hypothesis Hvisit : Forall (λ row, is_Some (visit row)) rows.
Hypothesis Hempty : length empty = n.
Hypothesis Hrefl : ∀ j, (j < n)%nat → reach rows j j.
Hypothesis Hsym : ∀ j j', reach rows j j' → reach rows j' j.
Hypothesis Htrans : ∀ a b d, reach rows a b → reach rows b d → reach rows a d.

Let tops := List.filter (is_top rows) (seq 0 n).

Lemma tops_NoDup : NoDup tops.
Proof. apply NoDup_ListNoDup, List.NoDup_filter, seq_NoDup. Qed.

Lemma top_unique r r' :
  reach rows r r' → is_top rows r = true → is_top rows r' = true → r = r'.
Proof.
  intros Hr Ht Ht'. pose proof (reach_lt rows n Hrows Hwf _ _ Hr) as [Hn Hn'].
  pose proof (proj1 (is_top_spec rows n Hrows Hwf r Hn) Ht r' Hr).
  pose proof (proj1 (is_top_spec rows n Hrows Hwf r' Hn') Ht' r (Hsym _ _ Hr)).
  lia.
Qed.

Lemma orbit_index_classes :
  ∃ bz2ibz extra,
    orbit_index cast visit n rows empty = Some (map Z.of_nat tops, bz2ibz, extra) ∧
    length bz2ibz = n ∧
    (∀ j, (j < n)%nat →
       ∃ i r, bz2ibz !! j = Some (Z.of_nat i) ∧ tops !! i = Some r ∧
              reach rows r j ∧ is_top rows r = true) ∧
    (∀ j j', reach rows j j' → bz2ibz !! j = bz2ibz !! j') ∧
    (∀ j j', (j < n)%nat → (j' < n)%nat →
             bz2ibz !! j = bz2ibz !! j' → reach rows j j') ∧
    (∀ i r, tops !! i = Some r → bz2ibz !! r = Some (Z.of_nat i)).
Proof.
  destruct (orbit_index_equiv cast visit rows n empty Hrows Hwf Hcast Hvisit Hempty
              Hrefl Hsym Htrans) as (bz2ibz & extra & Hoi & Hl & Hb).
  fold tops in Hoi, Hb.
  exists bz2ibz, extra. split; [done|]. split; [done|]. split; [done|].
  split; [|split].
  - intros j j' Hr. pose proof (reach_lt rows n Hrows Hwf _ _ Hr) as [Hj Hj'].
    destruct (Hb j Hj) as (i & r & Hi & Hti & Hrj & Ht).
    destruct (Hb j' Hj') as (i' & r' & Hi' & Hti' & Hrj' & Ht').
    assert (r = r') as <-.
    { apply top_unique; [|done..].
      apply Htrans with j; [done|]. apply Htrans with j'; [done|]. by apply Hsym. }
    rewrite Hi, Hi'. do 2 f_equal.
    eapply NoDup_lookup; [apply tops_NoDup|done..].
  - intros j j' Hj Hj' Heq.
    destruct (Hb j Hj) as (i & r & Hi & Hti & Hrj & Ht).
    destruct (Hb j' Hj') as (i' & r' & Hi' & Hti' & Hrj' & Ht').
    rewrite Hi, Hi' in Heq. injection Heq as Heq. apply Nat2Z.inj in Heq. subst i'.
    rewrite Hti in Hti'. injection Hti' as <-.
    apply Htrans with r; [by apply Hsym|done].
  - intros i r Hi.
    assert (Hr : (r < n)%nat ∧ is_top rows r = true).
    { apply list_elem_of_lookup_2, list_elem_of_In, filter_In in Hi as [Hi ?].
      apply in_seq in Hi. split; [lia|done]. }
    destruct Hr as [Hr Ht].
    destruct (Hb r Hr) as (i' & r' & Hi' & Hti' & Hrj' & Ht').
    assert (r' = r) as -> by (by apply top_unique).
    rewrite Hi'. do 2 f_equal. eapply NoDup_lookup; [apply tops_NoDup|done..].
Qed.
End OrbitClasses.

(** * A group table induces an equivalence on the mesh *)

Section GroupTable.
Variable n nops : nat.
Variable T : list (list Z).
Hypothesis Hwf : table_wf n nops T.
Hypothesis Hgrp : action_table n nops T.

Lemma tbl_lookup k s e :
  tbl T k s = e → e ≠ -1 → ∃ row, T !! k = Some row ∧ row !! s = Some e.
Proof.
  unfold tbl. intros He Hne. destruct (T !! k) as [row|]; simpl in *; [|done].
  exists row. split; [done|]. destruct (row !! s); simpl in *; [by subst|done].
Qed.

Lemma tbl_range k s : -1 ≤ tbl T k s < Z.of_nat n.
Proof.
  unfold tbl. destruct (T !! k) as [row|] eqn:E; simpl; [|lia].
  destruct (row !! s) as [e|] eqn:E'; simpl; [|lia].
  destruct Hwf as [_ H]. pose proof (Forall_lookup_1 _ _ _ _ H E) as [_ Hr].
  by pose proof (Forall_lookup_1 _ _ _ _ Hr E').
Qed.

Lemma reach_tbl j j' :
  reach T j j' ↔ ∃ s, (s < nops)%nat ∧ tbl T j s = Z.of_nat j'.
Proof.
  split.
  - intros (row & Hrow & Hin). apply list_elem_of_lookup in Hin as [s Hs].
    exists s. split.
    + destruct Hwf as [_ H]. pose proof (Forall_lookup_1 _ _ _ _ H Hrow) as [Hl _].
      apply lookup_lt_Some in Hs. lia.
    + unfold tbl. rewrite Hrow. simpl. by rewrite Hs.
  - intros (s & _ & Hs). destruct (tbl_lookup j s _ Hs) as (row & Hrow & He); [lia|].
    exists row. split; [done|]. by eapply list_elem_of_lookup_2.
Qed.

Lemma group_refl j : (j < n)%nat → reach T j j.
Proof.
  intros Hj. destruct Hgrp as (Hid & _ & _).
  apply Exists_exists in Hid as (e & He & Hid). apply elem_of_seq in He.
  rewrite Forall_forall in Hid. apply reach_tbl. exists e. split; [lia|].
  apply Hid. apply elem_of_seq. lia.
Qed.

Lemma reach_bound j j' : reach T j j' → (j < n)%nat ∧ (j' < n)%nat.
Proof.
  intros H. apply (reach_lt T n); [apply Hwf|by eapply table_wf_rows|done].
Qed.

Lemma group_sym j j' : reach T j j' → reach T j' j.
Proof.
  intros Hr. pose proof (reach_bound _ _ Hr) as [Hj Hj'].
  apply reach_tbl in Hr as (s & Hs & Hjs).
  destruct Hgrp as (_ & Hinv & _). rewrite Forall_forall in Hinv.
  assert (Hs' : s ∈ seq 0 nops) by (apply elem_of_seq; lia).
  apply Hinv, Exists_exists in Hs' as (t & Ht & Hinv').
  apply elem_of_seq in Ht. rewrite Forall_forall in Hinv'.
  specialize (Hinv' j). rewrite Hjs, Nat2Z.id in Hinv'.
  apply reach_tbl. exists t. split; [lia|]. apply Hinv'; [apply elem_of_seq|]; lia.
Qed.

Lemma group_trans a b d : reach T a b → reach T b d → reach T a d.
Proof.
  intros Hab Hbd. pose proof (reach_bound _ _ Hab) as [Ha Hb].
  apply reach_tbl in Hab as (s & Hs & Has). apply reach_tbl in Hbd as (t & Ht & Hbt).
  destruct Hgrp as (_ & _ & Hcomp). rewrite Forall_forall in Hcomp.
  assert (Hs' : s ∈ seq 0 nops) by (apply elem_of_seq; lia).
  assert (Ht' : t ∈ seq 0 nops) by (apply elem_of_seq; lia).
  apply Hcomp in Hs'. rewrite Forall_forall in Hs'.
  apply Hs', Exists_exists in Ht' as (u & Hu & Hcomp').
  apply elem_of_seq in Hu. rewrite Forall_forall in Hcomp'.
  specialize (Hcomp' a). rewrite Has, Nat2Z.id, Hbt in Hcomp'.
  apply reach_tbl. exists u. split; [lia|].
  apply Hcomp'; [apply elem_of_seq|..]; lia.
Qed.
End GroupTable.


Lemma stars_lookup (b : list Z) (m i : nat) star :
  map (λ i : nat, Py.where_ (Z.eqb (Z.of_nat i)) b) (seq 0 m) !! i = Some star →
  (i < m)%nat ∧ star = Py.where_ (Z.eqb (Z.of_nat i)) b.
Proof.
  rewrite list_lookup_fmap. destruct (seq 0 m !! i) as [i'|] eqn:E; [|done].
  apply lookup_seq in E as [-> ?]. simpl. intros [= <-]. done.
Qed.


Lemma make_kpts_ibz_classes (E : Env) (self : KPoints) :
  env_ok E → ready self → group_closed E self →
  ∃ self' T counts,
    make_kpts_ibz E self = Some self' ∧ k2opk self' = Some T ∧
    _nkpts self' = _nkpts self ∧
    length (bz2ibz self') = _nkpts self ∧
    (∀ j j', reach T j j' → bz2ibz self' !! j = bz2ibz self' !! j') ∧
    (∀ j, (j < _nkpts self)%nat →
       ∃ i, bz2ibz self' !! j = Some (Z.of_nat i) ∧ (i < length (ibz2bz self'))%nat) ∧
    (∀ i r, ibz2bz self' !! i = Some r → Py.get (bz2ibz self') r = Some (Z.of_nat i)) ∧
    _nkpts_ibz self' = length (ibz2bz self') ∧
    stars self' =
      stars self ++ map (λ i : nat, Py.where_ (Z.eqb (Z.of_nat i)) (bz2ibz self'))
                        (seq 0 (length (ibz2bz self'))) ∧
    Py.bincount (bz2ibz self') = Some counts ∧
    length counts = length (ibz2bz self') ∧
    weights_ibz self' =
      map (λ m, f64_of_Z m * (1 / f64_of_Z (Z.of_nat (_nkpts self))))%float counts.
Proof.
  intros HE Hready Hgrp.
  destruct (make_kpts_ibz_run E self HE Hready)
    as (c & ks & self' & x & counts & Hc & Hks & Hrun & Hwf & Hoi & Hl & Hrange & Hidx & Hk2 &
        Hbin & Hw & Hnibz & Hstars & Hn & _).
  specialize (Hgrp c ks Hc Hks).
  set (T := map_k_points_fast E ks (op_rot_of E c self) KPTS_DIFF_TOL) in *.
  set (nops := length (op_rot_of E c self)) in *.
  destruct (orbit_index_classes id (λ _, Some tt) T (_nkpts self) (np_empty E 63 (_nkpts self)))
    as (b' & x' & Hoi' & _ & Hb & Hsame & _ & Hrep).
  { apply Hwf. } { by eapply table_wf_rows. } { done. } { apply visit_tt. }
  { apply np_empty_length. }
  { apply (group_refl (_nkpts self) nops T Hwf Hgrp). }
  { apply (group_sym (_nkpts self) nops T Hwf Hgrp). }
  { apply (group_trans (_nkpts self) nops T Hwf Hgrp). }
  rewrite Hoi in Hoi'. injection Hoi' as Hi2b <- <-.
  assert (Hrep' : ∀ i r, ibz2bz self' !! i = Some r →
             Py.get (bz2ibz self') r = Some (Z.of_nat i)).
  { intros i r Hi. rewrite Hi2b, list_lookup_fmap in Hi.
    destruct (List.filter _ _ !! i) as [r'|] eqn:Er; [|done].
    injection Hi as <-. rewrite get_of_nat. by apply Hrep. }
  exists self', T, counts. repeat split; try done.
  (* the histogram has one counter per orbit *)
  destruct (bincount_spec (bz2ibz self') (length (ibz2bz self')))
    as (counts' & Hbin' & Hlen & Hle & _).
  { destruct Hready as (_ & _ & Hpos & _).
    destruct (bz2ibz self'); [simpl in Hl; lia|done]. }
  { apply Forall_forall. intros z Hz. apply list_elem_of_lookup in Hz as [j Hj].
    pose proof (lookup_lt_Some _ _ _ Hj) as Hjn. rewrite Hl in Hjn.
    destruct (Hidx j Hjn) as (i & Hi & Hin). rewrite Hj in Hi. injection Hi as ->. lia. }
  rewrite Hbin in Hbin'. injection Hbin' as <-.
  assert (Hpos : (0 < length (ibz2bz self'))%nat).
  { destruct Hready as (_ & _ & Hpos & _). destruct (Hidx O Hpos) as (i & _ & ?). lia. }
  rewrite Hlen. rewrite (maximum_elem _ (Z.of_nat (length (ibz2bz self') - 1))); [lia|..].
  - destruct (lookup_lt_is_Some_2 (ibz2bz self') (length (ibz2bz self') - 1)) as [r Hr]; [lia|].
    pose proof (Hrep' _ _ Hr) as Hg.
    pose proof (Forall_lookup_1 _ _ _ _ Hrange Hr) as Hrr. simpl in Hrr.
    rewrite <- (Z2Nat.id r) in Hg by lia. rewrite get_of_nat in Hg.
    by eapply list_elem_of_lookup_2.
  - intros z Hz. apply list_elem_of_lookup in Hz as [j Hj].
    pose proof (lookup_lt_Some _ _ _ Hj) as Hjn. rewrite Hl in Hjn.
    destruct (Hidx j Hjn) as (i & Hi & Hin). rewrite Hj in Hi. injection Hi as ->. lia.
Qed.

(** C2, as the code has it: after [make_kpts_ibz] on an object whose
    [stars] list is still empty and a mapping table that is that of a group,
    [weights_ibz[i]] is the binary64 product of the number of members of
    [stars[i]] and [1.0 / nkpts], and these numbers of members add up to
    [nkpts]. *)
Theorem weights_ibz_of_orbit_sizes (E : Env) (self : KPoints) :
  env_ok E → ready self → stars self = [] → group_closed E self →
  ∃ self', make_kpts_ibz E self = Some self' ∧
    length (weights_ibz self') = _nkpts_ibz self' ∧
    length (stars self') = _nkpts_ibz self' ∧
    Zsum (map (λ star : list Z, Z.of_nat (length star)) (stars self'))
      = Z.of_nat (_nkpts self') ∧
    ∀ i w star, weights_ibz self' !! i = Some w → stars self' !! i = Some star →
      w = (f64_of_Z (Z.of_nat (length star))
           * (1 / f64_of_Z (Z.of_nat (_nkpts self'))))%float.
Proof.
  intros HE Hready Hfresh Hgrp.
  destruct (make_kpts_ibz_classes E self HE Hready Hgrp)
    as (self' & T & counts & Hrun & _ & Hn & Hl & _ & Hidx & _ & Hnibz & Hstars & Hbin &
        Hlc & Hw).
  rewrite Hfresh in Hstars. simpl in Hstars.
  assert (Hrange : Forall (λ x, 0 ≤ x < Z.of_nat (length (ibz2bz self'))) (bz2ibz self')).
  { apply Forall_forall. intros z Hz. apply list_elem_of_lookup in Hz as [j Hj].
    pose proof (lookup_lt_Some _ _ _ Hj) as Hjn. rewrite Hl in Hjn.
    destruct (Hidx j Hjn) as (i & Hi & Hin). rewrite Hj in Hi. injection Hi as ->. lia. }
  destruct (bincount_spec (bz2ibz self') (length (ibz2bz self')))
    as (counts' & Hbin' & _ & _ & Hcnt & Hsum); [|done|].
  { destruct Hready as (_ & _ & Hpos & _).
    destruct (bz2ibz self'); [simpl in Hl; lia|done]. }
  rewrite Hbin in Hbin'. injection Hbin' as <-.
  exists self'. split; [done|]. rewrite Hw, Hstars, Hnibz, Hn.
  split; [by rewrite length_map|]. split; [by rewrite length_map, length_seq|]. split.
  - rewrite map_map.
    rewrite (map_ext _ (λ i : nat, Py.count (Z.of_nat i) (bz2ibz self')))
      by (intros i; apply where_length).
    rewrite (Zsum_counts _ _ Hrange). by rewrite Hl.
  - intros i w star Hi Hs. apply stars_lookup in Hs as [_ ->].
    rewrite list_lookup_fmap in Hi.
    destruct (counts !! i) as [m|] eqn:Em; [|done].
    injection Hi as <-. by rewrite where_length, (Hcnt _ _ Em).
Qed.

(** C3: when the mapping table is that of a group, every defined image
    [k2opk[k, s]] lies in the orbit of [k]:
    [bz2ibz[k2opk[k, s]] = bz2ibz[k]]. *)
Theorem orbit_closure (E : Env) (self : KPoints) :
  env_ok E → ready self → group_closed E self →
  ∃ self' T, make_kpts_ibz E self = Some self' ∧ k2opk self' = Some T ∧
    ∀ (k s : nat) (k' : Z),
      (row ← T !! k; row !! s) = Some k' → k' ≠ -1 →
      is_Some (Py.get (bz2ibz self') k') ∧
      Py.get (bz2ibz self') k' = Py.get (bz2ibz self') (Z.of_nat k).
Proof.
  intros HE Hready Hgrp.
  destruct (make_kpts_ibz_classes E self HE Hready Hgrp)
    as (self' & T & counts & Hrun & Hk2 & Hn & Hl & Hsame & Hidx & _).
  destruct (make_kpts_ibz_run E self HE Hready)
    as (c & ks & self2 & x & counts2 & Hc & Hks & Hrun2 & Hwf & _ & _ & _ & _ & Hk2' & _).
  rewrite Hrun in Hrun2. injection Hrun2 as <-. rewrite Hk2 in Hk2'. injection Hk2' as ->.
  exists self', (map_k_points_fast E ks (op_rot_of E c self) KPTS_DIFF_TOL).
  split; [done|]. split; [done|].
  intros k s k' Hks' Hne.
  destruct (_ !! k) as [row|] eqn:Erow; simpl in Hks'; [|done].
  assert (Hr : -1 ≤ k' < Z.of_nat (_nkpts self)).
  { destruct Hwf as [_ H]. pose proof (Forall_lookup_1 _ _ _ _ H Erow) as [_ Hr].
    by pose proof (Forall_lookup_1 _ _ _ _ Hr Hks'). }
  assert (Hreach : reach (map_k_points_fast E ks (op_rot_of E c self) KPTS_DIFF_TOL)
                         k (Z.to_nat k')).
  { exists row. split; [done|]. rewrite Z2Nat.id by lia. by eapply list_elem_of_lookup_2. }
  rewrite <- (Z2Nat.id k') by lia. rewrite !get_of_nat.
  rewrite <- (Hsame _ _ Hreach). split; [|done].
  apply lookup_lt_is_Some_2. apply lookup_lt_Some in Erow.
  destruct Hwf as [Hlen _]. lia.
Qed.

(** C6: [transform_mo_coeff_k] returns the representative's coefficients
    as they are when the connecting operation is the identity and the
    time-reversal flag of [k] is off, their conjugate when it is the identity
    and the flag is on, and their conjugate, whatever the flag, when it is
    the inversion. *)
Theorem transform_mo_coeff_k_cases (E : Env) (self : KPoints) (mo_coeff_ibz : list cmat)
    (k ibz_k_idx iop time_reversal_k : Z) (ks_ibz : list vec) (ibz_k : vec) (op : Op)
    (mo_ibz : cmat) :
  Py.get (bz2ibz self) k = Some ibz_k_idx →
  kpts_scaled_ibz self = Some ks_ibz →
  Py.get ks_ibz ibz_k_idx = Some ibz_k →
  Py.get (stars_ops_bz self) k = Some iop →
  Py.get (ops (sym self)) iop = Some op →
  Py.get (time_reversal_symm_bz self) k = Some time_reversal_k →
  Py.get mo_coeff_ibz ibz_k_idx = Some mo_ibz →
  (is_eye op = true → time_reversal_k = 0 →
     transform_mo_coeff_k E self mo_coeff_ibz k = Some mo_ibz) ∧
  (is_eye op = true → time_reversal_k ≠ 0 →
     transform_mo_coeff_k E self mo_coeff_ibz k = Some (conj mo_ibz)) ∧
  (is_eye op = false → is_inversion op = true →
     transform_mo_coeff_k E self mo_coeff_ibz k = Some (conj mo_ibz)).
Proof.
  intros H1 H2 H3 H4 H5 H6 H7. unfold transform_mo_coeff_k.
  rewrite H1. simpl. rewrite H2. simpl. rewrite H3. simpl. rewrite H4. simpl.
  rewrite H5. simpl. rewrite H6. simpl. rewrite H7. simpl.
  split; [|split].
  - intros -> ->. done.
  - intros -> Hne. destruct (Z.eqb_spec time_reversal_k 0); done.
  - intros -> ->. done.
Qed.

Lemma make_kpts_ibz_frame (E : Env) (self self' : KPoints) :
  make_kpts_ibz E self = Some self' →
  sym self' = sym self ∧ time_reversal self' = time_reversal self ∧
  kpts_scaled self' = kpts_scaled self ∧
  ∃ c ks, cell (sym self) = Some c ∧ kpts_scaled self = Some ks ∧
          k2opk self' = Some (map_k_points_fast E ks (op_rot_of E c self) KPTS_DIFF_TOL).
Proof.
  unfold make_kpts_ibz. intros H.
  destruct (cell (sym self)) as [c|]; simpl in H; [|done].
  destruct (kpts_scaled self) as [ks|] eqn:Eks; simpl in H; [|done].
  destruct (orbit_index _ _ _ _ _) as [[[i2b b2i] x]|]; simpl in H; [|done].
  destruct (Py.bincount _); simpl in H; [|done].
  destruct (_ =? _)%nat; [done|].
  destruct (Py.take _ _); simpl in H; [|done].
  destruct (connect_bz _ _ _ _ _ _ _ _) as [[trs sops]|]; simpl in H; [|done].
  destruct (build_stars _ _ _ _ _ _ _ _) as [[st so]|]; simpl in H; [|done].
  injection H as <-. simpl. split; [done|]. split; [done|]. split; [done|].
  by exists c, ks.
Qed.

Lemma permutation_step_frame (h h' : heap) (self self' : KPoints) :
  permutation_step h self = Some (h', self') →
  sym self' = sym self ∧ time_reversal self' = time_reversal self ∧
  k2opk self' = k2opk self ∧ kpts_scaled self' = kpts_scaled self ∧
  ibz2bz_kk (kk self') = ibz2bz_kk (kk self) ∧
  bz2ibz_kk (kk self') = bz2ibz_kk (kk self) ∧
  ibz_kk_weight (kk self') = ibz_kk_weight (kk self) ∧
  ibz_kk_s2_weight (kk self') = Some (length h).
Proof.
  unfold permutation_step. intros H.
  destruct (ibz2bz_kk (kk self)) as [i2b|] eqn:E1; simpl in H; [|done].
  destruct (Py.take i2b _); simpl in H; [|done].
  destruct (ibz_kk_weight (kk self)) as [lw|]; simpl in H; [|done].
  destruct (h_get h lw); simpl in H; [|done].
  destruct (Py.take _ _); simpl in H; [|done].
  destruct (h_get _ _); simpl in H; [|done].
  destruct (Py.take _ _); simpl in H; [|done].
  destruct (Py.put_each _ _ _); simpl in H; [|done].
  destruct (h_set _ _ _); simpl in H; [|done].
  destruct (h_get _ _); simpl in H; [|done].
  destruct (halve_absent _ _ _ _ _); simpl in H; [|done].
  injection H as <- <-. simpl. rewrite ?E1.
  repeat split; try done.
Qed.

Lemma make_kpairs_ibz_frame (E : Env) (h h' : heap) (self self' : KPoints) (p : bool) :
  make_kpairs_ibz E h self p = Some (h', self') →
  sym self' = sym self ∧ time_reversal self' = time_reversal self ∧
  k2opk self' = k2opk self ∧ kpts_scaled self' = kpts_scaled self.
Proof.
  unfold make_kpairs_ibz. intros H.
  destruct (k2opk self) as [T|] eqn:E1; simpl in H; [|done].
  destruct (pair_table _ _ _); simpl in H; [|done].
  destruct (orbit_index _ _ _ _ _) as [[[i2b b2i] x]|]; simpl in H; [|done].
  destruct (Py.bincount _); simpl in H; [|done].
  destruct (_ =? _)%nat; [done|].
  destruct p.
  - apply permutation_step_frame in H as (-> & -> & -> & -> & _). simpl. by rewrite ?E1.
  - injection H as <- <-. simpl. by rewrite ?E1.
Qed.

(** C9: after a [build] that went through, [time_reversal] holds exactly
    when time reversal was asked for and the group has no inversion; with
    an inversion the rotations handed to the matcher are not doubled. *)
Theorem build_time_reversal (E : Env) (h h' : heap) (self self' : KPoints)
    (space_group_symmetry time_reversal_symmetry symmorphic make_kpairs : bool) :
  build E h self space_group_symmetry time_reversal_symmetry symmorphic make_kpairs
    = Some (h', self', true) →
  sym self' = Symmetry_build E (sym self) space_group_symmetry symmorphic ∧
  time_reversal self' = time_reversal_symmetry && negb (has_inversion (sym self')) ∧
  (time_reversal self' = true ↔
     time_reversal_symmetry = true ∧ has_inversion (sym self') = false) ∧
  ∃ c ks, cell (sym self') = Some c ∧ _built c = true ∧
          kpts_scaled self' = Some ks ∧
          k2opk self' = Some (map_k_points_fast E ks (op_rot_of E c self') KPTS_DIFF_TOL) ∧
          (has_inversion (sym self') = true →
             op_rot_of E c self' = map (a2b_rot E c) (ops (sym self'))).
Proof.
  unfold build. intros H.
  set (s := Symmetry_build E (sym self) space_group_symmetry symmorphic) in *.
  destruct (cell s) as [c|] eqn:Ec; [|done].
  destruct (_built c) eqn:Eb; simpl in H; [|done].
  match type of H with context [make_kpts_ibz E ?x] => set (self1 := x) in * end.
  destruct (make_kpts_ibz E self1) as [self2|] eqn:E2; simpl in H; [|done].
  pose proof E2 as Hrun.
  apply make_kpts_ibz_frame in E2 as (Hs & Ht & Hsc & c' & ks & Hc' & Hks & Hk).
  simpl in Hs, Ht, Hc'. rewrite Ec in Hc'. injection Hc' as <-.
  assert (Hfin : sym self' = s ∧
                 time_reversal self' = time_reversal_symmetry && negb (has_inversion s) ∧
                 k2opk self' = k2opk self2 ∧ kpts_scaled self' = kpts_scaled self2).
  { destruct make_kpairs.
    - destruct (make_kpairs_ibz E h self2 true) as [[h3 self3]|] eqn:E3; simpl in H; [|done].
      injection H as <- <-.
      apply make_kpairs_ibz_frame in E3 as (-> & -> & -> & ->). done.
    - injection H as <- <-. done. }
  destruct Hfin as (Hs' & Ht' & Hk' & Hks').
  split; [done|]. rewrite Hs'. split; [done|]. split.
  { rewrite Ht'. destruct time_reversal_symmetry, (has_inversion s); simpl; intuition congruence. }
  exists c, ks. split; [done|]. split; [done|]. split; [by rewrite Hks', Hsc|].
  assert (Hop : op_rot_of E c self' = op_rot_of E c self1).
  { unfold op_rot_of. rewrite Hs', Ht'. done. }
  split; [by rewrite Hk', Hk, Hop|].
  intros Hinv. unfold op_rot_of. rewrite Ht', Hs', Hinv, andb_false_r. done.
Qed.

Lemma occ_close_rect (tol : f64) (a b : fvec) :
  length a = length b →
  occ_close tol a b
  = Some (forallb (λ x, PrimFloat.ltb (PrimFloat.abs x) tol) (zip_with PrimFloat.sub a b)).
Proof.
  intros Hl. unfold occ_close, np_sub. rewrite Hl, Nat.eqb_refl. done.
Qed.

Lemma occ_close_false (tol : f64) (a : fvec) : ∀ b : fvec,
  forallb (λ x, PrimFloat.ltb (PrimFloat.abs x) tol) (zip_with PrimFloat.sub a b) = false
  ↔ differ tol a b.
Proof.
  induction a as [|x a IH]; intros b.
  - simpl. split; [done|]. intros (e & ? & ? & He & _). by destruct e.
  - destruct b as [|y b].
    + simpl. split; [done|]. intros (e & ? & ? & _ & He & _). by destruct e.
    + simpl. rewrite andb_false_iff, IH. split.
      * intros [H|(e & x' & y' & ? & ? & ?)].
        -- by exists O, x, y.
        -- by exists (S e), x', y'.
      * intros (e & x' & y' & Ha & Hb & H). destruct e as [|e].
        -- simpl in Ha, Hb. injection Ha as <-. injection Hb as <-. by left.
        -- right. by exists e, x', y'.
Qed.


Section CheckFacts.
Variable mo_occ : list fvec.
Variable tol : f64.

Lemma star_get (star : list Z) (i : nat) :
  in_mesh mo_occ star → (i < length star)%nat →
  ∃ ki a, star !! i = Some ki ∧ Py.get mo_occ ki = Some a.
Proof.
  intros Hs Hi. destruct (lookup_lt_is_Some_2 star i Hi) as [ki Hki].
  pose proof (Forall_lookup_1 _ _ _ _ Hs Hki) as Hr. simpl in Hr.
  destruct (lookup_lt_is_Some_2 mo_occ (Z.to_nat ki)) as [a Ha]; [lia|].
  exists ki, a. split; [done|]. rewrite <- (Z2Nat.id ki) by lia. by rewrite get_of_nat.
Qed.

Lemma check_row_spec (star : list Z) (i : nat) : ∀ js,
  star_rect mo_occ star →
  in_mesh mo_occ star → (i < length star)%nat → Forall (λ j, j < length star)%nat js →
  (check_row mo_occ tol star i js = Ok tt ∧
     ∀ j, j ∈ js → ¬ broken_pair mo_occ tol star i j) ∨
  (check_row mo_occ tol star i js = SymmetryBroken ∧
     ∃ j, j ∈ js ∧ broken_pair mo_occ tol star i j).
Proof.
  intros js Hrect Hs Hi. induction js as [|j js IH]; intros Hjs.
  - left. split; [done|]. intros j Hj. by apply elem_of_nil in Hj.
  - apply Forall_cons in Hjs as [Hj Hjs]. cbn [check_row].
    destruct (star_get star i Hs Hi) as (ki & a & Hki & Ha).
    destruct (star_get star j Hs Hj) as (kj & b & Hkj & Hb).
    rewrite !get_of_nat, Hki, Hkj. simpl. rewrite Ha, Hb. simpl.
    assert (Hab : length a = length b).
    { by apply (Hrect ki kj); [eapply list_elem_of_lookup_2|eapply list_elem_of_lookup_2| |]. }
    rewrite (occ_close_rect tol a b Hab). simpl.
    destruct (forallb _ (zip_with PrimFloat.sub a b)) eqn:Ec; simpl.
    + destruct (IH Hjs) as [[Hok Hall]|[Hbr (j' & Hj' & Hbad)]].
      * left. split; [done|]. intros j' [->|Hj']%elem_of_cons; [|by apply Hall].
        intros (ki' & kj' & a' & b' & H1 & H2 & H3 & H4 & Hd).
        rewrite Hki in H1. injection H1 as <-. rewrite Hkj in H2. injection H2 as <-.
        rewrite Ha in H3. injection H3 as <-. rewrite Hb in H4. injection H4 as <-.
        apply occ_close_false in Hd. congruence.
      * right. split; [done|]. exists j'. split; [by right|done].
    + right. split; [done|]. exists j. split; [left|].
      exists ki, kj, a, b. repeat split; try done. by apply occ_close_false.
Qed.

Lemma check_star_spec (star : list Z) : ∀ rng,
  star_rect mo_occ star →
  in_mesh mo_occ star → Forall (λ i, i < length star)%nat rng →
  (check_star mo_occ tol star rng = Ok tt ∧
     ∀ i j, i ∈ rng → (i < j)%nat → ¬ broken_pair mo_occ tol star i j) ∨
  (check_star mo_occ tol star rng = SymmetryBroken ∧
     ∃ i j, (i < j)%nat ∧ broken_pair mo_occ tol star i j).
Proof.
  intros rng Hrect Hs. induction rng as [|i rng IH]; intros Hrng.
  - left. split; [done|]. intros i j Hi. by apply elem_of_nil in Hi.
  - apply Forall_cons in Hrng as [Hi Hrng]. cbn [check_star].
    destruct (check_row_spec star i (seq (S i) (length star - S i)) Hrect Hs Hi)
      as [[-> Hall]|[-> (j & Hj & Hbad)]].
    { apply Forall_forall. intros j Hj. apply elem_of_seq in Hj. lia. }
    + simpl. destruct (IH Hrng) as [[Hok Hall']|[Hbr Hex]].
      * left. split; [done|]. intros i' j [->|Hi']%elem_of_cons Hlt; [|by apply Hall'].
        destruct (decide (j < length star)%nat) as [Hjl|Hjl].
        -- apply Hall. apply elem_of_seq. lia.
        -- intros (? & kj & ? & ? & _ & Hkj & _). apply lookup_lt_Some in Hkj. lia.
      * by right.
    + simpl. right. split; [done|]. exists i, j. split; [|done].
      apply elem_of_seq in Hj. lia.
Qed.

Lemma check_stars_spec : ∀ sts,
  Forall (star_rect mo_occ) sts →
  Forall (in_mesh mo_occ) sts →
  (check_stars mo_occ tol sts = Ok tt ∧
     ∀ star i j, star ∈ sts → (i < j)%nat → ¬ broken_pair mo_occ tol star i j) ∨
  (check_stars mo_occ tol sts = SymmetryBroken ∧
     ∃ star i j, star ∈ sts ∧ (i < j)%nat ∧ broken_pair mo_occ tol star i j).
Proof.
  induction sts as [|star sts IH]; intros Hrects Hsts.
  - left. split; [done|]. intros star i j Hs. by apply elem_of_nil in Hs.
  - apply Forall_cons in Hsts as [Hs Hsts]. apply Forall_cons in Hrects as [Hrect Hrects].
    cbn [check_stars].
    destruct (check_star_spec star (seq 0 (length star)) Hrect Hs)
      as [[-> Hall]|[-> (i & j & Hlt & Hbad)]].
    { apply Forall_forall. intros i Hi. apply elem_of_seq in Hi. lia. }
    + simpl. destruct (IH Hrects Hsts) as [[Hok Hall']|[Hbr (s & i & j & Hin & Hlt & Hbad)]].
      * left. split; [done|]. intros s i j [->|Hin]%elem_of_cons Hlt; [|by apply Hall'].
        destruct (decide (i < length star)%nat) as [Hil|Hil].
        -- apply Hall; [|done]. apply elem_of_seq. lia.
        -- intros (ki & ? & ? & ? & Hki & _). apply lookup_lt_Some in Hki. lia.
      * right. split; [done|]. exists s, i, j. split; [by right|done].
    + simpl. right. split; [done|]. exists star, i, j. split; [left|done].
Qed.
End CheckFacts.


Lemma mem_where {A} (f : A → bool) (l : list A) (j : nat) (x : A) :
  l !! j = Some x → Py.mem (Z.of_nat j) (Py.where_ f l) = f x.
Proof.
  intros Hj. unfold Py.mem. destruct (f x) eqn:Ef.
  - apply existsb_exists. exists (Z.of_nat j). split; [|apply Z.eqb_refl].
    apply list_elem_of_In, where_elem. by exists j, x.
  - apply not_true_is_false. intros (z & Hz & He)%existsb_exists.
    apply Z.eqb_eq in He. subst z.
    apply list_elem_of_In, where_elem in Hz as (k & y & Hk & Hy & Hf).
    apply Nat2Z.inj in Hk. subst k. congruence.
Qed.

Lemma diag_spec (l : list vec) :
  mapM (λ i : nat, ki ← Py.get l (Z.of_nat i); Some (ki, ki)) (seq 0 (length l))
  = Some (map (λ k, (k, k)) l).
Proof.
  apply mapM_Some_2, Forall2_same_length_lookup_2.
  - by rewrite length_seq, length_map.
  - intros i j p Hj Hp. apply lookup_seq in Hj as [-> Hi]. simpl.
    rewrite get_of_nat. rewrite list_lookup_fmap in Hp.
    destruct (l !! i); simpl in *; [|done]. by injection Hp as <-.
Qed.

Section GdfFacts.
Variable kpts_ : list vec.

Lemma gdf_inner_spec (ki : vec) : ∀ l pre acc,
  kpts_ = pre ++ l →
  gdf_inner kpts_ ki (member ki kpts_) (seq (length pre) (length l)) acc
  = Some (acc ++ map (λ kj, (ki, kj)) (List.filter (λ kj, negb (kpt_close kj ki)) l)).
Proof.
  induction l as [|kj l IH]; intros pre acc Hk.
  - simpl. by rewrite app_nil_r.
  - cbn [length seq gdf_inner]. rewrite get_of_nat.
    assert (Hj : kpts_ !! length pre = Some kj).
    { rewrite Hk. by rewrite lookup_app_r, Nat.sub_diag by lia. }
    rewrite Hj. simpl. unfold member at 1. rewrite (mem_where _ _ _ _ Hj).
    fold (kpt_close kj ki). fold (member ki kpts_).
    specialize (IH (pre ++ [kj])). rewrite length_app in IH. simpl in IH.
    rewrite Nat.add_1_r in IH.
    destruct (kpt_close kj ki); simpl.
    + apply IH. by rewrite <- app_assoc.
    + rewrite IH by (by rewrite <- app_assoc). by rewrite <- app_assoc.
Qed.

Lemma gdf_outer_spec (nkpts : nat) : ∀ l pre acc,
  length kpts_ = nkpts →
  gdf_outer kpts_ (pre ++ l) nkpts (seq (length pre) (length l)) acc
  = Some (acc ++ flat_map (λ ki, map (λ kj, (ki, kj))
                                     (List.filter (λ kj, negb (kpt_close kj ki)) kpts_)) l).
Proof.
  induction l as [|ki l IH]; intros pre acc Hn.
  - simpl. by rewrite app_nil_r.
  - cbn [length seq gdf_outer flat_map]. rewrite get_of_nat.
    rewrite lookup_app_r, Nat.sub_diag by lia. simpl.
    rewrite <- Hn.
    pose proof (gdf_inner_spec ki kpts_ [] acc eq_refl) as Hin.
    change (length (@nil vec)) with O in Hin. rewrite Hin. simpl.
    specialize (IH (pre ++ [ki])). rewrite length_app in IH. simpl in IH.
    rewrite Nat.add_1_r, <- app_assoc in IH. simpl in IH.
    rewrite Hn, IH by done. by rewrite <- app_assoc.
Qed.
End GdfFacts.

(** C8, as the code has it: [make_gdf_kptij_lst_jk] returns the pairs
    [(kpts[i], kpts[i])] followed, for every representative [i], by the pairs
    [(kpts_ibz[i], kpts[j])] for the [j] whose [kpts[j]] is not the
    representative itself. *)
Theorem make_gdf_kptij_lst_jk_spec (self : KPoints) :
  length (kpts self) = _nkpts self →
  length (kpts_ibz self) = _nkpts_ibz self →
  make_gdf_kptij_lst_jk self = Some (gdf_pairs self).
Proof.
  intros Hn Hi. unfold make_gdf_kptij_lst_jk, gdf_pairs.
  rewrite <- Hn at 1. rewrite diag_spec. simpl.
  rewrite <- Hi.
  apply (gdf_outer_spec (kpts self) (_nkpts self) (kpts_ibz self) [] _ Hn).
Qed.

(** C8 as worded fails: on the mesh of two points exchanged by the
    inversion the other member of the orbit is paired with the
    representative. *)
Lemma gdf_orbit_members_counterexample :
  ∃ h self, Example.built Example.mesh2 true false = Some (h, self, true) ∧
            make_gdf_kptij_lst_jk self ≠ Some (gdf_pairs_claimed self).
Proof.
  eexists _, _. split.
  - vm_compute. reflexivity.
  - vm_compute. intros [=].
Qed.

(** * The table of the pairs *)

Lemma column_spec n nops T io :
  table_wf n nops T → (io < nops)%nat →
  column T io = Some (map (λ k, tbl T k io) (seq 0 n)).
Proof.
  intros [Hlen Hrows] Hio. unfold column. apply mapM_Some_2.
  apply Forall2_same_length_lookup_2.
  - by rewrite length_map, length_seq.
  - intros k row e Hrow He. rewrite list_lookup_fmap in He.
    destruct (seq 0 n !! k) as [k'|] eqn:Ek; [|done].
    apply lookup_seq in Ek as [-> _]. simpl in He. injection He as <-.
    rewrite get_of_nat. unfold tbl. rewrite Hrow. simpl.
    pose proof (Forall_lookup_1 _ _ _ _ Hrows Hrow) as [Hl _].
    destruct (lookup_lt_is_Some_2 row io) as [e ->]; [lia|]. done.
Qed.

Lemma flat_map_lookup {A B} (g : A → A → B) (b : list A) : ∀ (a : list A) (i j : nat) x y,
  a !! i = Some x → b !! j = Some y →
  flat_map (λ x, map (g x) b) a !! (i * length b + j)%nat = Some (g x y).
Proof.
  induction a as [|x0 a IH]; intros i j x y Hi Hj; [done|].
  simpl. destruct i as [|i].
  - simpl in Hi. injection Hi as ->. simpl.
    rewrite lookup_app_l by (rewrite length_map; by eapply lookup_lt_Some).
    by rewrite list_lookup_fmap, Hj.
  - simpl in Hi. rewrite lookup_app_r by (rewrite length_map; lia).
    rewrite length_map. replace (S i * length b + j - length b)%nat
      with (i * length b + j)%nat by lia.
    by apply IH.
Qed.

Lemma flat_map_length {A B} (g : A → A → B) (b a : list A) :
  length (flat_map (λ x, map (g x) b) a) = (length a * length b)%nat.
Proof. induction a as [|x a IH]; simpl; [done|]. by rewrite length_app, length_map, IH. Qed.

Lemma pair_column_spec (n : nat) (col : list Z) :
  length col = n →
  length (pair_column (Z.of_nat n) col) = (n * n)%nat ∧
  ∀ i j a b, col !! i = Some a → col !! j = Some b →
    pair_column (Z.of_nat n) col !! (i * n + j)%nat = Some (pair_image (Z.of_nat n) a b).
Proof.
  intros Hl. unfold pair_column, cartesian_prod. split.
  - by rewrite length_map, flat_map_length, Hl.
  - intros i j a b Hi Hj. rewrite list_lookup_fmap.
    rewrite <- Hl at 1.
    by rewrite (flat_map_lookup (λ x y, (x, y)) col col i j a b Hi Hj).
Qed.

Section PairTable.
Variable n nops : nat.
Variable T : list (list Z).
Hypothesis Hwf : table_wf n nops T.
Hypothesis Hpos : (0 < n)%nat.

Lemma ncols_spec : match T with [] => O | r :: _ => length r end = nops.
Proof.
  destruct Hwf as [Hl Hr]. destruct T as [|r T']; [simpl in Hl; lia|].
  by apply Forall_cons in Hr as [[? _] _].
Qed.

Lemma pair_table_spec :
  ∃ PT, pair_table n nops T = Some PT ∧
    length PT = (n * n)%nat ∧
    (∀ row, row ∈ PT → length row = nops) ∧
    ∀ i j s, (i < n)%nat → (j < n)%nat → (s < nops)%nat →
      tbl PT (i * n + j) s = pair_image (Z.of_nat n) (tbl T i s) (tbl T j s).
Proof.
  unfold pair_table.
  set (cols := map (λ iop, pair_column (Z.of_nat n) (map (λ k, tbl T k iop) (seq 0 n)))
                   (seq 0 nops)).
  assert (Hcols : mapM (λ iop, col ← column T iop;
                    let pc := pair_column (Z.of_nat n) col in
                    if (length pc =? n * n)%nat then Some pc else None) (seq 0 nops)
                  = Some cols).
  { apply mapM_Some_2, Forall2_same_length_lookup_2.
    - subst cols. by rewrite length_map.
    - intros s iop pc Hs Hpc. apply lookup_seq in Hs as [-> Hs].
      change (0 + s)%nat with s in *.
      subst cols. rewrite list_lookup_fmap in Hpc.
      rewrite (proj2 (lookup_seq 0 nops s s)) in Hpc by done. simpl in Hpc.
      injection Hpc as <-. rewrite (column_spec n nops T s Hwf Hs). simpl.
      destruct (pair_column_spec n (map (λ k, tbl T k s) (seq 0 n))) as [-> _].
      { by rewrite length_map, length_seq. }
      by rewrite Nat.eqb_refl. }
  exists (map (λ k, map (λ pc : list Z, nth k pc 0) cols) (seq 0 (n * n))).
  split; [cbv zeta in Hcols; by rewrite Hcols|].
  split; [by rewrite length_map, length_seq|]. split.
  - intros row (k & -> & _)%list_elem_of_fmap. subst cols.
    by rewrite !length_map, length_seq.
  - intros i j s Hi Hj Hs. unfold tbl at 1.
    rewrite list_lookup_fmap.
    rewrite (proj2 (lookup_seq 0 (n * n) (i * n + j) (i * n + j)%nat)) by (split; [done|nia]).
    simpl. rewrite list_lookup_fmap. subst cols. rewrite list_lookup_fmap.
    rewrite (proj2 (lookup_seq 0 nops s s)) by done. simpl.
    destruct (pair_column_spec n (map (λ k, tbl T k s) (seq 0 n))) as [_ Hpc].
    { by rewrite length_map, length_seq. }
    erewrite (nth_lookup_Some _ _ _ _ (Hpc i j _ _ _ _)). done.
    Unshelve.
    + rewrite list_lookup_fmap. by rewrite (proj2 (lookup_seq 0 n i i)).
    + rewrite list_lookup_fmap. by rewrite (proj2 (lookup_seq 0 n j j)).
Qed.
End PairTable.

Lemma divmod_pair (n i j : nat) :
  (j < n)%nat → ((i * n + j) / n = i ∧ (i * n + j) mod n = j)%nat.
Proof.
  intros Hj. split.
  - rewrite Nat.div_add_l by lia. rewrite Nat.div_small by lia. lia.
  - rewrite Nat.add_comm, Nat.Div0.mod_add. by apply Nat.mod_small.
Qed.

Lemma pair_split (n k : nat) :
  (0 < n)%nat → (k < n * n)%nat →
  (k / n < n ∧ k mod n < n ∧ k = k / n * n + k mod n)%nat.
Proof.
  intros Hn Hk. split; [|split].
  - apply Nat.Div0.div_lt_upper_bound. lia.
  - apply Nat.mod_upper_bound. lia.
  - pose proof (Nat.div_mod_eq k n). lia.
Qed.

Lemma swap_pair_lt (n k : nat) : (0 < n)%nat → (k < n * n)%nat → (swap_pair n k < n * n)%nat.
Proof.
  intros Hn Hk. destruct (pair_split n k Hn Hk) as (Hi & Hj & _). unfold swap_pair. nia.
Qed.

Lemma swap_pair_invol (n k : nat) :
  (0 < n)%nat → (k < n * n)%nat → swap_pair n (swap_pair n k) = k.
Proof.
  intros Hn Hk. destruct (pair_split n k Hn Hk) as (Hi & Hj & Hk').
  unfold swap_pair.
  destruct (divmod_pair n (k mod n) (k / n) Hi) as [-> ->]. lia.
Qed.

Section PairGroup.
Variable n nops : nat.
Variable T PT : list (list Z).
Hypothesis Hwf : table_wf n nops T.
Hypothesis Hpos : (0 < n)%nat.
Hypothesis HPT : pair_table n nops T = Some PT.

Lemma PT_facts :
  length PT = (n * n)%nat ∧
  (∀ row, row ∈ PT → length row = nops) ∧
  ∀ i j s, (i < n)%nat → (j < n)%nat → (s < nops)%nat →
    tbl PT (i * n + j) s = pair_image (Z.of_nat n) (tbl T i s) (tbl T j s).
Proof.
  destruct (pair_table_spec n nops T Hwf Hpos) as (PT' & HPT' & H).
  rewrite HPT in HPT'. by injection HPT' as <-.
Qed.

Lemma tbl_pair k s :
  (k < n * n)%nat → (s < nops)%nat →
  tbl PT k s = pair_image (Z.of_nat n) (tbl T (k / n) s) (tbl T (k mod n) s).
Proof.
  intros Hk Hs. destruct (pair_split n k Hpos Hk) as (Hi & Hj & Hk').
  destruct PT_facts as (_ & _ & H). rewrite Hk' at 1. by apply H.
Qed.

Lemma pair_image_range a b :
  -1 ≤ a < Z.of_nat n → -1 ≤ b < Z.of_nat n →
  -1 ≤ pair_image (Z.of_nat n) a b < Z.of_nat (n * n).
Proof.
  intros Ha Hb. unfold pair_image.
  destruct (Z.eqb_spec a (-1)), (Z.eqb_spec b (-1)); simpl; try lia. nia.
Qed.

Lemma pair_image_inv a b k' :
  -1 ≤ a < Z.of_nat n → -1 ≤ b < Z.of_nat n →
  pair_image (Z.of_nat n) a b = Z.of_nat k' →
  a = Z.of_nat (k' / n) ∧ b = Z.of_nat (k' mod n).
Proof.
  intros Ha Hb. unfold pair_image.
  destruct (Z.eqb_spec a (-1)), (Z.eqb_spec b (-1)); simpl; try lia.
  intros Hk. assert (k' = (Z.to_nat a * n + Z.to_nat b)%nat) as -> by nia.
  destruct (divmod_pair n (Z.to_nat a) (Z.to_nat b)) as [-> ->]; lia.
Qed.

Lemma PT_wf : table_wf (n * n) nops PT.
Proof.
  destruct PT_facts as (Hl & Hrows & _). split; [done|].
  apply Forall_forall. intros row Hrow. split; [by apply Hrows|].
  apply Forall_forall. intros e He.
  apply list_elem_of_lookup in Hrow as [k Hk]. apply list_elem_of_lookup in He as [s Hs].
  pose proof (lookup_lt_Some _ _ _ Hk) as Hkn. rewrite Hl in Hkn.
  pose proof (lookup_lt_Some _ _ _ Hs) as Hsn.
  rewrite (Hrows row) in Hsn by (by eapply list_elem_of_lookup_2).
  assert (He : tbl PT k s = e) by (unfold tbl; by rewrite Hk; simpl; rewrite Hs).
  rewrite <- He, tbl_pair by done.
  apply pair_image_range; by apply (tbl_range n nops T Hwf).
Qed.

Lemma reach_pair k k' :
  reach PT k k' ↔
  (k < n * n)%nat ∧
  ∃ s, (s < nops)%nat ∧ tbl T (k / n) s = Z.of_nat (k' / n) ∧
       tbl T (k mod n) s = Z.of_nat (k' mod n) ∧ (k' < n * n)%nat.
Proof.
  rewrite (reach_tbl (n * n) nops PT PT_wf). split.
  - intros (s & Hs & Hk).
    assert (Hkn : (k < n * n)%nat).
    { destruct (tbl_lookup PT k s _ Hk) as (row & Hrow & _); [lia|].
      apply lookup_lt_Some in Hrow. destruct PT_facts as (<- & _). done. }
    split; [done|]. exists s. split; [done|].
    rewrite tbl_pair in Hk by done.
    pose proof (pair_image_range _ _ (tbl_range n nops T Hwf (k / n) s)
                  (tbl_range n nops T Hwf (k mod n) s)) as Hr.
    rewrite Hk in Hr.
    apply pair_image_inv in Hk as [-> ->]; [|by apply (tbl_range n nops T Hwf)..].
    repeat split; try done. lia.
  - intros (Hkn & s & Hs & Ha & Hb & Hk'). exists s. split; [done|].
    rewrite tbl_pair, Ha, Hb by done. unfold pair_image.
    destruct (Z.eqb_spec (Z.of_nat (k' / n)) (-1)); [lia|].
    destruct (Z.eqb_spec (Z.of_nat (k' mod n)) (-1)); [lia|]. simpl.
    destruct (pair_split n k' Hpos Hk') as (_ & _ & Hsplit). lia.
Qed.

Lemma reach_pair_swap k k' :
  reach PT k k' → reach PT (swap_pair n k) (swap_pair n k').
Proof.
  rewrite !reach_pair. intros (Hk & s & Hs & Ha & Hb & Hk').
  destruct (pair_split n k Hpos Hk) as (Hi & Hj & _).
  destruct (pair_split n k' Hpos Hk') as (Hi' & Hj' & _).
  split; [by apply swap_pair_lt|]. exists s. split; [done|]. unfold swap_pair.
  destruct (divmod_pair n (k mod n) (k / n) Hi) as [-> ->].
  destruct (divmod_pair n (k' mod n) (k' / n) Hi') as [-> ->].
  repeat split; try done. by apply swap_pair_lt.
Qed.

Section Group.
Hypothesis Hgrp : action_table n nops T.

Lemma act_id : ∃ e, (e < nops)%nat ∧ ∀ k, (k < n)%nat → tbl T k e = Z.of_nat k.
Proof.
  destruct Hgrp as (Hid & _ & _).
  apply Exists_exists in Hid as (e & He & Hid). apply elem_of_seq in He.
  rewrite Forall_forall in Hid. exists e. split; [lia|].
  intros k Hk. apply Hid, elem_of_seq. lia.
Qed.

Lemma act_inv s : (s < nops)%nat →
  ∃ t, (t < nops)%nat ∧
       ∀ k k' : nat, (k < n)%nat → tbl T k s = Z.of_nat k' → tbl T k' t = Z.of_nat k.
Proof.
  intros Hs. destruct Hgrp as (_ & Hinv & _). rewrite Forall_forall in Hinv.
  assert (Hs' : s ∈ seq 0 nops) by (apply elem_of_seq; lia).
  apply Hinv, Exists_exists in Hs' as (t & Ht & Hinv').
  apply elem_of_seq in Ht. rewrite Forall_forall in Hinv'.
  exists t. split; [lia|]. intros k k' Hk Hkk'.
  specialize (Hinv' k). rewrite Hkk', Nat2Z.id in Hinv'.
  apply Hinv'; [apply elem_of_seq|]; lia.
Qed.

Lemma act_comp s t : (s < nops)%nat → (t < nops)%nat →
  ∃ u, (u < nops)%nat ∧
       ∀ k k' k'' : nat, (k < n)%nat → tbl T k s = Z.of_nat k' →
                         tbl T k' t = Z.of_nat k'' → tbl T k u = Z.of_nat k''.
Proof.
  intros Hs Ht. destruct Hgrp as (_ & _ & Hcomp). rewrite Forall_forall in Hcomp.
  assert (Hs' : s ∈ seq 0 nops) by (apply elem_of_seq; lia).
  assert (Ht' : t ∈ seq 0 nops) by (apply elem_of_seq; lia).
  apply Hcomp in Hs'. rewrite Forall_forall in Hs'.
  apply Hs', Exists_exists in Ht' as (u & Hu & Hcomp').
  apply elem_of_seq in Hu. rewrite Forall_forall in Hcomp'.
  exists u. split; [lia|]. intros k k' k'' Hk H1 H2.
  specialize (Hcomp' k). rewrite H1, Nat2Z.id, H2 in Hcomp'.
  apply Hcomp'; [apply elem_of_seq|..]; lia.
Qed.

Lemma pair_refl k : (k < n * n)%nat → reach PT k k.
Proof.
  intros Hk. apply reach_pair. split; [done|].
  destruct act_id as (e & He & Hid). exists e. split; [done|].
  destruct (pair_split n k Hpos Hk) as (Hi & Hj & _).
  rewrite !Hid by done. done.
Qed.

Lemma pair_sym k k' : reach PT k k' → reach PT k' k.
Proof.
  rewrite !reach_pair. intros (Hk & s & Hs & Ha & Hb & Hk').
  destruct (pair_split n k Hpos Hk) as (Hi & Hj & _).
  split; [done|]. destruct (act_inv s Hs) as (t & Ht & Hinv).
  exists t. split; [done|].
  rewrite (Hinv _ _ Hi Ha), (Hinv _ _ Hj Hb). done.
Qed.

Lemma pair_trans a b d : reach PT a b → reach PT b d → reach PT a d.
Proof.
  rewrite !reach_pair. intros (Ha & s & Hs & H1 & H2 & Hb) (_ & t & Ht & H3 & H4 & Hd).
  destruct (pair_split n a Hpos Ha) as (Hi & Hj & _).
  split; [done|]. destruct (act_comp s t Hs Ht) as (u & Hu & Hcomp).
  exists u. split; [done|].
  rewrite (Hcomp _ _ _ Hi H1 H3), (Hcomp _ _ _ Hj H2 H4). done.
Qed.
End Group.
End PairGroup.

(** * [numpy.unique] *)

Section UniqueFacts.
Context {K : Type}.
Variable leb eqb : K → K → bool.

Lemma insert_key_perm (p : K * nat) (l : list (K * nat)) :
  Permutation (insert_key leb p l) (p :: l).
Proof.
  induction l as [|q l IH]; simpl; [done|].
  destruct (leb (fst p) (fst q)); [done|].
  rewrite IH. apply perm_swap.
Qed.

Lemma sort_keys_perm (l : list (K * nat)) : Permutation (sort_keys leb l) l.
Proof.
  induction l as [|p l IH]; simpl; [done|].
  rewrite insert_key_perm. by constructor.
Qed.

Lemma combine_app' {B} (l1 l2 : list K) (k1 k2 : list B) :
  length l1 = length k1 → combine (l1 ++ l2) (k1 ++ k2) = combine l1 k1 ++ combine l2 k2.
Proof.
  revert k1. induction l1 as [|x l1 IH]; intros [|y k1] Hl; simpl in *; try done.
  f_equal. apply IH. lia.
Qed.

Lemma combine_seq_snoc (l : list K) (k : K) :
  combine (l ++ [k]) (seq 0 (length (l ++ [k]))) = combine l (seq 0 (length l)) ++ [(k, length l)].
Proof.
  rewrite length_app. simpl. rewrite Nat.add_1_r, seq_S. simpl.
  rewrite combine_app' by (by rewrite length_seq). done.
Qed.

Lemma combine_seq_lookup (l : list K) (k : K) (p : nat) :
  (k, p) ∈ combine l (seq 0 (length l)) ↔ l !! p = Some k.
Proof.
  induction l as [|x l IH] using rev_ind.
  - simpl. split; [by intros ?%elem_of_nil|done].
  - rewrite combine_seq_snoc, elem_of_app, IH, list_elem_of_singleton. split.
    + intros [H|[= -> ->]].
      * rewrite lookup_app_l; [done|]. by eapply lookup_lt_Some.
      * by rewrite lookup_app_r, Nat.sub_diag by lia.
    + intros H. destruct (decide (p < length l)%nat).
      * left. by rewrite lookup_app_l in H.
      * right. rewrite lookup_app_r in H by lia.
        destruct (p - length l)%nat as [|d] eqn:Ed; simpl in H; [|done].
        injection H as ->. f_equal. lia.
Qed.

Lemma first_occurrences_snoc (l : list K) (k : K) :
  first_occurrences eqb (l ++ [k])
  = first_occurrences eqb l ++ (if existsb (eqb k) l then [] else [(k, length l)]).
Proof.
  unfold first_occurrences. rewrite combine_seq_snoc, List.filter_app. f_equal.
  - apply filter_ext_in. intros [k' p] Hin. simpl.
    apply list_elem_of_In, combine_seq_lookup, lookup_lt_Some in Hin.
    by rewrite take_app_le by lia.
  - simpl. rewrite take_app_length.
    by destruct (existsb (eqb k) l).
Qed.

Lemma first_occurrences_lookup (l : list K) (k : K) (p : nat) :
  (k, p) ∈ first_occurrences eqb l → l !! p = Some k.
Proof.
  unfold first_occurrences. intros [H _]%list_elem_of_In%filter_In.
  by apply combine_seq_lookup, list_elem_of_In.
Qed.

Lemma np_unique_index_lookup (l : list K) (k : K) (p : nat) :
  (k, p) ∈ np_unique_index leb eqb l → l !! p = Some k.
Proof.
  unfold np_unique_index. rewrite sort_keys_perm. apply first_occurrences_lookup.
Qed.

Lemma np_unique_index_nonempty (x : K) (l : list K) :
  np_unique_index leb eqb (x :: l) ≠ [].
Proof.
  intros H. assert (Hin : (x, O) ∈ np_unique_index leb eqb (x :: l)).
  { unfold np_unique_index. rewrite sort_keys_perm. unfold first_occurrences.
    simpl. left. }
  rewrite H in Hin. by apply elem_of_nil in Hin.
Qed.
End UniqueFacts.

Lemma pair_groups_some (row : list Z) : row ≠ [] → is_Some (pair_groups row).
Proof.
  intros Hne. unfold pair_groups. destruct row as [|x row]; [done|].
  pose proof (np_unique_index_nonempty Z.leb Z.eqb x row) as H.
  destruct (np_unique_index Z.leb Z.eqb (x :: row)); [done|]. by eexists.
Qed.

Lemma int32_small (k : Z) : 0 ≤ k < 2 ^ 31 → Py.int32 k = k.
Proof.
  intros Hk. unfold Py.int32. rewrite Z.mod_small; lia.
Qed.

(** one counter of the histogram per orbit *)
Lemma classes_bincount (B : list Z) (tops : list nat) (n : nat) :
  (0 < n)%nat → length B = n →
  (∀ j, (j < n)%nat → ∃ i : nat, B !! j = Some (Z.of_nat i) ∧ (i < length tops)%nat) →
  (∀ i r, tops !! i = Some r → B !! r = Some (Z.of_nat i)) →
  ∃ counts, Py.bincount B = Some counts ∧ length counts = length tops ∧
    (∀ i c, counts !! i = Some c → c = Py.count (Z.of_nat i) B) ∧
    Zsum counts = Z.of_nat n.
Proof.
  intros Hpos Hl Hidx Hrep.
  assert (Hr : Forall (λ x, 0 ≤ x < Z.of_nat (length tops)) B).
  { apply Forall_forall. intros z Hz. apply list_elem_of_lookup in Hz as [j Hj].
    pose proof (lookup_lt_Some _ _ _ Hj) as Hjn. rewrite Hl in Hjn.
    destruct (Hidx j Hjn) as (i & Hi & Hin). rewrite Hj in Hi. injection Hi as ->. lia. }
  destruct (bincount_spec B (length tops)) as (counts & Hbin & Hlen & _ & Hcnt & Hsum); [|done|].
  { destruct B; [simpl in Hl; lia|done]. }
  exists counts. split; [done|]. split; [|split; [done|by rewrite Hsum, Hl]].
  assert (Hpos' : (0 < length tops)%nat).
  { destruct (Hidx O Hpos) as (i & _ & ?). lia. }
  rewrite Hlen. rewrite (maximum_elem _ (Z.of_nat (length tops - 1))); [lia|..].
  - destruct (lookup_lt_is_Some_2 tops (length tops - 1)) as [r Hr']; [lia|].
    eapply list_elem_of_lookup_2. by apply Hrep.
  - intros z Hz. rewrite Forall_forall in Hr. specialize (Hr z Hz). lia.
Qed.

Section PairsRun.
Variable E : Env.
Variable h : heap.
Variable self : KPoints.
Variable T : list (list Z).
Variable n nops : nat.
Hypothesis Hk2 : k2opk self = Some T.
Hypothesis Hn : _nkpts self = n.
Hypothesis Hwf : table_wf n nops T.
Hypothesis Hgrp : action_table n nops T.
Hypothesis Hpos : (0 < n)%nat.
Hypothesis Hsmall : Z.of_nat (n * n) < 2 ^ 31.

Lemma nops_pos : (0 < nops)%nat.
Proof. destruct Hgrp as (Hid & _). apply Exists_exists in Hid as (e & He & _).
       apply elem_of_seq in He. lia. Qed.

Lemma kpairs_unreduced_run :
  ∃ PT B counts self1,
    pair_table n nops T = Some PT ∧
    let tops := List.filter (is_top PT) (seq 0 (n * n)) in
    let W := map (λ m, f64_of_Z m * (1 / f64_of_Z (Z.of_nat (n * n))))%float counts in
    length B = (n * n)%nat ∧
    (∀ j, (j < n * n)%nat →
       ∃ i r, B !! j = Some (Z.of_nat i) ∧ tops !! i = Some r ∧
              reach PT r j ∧ is_top PT r = true) ∧
    (∀ j j', reach PT j j' → B !! j = B !! j') ∧
    (∀ j j', (j < n * n)%nat → (j' < n * n)%nat → B !! j = B !! j' → reach PT j j') ∧
    (∀ i r, tops !! i = Some r → B !! r = Some (Z.of_nat i)) ∧
    Py.bincount B = Some counts ∧ length counts = length tops ∧
    (∀ i c, counts !! i = Some c → c = Py.count (Z.of_nat i) B) ∧
    Zsum counts = Z.of_nat (n * n) ∧
    make_kpairs_ibz E h self false = Some (h ++ [W], self1) ∧
    make_kpairs_ibz E h self true = permutation_step (h ++ [W]) self1 ∧
    ibz2bz_kk (kk self1) = Some (map Z.of_nat tops) ∧
    bz2ibz_kk (kk self1) = Some B ∧
    ibz_kk_weight (kk self1) = Some (length h) ∧
    _nkpts self1 = n.
Proof.
  destruct (pair_table_spec n nops T Hwf Hpos) as (PT & HPT & _).
  pose proof (PT_wf n nops T PT Hwf Hpos HPT) as HPTwf.
  destruct (orbit_index_classes Py.int32 pair_groups PT (n * n)
              (map Py.int32 (np_empty E 156 (n * n))))
    as (B & x & Hoi & Hl & Hb & Hsame & Hconv & Hrep).
  { apply HPTwf. } { by eapply table_wf_rows. }
  { intros k Hk. apply int32_small. lia. }
  { destruct HPTwf as [_ Hrows]. eapply Forall_impl; [exact Hrows|].
    intros row [Hlen _]. apply pair_groups_some. pose proof nops_pos.
    destruct row; [simpl in Hlen; lia|done]. }
  { by rewrite length_map, np_empty_length. }
  { apply (pair_refl n nops T PT Hwf Hpos HPT Hgrp). }
  { apply (pair_sym n nops T PT Hwf Hpos HPT Hgrp). }
  { apply (pair_trans n nops T PT Hwf Hpos HPT Hgrp). }
  destruct (classes_bincount B (List.filter (is_top PT) (seq 0 (n * n))) (n * n))
    as (counts & Hbin & Hlc & Hcnt & Hsum); [nia|done| |done|].
  { intros j Hj. destruct (Hb j Hj) as (i & r & Hi & Hr & _). exists i.
    split; [done|]. by eapply lookup_lt_Some. }
  assert (Hne : (n * n =? 0)%nat = false) by (apply Nat.eqb_neq; nia).
  eexists PT, B, counts, _. split; [done|]. simpl.
  do 9 (split; [done|]).
  split.
  { unfold make_kpairs_ibz. rewrite Hk2. simpl.
    rewrite (ncols_spec n nops T Hwf Hpos), Hn, HPT. simpl. rewrite Hoi. simpl.
    rewrite Hbin. simpl. rewrite Hne. reflexivity. }
  split.
  { unfold make_kpairs_ibz. rewrite Hk2. simpl.
    rewrite (ncols_spec n nops T Hwf Hpos), Hn, HPT. simpl. rewrite Hoi. simpl.
    rewrite Hbin. simpl. rewrite Hne. reflexivity. }
  simpl. done.
Qed.
End PairsRun.

(** * The permutation step, entry by entry *)

Lemma keys_spec (n : Z) (R : list Z) :
  zip_with (λ i j, (Z.min i j, Z.max i j)) (map (λ p, p / n) R) (map (λ p, p mod n) R)
  = map (keyf n) R.
Proof. induction R as [|r R IH]; simpl; [done|]. by rewrite IH. Qed.

Lemma idx_ji_spec (n : Z) (R : list Z) :
  zip_with (λ j i, j * n + i) (map (λ p, p mod n) R) (map (λ p, p / n) R)
  = map (swapz n) R.
Proof. induction R as [|r R IH]; simpl; [done|]. by rewrite IH. Qed.

Lemma combine_spec (n : Z) (R : list Z) :
  combine (map (λ p, p / n) R) (map (λ p, p mod n) R) = map (λ r, (r / n, r mod n)) R.
Proof. induction R as [|r R IH]; simpl; [done|]. by rewrite IH. Qed.

Lemma scale_where {A} (f : A → bool) (xs : list A) (g : f64 → f64) (w : fvec) :
  length xs = length w →
  ∃ vals w2,
    Py.take w (Py.where_ f xs) = Some vals ∧
    Py.put_each w (Py.where_ f xs) (map g vals) = Some w2 ∧
    length w2 = length w ∧
    ∀ t x, xs !! t = Some x → w2 !! t = if f x then g <$> w !! t else w !! t.
Proof.
  intros Hl.
  assert (Hr : Forall (λ r, 0 ≤ r < Z.of_nat (length w)) (Py.where_ f xs)).
  { apply Forall_forall. intros z (k & x & -> & Hk & _)%where_elem.
    apply lookup_lt_Some in Hk. lia. }
  destruct (take_spec w (Py.where_ f xs)) as (vals & Htake & Hlv & Hv).
  { eapply Forall_impl; [exact Hr|]. intros r Hrr. simpl in *.
    rewrite <- (Z2Nat.id r) by lia. rewrite get_of_nat. apply lookup_lt_is_Some_2. lia. }
  destruct (put_each_spec (Py.where_ f xs) (map g vals) w) as (w2 & Hput & Hl2 & Hin & Hout).
  { by rewrite length_map. } { done. }
  exists vals, w2. repeat split; try done.
  intros t x Hx. destruct (f x) eqn:Ef.
  - destruct (Hin t) as (i & Hi & Hw); [apply where_elem; by exists t, x|].
    rewrite Hw, list_lookup_fmap, (Hv _ _ Hi), get_of_nat. done.
  - apply Hout. intros (k & y & Hk & Hy & Hf)%where_elem.
    apply Nat2Z.inj in Hk. subst k. congruence.
Qed.

Lemma h_set_spec (h : heap) (l : loc) (a : fvec) :
  (l < length h)%nat → h_set h l a = Some (<[l := a]> h).
Proof. intros H. unfold h_set. by rewrite decide_True. Qed.

Lemma halve_absent_spec (R idx_ji : list Z) (l : loc) : ∀ rng (h : heap) (w : fvec),
  h !! l = Some w →
  Forall (λ i, i < length w ∧ i < length idx_ji)%nat rng → NoDup rng →
  ∃ w', halve_absent R idx_ji l rng h = Some (<[l := w']> h) ∧ length w' = length w ∧
    ∀ t ji, idx_ji !! t = Some ji →
      w' !! t = if decide (t ∈ rng)
                then (if Py.mem ji R then w !! t else (λ x, x / 2)%float <$> w !! t)
                else w !! t.
Proof.
  induction rng as [|i rng IH]; intros h w Hw Hrng Hnd.
  - exists w. split; [cbn [halve_absent]; f_equal; symmetry; by apply list_insert_id|]. split; [done|].
    intros t ji _. rewrite decide_False; [done|apply not_elem_of_nil].
  - apply Forall_cons in Hrng as [[Hiw Hij] Hrng]. apply NoDup_cons in Hnd as [Hni Hnd].
    cbn [halve_absent]. rewrite get_of_nat.
    destruct (lookup_lt_is_Some_2 idx_ji i Hij) as [ji Hji]. rewrite Hji. simpl.
    destruct (Py.mem ji R) eqn:Em.
    + destruct (IH h w Hw Hrng Hnd) as (w' & -> & Hl & Hw').
      exists w'. split; [done|]. split; [done|]. intros t ji' Ht. rewrite (Hw' t ji' Ht).
      destruct (decide (t = i)) as [->|Hne].
      * rewrite decide_False by done. rewrite decide_True by left.
        rewrite Hji in Ht. injection Ht as <-. by rewrite Em.
      * destruct (decide (t ∈ rng)).
        -- rewrite decide_True; [done|by right].
        -- rewrite decide_False; [done|]. by intros [?|?]%elem_of_cons.
    + unfold h_get. rewrite Hw. simpl. rewrite get_of_nat.
      destruct (lookup_lt_is_Some_2 w i Hiw) as [x Hx]. rewrite Hx. simpl.
      rewrite set_of_nat by done. simpl.
      rewrite h_set_spec by (by eapply lookup_lt_Some). simpl.
      destruct (IH (<[l := <[i := (x / 2)%float]> w]> h) (<[i := (x / 2)%float]> w))
        as (w' & -> & Hl & Hw').
      { apply list_lookup_insert_eq. by eapply lookup_lt_Some. }
      { eapply Forall_impl; [exact Hrng|]. intros ? ?. by rewrite length_insert. }
      { done. }
      exists w'. split; [f_equal; apply list_insert_insert_eq|].
      split; [by rewrite Hl, length_insert|]. intros t ji' Ht. rewrite (Hw' t ji' Ht).
      destruct (decide (t = i)) as [->|Hne].
      * rewrite decide_False by done. rewrite decide_True by left.
        rewrite Hji in Ht. injection Ht as <-. rewrite Em.
        rewrite list_lookup_insert_eq by done. by rewrite Hx.
      * rewrite list_lookup_insert_ne by done.
        destruct (decide (t ∈ rng)).
        -- rewrite decide_True; [done|by right].
        -- rewrite decide_False; [done|]. by intros [?|?]%elem_of_cons.
Qed.

Lemma heap_insert_last (h : heap) (a b : fvec) :
  <[length h := b]> (h ++ [a]) = h ++ [b].
Proof.
  rewrite insert_app_r_alt by lia. by rewrite Nat.sub_diag.
Qed.

Lemma heap_lookup_last (h : heap) (a : fvec) : (h ++ [a]) !! length h = Some a.
Proof. apply list_lookup_middle. done. Qed.

Section PermutationRun.
Variable h : heap.
Variable self : KPoints.
Variable R : list Z.
Variable W : fvec.
Variable lw : loc.
Hypothesis HR : ibz2bz_kk (kk self) = Some R.
Hypothesis Hlw : ibz_kk_weight (kk self) = Some lw.
Hypothesis HW : h !! lw = Some W.
Hypothesis Hlen : length W = length R.

Lemma s2_index_lookup t k p :
  s2_index (Z.of_nat (_nkpts self)) R !! t = Some (k, p) →
  ∃ r, R !! p = Some r ∧ k = keyf (Z.of_nat (_nkpts self)) r.
Proof.
  intros Ht. apply list_elem_of_lookup_2 in Ht.
  apply np_unique_index_lookup in Ht. rewrite list_lookup_fmap in Ht.
  destruct (R !! p) as [r|] eqn:Er; [|done]. exists r. split; [done|].
  simpl in Ht. congruence.
Qed.

Lemma permutation_step_run :
  ∃ s2 wf self',
    permutation_step h self = Some (h ++ [wf], self') ∧
    ibz2bz_kk_s2 (kk self') = Some s2 ∧
    ibz_kk_s2_weight (kk self') = Some (length h) ∧
    length s2 = length (s2_index (Z.of_nat (_nkpts self)) R) ∧
    length wf = length (s2_index (Z.of_nat (_nkpts self)) R) ∧
    ∀ t k p, s2_index (Z.of_nat (_nkpts self)) R !! t = Some (k, p) →
      ∃ r a, R !! p = Some r ∧ W !! p = Some a ∧ s2 !! t = Some r ∧
             wf !! t = Some (s2_weight (Z.of_nat (_nkpts self)) R r a).
Proof.
  remember (Z.of_nat (_nkpts self)) as nz eqn:Hnz.
  remember (s2_index nz R) as u eqn:Hu.
  remember (map (λ q : Z * Z * nat, Z.of_nat (snd q)) u) as idx eqn:Hidx.
  assert (Hp : ∀ t k p, u !! t = Some (k, p) →
            ∃ r a, R !! p = Some r ∧ W !! p = Some a ∧ idx !! t = Some (Z.of_nat p)).
  { intros t k p Ht. subst u nz. destruct (s2_index_lookup t k p Ht) as (r & Hr & _).
    destruct (lookup_lt_is_Some_2 W p) as [a Ha].
    { rewrite Hlen. by eapply lookup_lt_Some. }
    exists r, a. split; [done|]. split; [done|].
    subst idx. rewrite list_lookup_fmap, Ht. done. }
  assert (Hidx' : ∀ t e, idx !! t = Some e → ∃ k p, u !! t = Some (k, p) ∧ e = Z.of_nat p).
  { intros t e Ht. subst idx. rewrite list_lookup_fmap in Ht.
    destruct (u !! t) as [[k p]|] eqn:Eu; [|done]. exists k, p. split; [done|].
    simpl in Ht. congruence. }
  destruct (take_spec R idx) as (s2 & Hs2 & Hls2 & Hs2v).
  { apply Forall_forall. intros e He. apply list_elem_of_lookup in He as [t Ht].
    destruct (Hidx' t e Ht) as (k & p & Hk & ->).
    destruct (Hp t k p Hk) as (r & a & Hr & _). rewrite get_of_nat, Hr. by eexists. }
  destruct (take_spec W idx) as (w_s2 & Hws2 & Hlws2 & Hws2v).
  { apply Forall_forall. intros e He. apply list_elem_of_lookup in He as [t Ht].
    destruct (Hidx' t e Ht) as (k & p & Hk & ->).
    destruct (Hp t k p Hk) as (r & a & _ & Ha & _). rewrite get_of_nat, Ha. by eexists. }
  destruct (scale_where (λ p : Z * Z, negb (fst p =? snd p))
              (map (λ r, (r / nz, r mod nz)) s2) (λ x, x * 2)%float w_s2)
    as (vals & w2 & Hvals & Hw2 & Hlw2 & Hw2v).
  { rewrite length_map. lia. }
  destruct (halve_absent_spec R (map (swapz nz) s2) (length h)
              (seq 0 (length w2)) (h ++ [w2]) w2)
    as (w3 & Hh & Hlw3 & Hw3v).
  { apply heap_lookup_last. }
  { apply Forall_forall. intros i Hi%elem_of_seq. rewrite length_map. lia. }
  { apply NoDup_seq. }
  rewrite heap_insert_last in Hh.
  eexists s2, w3, _. split.
  { unfold permutation_step. rewrite HR. simpl. rewrite <- Hnz.
    rewrite keys_spec. fold (s2_index nz R). rewrite <- Hu, <- Hidx.
    rewrite Hs2. simpl. rewrite Hlw. simpl. unfold h_get. rewrite HW. simpl.
    rewrite Hws2. simpl. rewrite heap_lookup_last. simpl.
    rewrite combine_spec, idx_ji_spec. rewrite Hvals. simpl. rewrite Hw2. simpl.
    rewrite h_set_spec by (rewrite length_app; simpl; lia). simpl.
    rewrite heap_insert_last, heap_lookup_last. simpl. rewrite Hh. simpl.
    reflexivity. }
  simpl. split; [done|]. split; [done|].
  assert (Hlu : length idx = length u) by (subst idx; by rewrite length_map).
  split; [lia|]. split; [lia|].
  intros t k p Ht. destruct (Hp t k p Ht) as (r & a & Hr & Ha & Hi).
  exists r, a. split; [done|]. split; [done|].
  assert (Hs2t : s2 !! t = Some r) by (by rewrite (Hs2v t _ Hi), get_of_nat).
  split; [done|].
  assert (Hwt : w_s2 !! t = Some a) by (by rewrite (Hws2v t _ Hi), get_of_nat).
  rewrite (Hw3v t (swapz nz r)) by (by rewrite list_lookup_fmap, Hs2t).
  rewrite decide_True by (apply elem_of_seq; apply lookup_lt_Some in Hwt; lia).
  rewrite (Hw2v t (r / nz, r mod nz)) by (by rewrite list_lookup_fmap, Hs2t).
  unfold s2_weight. simpl. rewrite Hwt.
  destruct (negb (r / nz =? r mod nz)), (Py.mem _ R); done.
Qed.
End PermutationRun.

Lemma mem_true (x : Z) (l : list Z) : Py.mem x l = true ↔ x ∈ l.
Proof.
  unfold Py.mem. rewrite existsb_exists. split.
  - intros (y & Hy & ->%Z.eqb_eq). by apply list_elem_of_In.
  - intros Hx. exists x. split; [by apply list_elem_of_In | apply Z.eqb_refl].
Qed.

Lemma halve_absent_frame (R idx : list Z) (l : loc) : ∀ rng (h h' : heap),
  halve_absent R idx l rng h = Some h' →
  length h' = length h ∧ ∀ l' : nat, l' ≠ l → h' !! l' = h !! l'.
Proof.
  induction rng as [|i rng IH]; intros h h' H; cbn [halve_absent] in H.
  - injection H as <-. done.
  - destruct (Py.get idx (Z.of_nat i)) as [ji|]; simpl in H; [|done].
    destruct (Py.mem ji R); [by apply IH|].
    destruct (h_get h l) as [w|]; simpl in H; [|done].
    destruct (Py.get w _) as [x|]; simpl in H; [|done].
    destruct (Py.set w _ _) as [w'|]; simpl in H; [|done].
    destruct (h_set h l w') as [h1|] eqn:Es; simpl in H; [|done].
    unfold h_set in Es. destruct (decide _); [|done]. injection Es as <-.
    apply IH in H as [Hl Hf]. split; [rewrite Hl; apply length_insert|].
    intros l' Hne. rewrite Hf by done. apply list_lookup_insert_ne. done.
Qed.

(** What the permutation step writes and what it leaves alone. *)
Lemma permutation_step_effect (h h' : heap) (self self' : KPoints) :
  permutation_step h self = Some (h', self') →
  (sym self' = sym self ∧ verbose self' = verbose self ∧
   time_reversal self' = time_reversal self ∧
   kpts self' = kpts self ∧ kpts_ibz self' = kpts_ibz self ∧
   kpts_scaled self' = kpts_scaled self ∧ kpts_scaled_ibz self' = kpts_scaled_ibz self ∧
   weights self' = weights self ∧ weights_ibz self' = weights_ibz self ∧
   ibz2bz self' = ibz2bz self ∧ bz2ibz self' = bz2ibz self ∧
   k2opk self' = k2opk self ∧ stars self' = stars self ∧
   stars_ops self' = stars_ops self ∧ stars_ops_bz self' = stars_ops_bz self ∧
   time_reversal_symm_bz self' = time_reversal_symm_bz self ∧
   _nkpts self' = _nkpts self ∧ _nkpts_ibz self' = _nkpts_ibz self) ∧
  (ibz2bz_kk (kk self') = ibz2bz_kk (kk self) ∧
   bz2ibz_kk (kk self') = bz2ibz_kk (kk self) ∧
   ibz_kk_weight (kk self') = ibz_kk_weight (kk self) ∧
   kk_group (kk self') = kk_group (kk self) ∧
   kk_sym_group (kk self') = kk_sym_group (kk self)) ∧
  is_Some (ibz2bz_kk_s2 (kk self')) ∧
  ibz_kk_s2_weight (kk self') = Some (length h) ∧
  length h' = S (length h) ∧
  (∀ l : nat, (l < length h)%nat → h' !! l = h !! l) ∧
  ∃ lw, ibz_kk_weight (kk self) = Some lw ∧ (lw < length h)%nat.
Proof.
  unfold permutation_step. intros H.
  destruct (ibz2bz_kk (kk self)) as [i2b|] eqn:E1; simpl in H; [|done].
  destruct (Py.take i2b _); simpl in H; [|done].
  destruct (ibz_kk_weight (kk self)) as [lw|] eqn:E2; simpl in H; [|done].
  destruct (h_get h lw) as [w0|] eqn:E3; simpl in H; [|done].
  destruct (Py.take w0 _) as [w_s2|]; simpl in H; [|done].
  destruct (h_get (h ++ [w_s2]) _) as [w1|]; simpl in H; [|done].
  destruct (Py.take w1 _); simpl in H; [|done].
  destruct (Py.put_each _ _ _); simpl in H; [|done].
  destruct (h_set _ _ _) as [h2|] eqn:E4; simpl in H; [|done].
  destruct (h_get h2 _); simpl in H; [|done].
  destruct (halve_absent _ _ _ _ _) as [h3|] eqn:E5; simpl in H; [|done].
  injection H as <- <-. simpl. rewrite ?E1, ?E2.
  unfold h_set in E4. destruct (decide _); [|done]. injection E4 as <-.
  apply halve_absent_frame in E5 as [Hl Hf].
  split; [repeat split; done|]. split; [repeat split; done|].
  split; [by eexists|]. split; [done|].
  split.
  { rewrite Hl. etransitivity; [apply length_insert|]. rewrite length_app. simpl. lia. }
  split.
  - intros l' Hlt. rewrite Hf by lia.
    etransitivity; [apply list_lookup_insert_ne; lia|]. by apply lookup_app_l.
  - exists lw. split; [done|]. unfold h_get in E3. by eapply lookup_lt_Some.
Qed.

(** C10: the permutation step of [make_kpairs_ibz] leaves [ibz2bz_kk],
    [bz2ibz_kk], the groups, every other attribute of the object and every
    stored array that existed before as they were, every entry of
    [ibz_kk_weight] among them; it writes only [ibz2bz_kk_s2] and a fresh
    array for [ibz_kk_s2_weight]. *)
Theorem permutation_step_leaves_unreduced (E : Env) (h h2 : heap) (self self2 : KPoints) :
  make_kpairs_ibz E h self true = Some (h2, self2) →
  ∃ h1 self1 lw w,
    make_kpairs_ibz E h self false = Some (h1, self1) ∧
    permutation_step h1 self1 = Some (h2, self2) ∧
    ibz2bz_kk (kk self2) = ibz2bz_kk (kk self1) ∧
    bz2ibz_kk (kk self2) = bz2ibz_kk (kk self1) ∧
    ibz_kk_weight (kk self1) = Some lw ∧ ibz_kk_weight (kk self2) = Some lw ∧
    h1 !! lw = Some w ∧ h2 !! lw = Some w ∧
    kk_group (kk self2) = kk_group (kk self1) ∧
    kk_sym_group (kk self2) = kk_sym_group (kk self1) ∧
    (∀ l : nat, (l < length h1)%nat → h2 !! l = h1 !! l) ∧
    is_Some (ibz2bz_kk_s2 (kk self2)) ∧
    ibz_kk_s2_weight (kk self2) = Some (length h1) ∧
    lw ≠ length h1 ∧ length h2 = S (length h1) ∧
    (sym self2 = sym self1 ∧ verbose self2 = verbose self1 ∧
     time_reversal self2 = time_reversal self1 ∧
     kpts self2 = kpts self1 ∧ kpts_ibz self2 = kpts_ibz self1 ∧
     kpts_scaled self2 = kpts_scaled self1 ∧
     kpts_scaled_ibz self2 = kpts_scaled_ibz self1 ∧
     weights self2 = weights self1 ∧ weights_ibz self2 = weights_ibz self1 ∧
     ibz2bz self2 = ibz2bz self1 ∧ bz2ibz self2 = bz2ibz self1 ∧
     k2opk self2 = k2opk self1 ∧ stars self2 = stars self1 ∧
     stars_ops self2 = stars_ops self1 ∧ stars_ops_bz self2 = stars_ops_bz self1 ∧
     time_reversal_symm_bz self2 = time_reversal_symm_bz self1 ∧
     _nkpts self2 = _nkpts self1 ∧ _nkpts_ibz self2 = _nkpts_ibz self1).
Proof.
  unfold make_kpairs_ibz. intros H.
  destruct (k2opk self) as [T|] eqn:E1; simpl in H |- *; [|done].
  destruct (pair_table _ _ _); simpl in H |- *; [|done].
  destruct (orbit_index _ _ _ _ _) as [[[i2b b2i] x]|]; simpl in H |- *; [|done].
  destruct (Py.bincount _) as [counts|]; simpl in H |- *; [|done].
  destruct (_ =? _)%nat; [done|].
  eexists _, _, (length h), _. split; [reflexivity|]. split; [exact H|].
  apply permutation_step_effect in H
    as (Hattrs & (H1 & H2 & H3 & H4 & H5) & H6 & H7 & H8 & H9 & _).
  rewrite length_app in *. simpl in *.
  split; [done|]. split; [done|]. split; [done|]. split; [done|].
  split; [apply heap_lookup_last|].
  split; [rewrite H9 by lia; apply heap_lookup_last|].
  split; [done|]. split; [done|]. split; [done|]. split; [done|]. split; [done|].
  split; [lia|]. split; [done|]. exact Hattrs.
Qed.

Lemma swapz_range (n r : Z) : 0 < n → 0 ≤ r < n * n → 0 ≤ swapz n r < n * n.
Proof.
  intros Hn Hr. unfold swapz.
  pose proof (Z.mod_pos_bound r n Hn).
  assert (0 ≤ r / n < n).
  { split; [apply Z.div_pos; lia | apply Z.div_lt_upper_bound; lia]. }
  nia.
Qed.

Lemma swapz_diag (n r : Z) : 0 < n → r / n = r mod n → swapz n r = r.
Proof.
  intros Hn Hd. unfold swapz. pose proof (Z.div_mod r n). rewrite <- Hd. lia.
Qed.

(** lines 180-183 in closed form: an entry ends doubled exactly when it is
    off the diagonal and its exchanged pair is itself a representative;
    otherwise it is left alone, or doubled and halved back *)
Lemma s2_weight_closed (n : Z) (R : list Z) (r : Z) (a : f64) :
  0 < n → 0 ≤ r < n * n → n * n < 2 ^ 31 → r ∈ R →
  (a * 2 / 2)%float = a →
  s2_weight n R r a
  = if negb (r / n =? r mod n) && Py.mem (swapz n r) R then (a * 2)%float else a.
Proof.
  intros Hn Hr Hs Hin Hexact. unfold s2_weight.
  destruct (Z.eqb_spec (r / n) (r mod n)) as [Hd|Hd]; simpl.
  - rewrite (swapz_diag n r Hn Hd). rewrite (proj2 (mem_true r R) Hin). reflexivity.
  - destruct (Py.mem (swapz n r) R); [reflexivity|done].
Qed.

Lemma count_le_length (i : Z) (l : list Z) : Py.count i l ≤ Z.of_nat (length l).
Proof.
  unfold Py.count. induction l as [|x l IH]; simpl; [lia|].
  destruct (i =? x); simpl; lia.
Qed.

(** C5, as the code has it: the weight of an entry of the reduced list is
    twice its unreduced weight when the pair is off the diagonal and the
    exchanged pair is itself an unreduced representative, and the unreduced
    weight otherwise. *)
Theorem s2_weight_rule (E : Env) (h : heap) (self : KPoints) (T : list (list Z)) (nops : nat) :
  k2opk self = Some T →
  table_wf (_nkpts self) nops T → action_table (_nkpts self) nops T →
  (0 < _nkpts self)%nat → Z.of_nat (_nkpts self * _nkpts self) < 2 ^ 31 →
  ∃ h' self' R W s2 w_s2,
    make_kpairs_ibz E h self true = Some (h', self') ∧
    ibz2bz_kk (kk self') = Some R ∧
    (lw ← ibz_kk_weight (kk self'); h' !! lw) = Some W ∧
    ibz2bz_kk_s2 (kk self') = Some s2 ∧
    (l2 ← ibz_kk_s2_weight (kk self'); h' !! l2) = Some w_s2 ∧
    length W = length R ∧ length w_s2 = length s2 ∧
    ∀ t r, s2 !! t = Some r →
      ∃ p a x, R !! p = Some r ∧ W !! p = Some a ∧ w_s2 !! t = Some x ∧
        x = if negb (r / Z.of_nat (_nkpts self) =? r mod Z.of_nat (_nkpts self))
               && Py.mem (swapz (Z.of_nat (_nkpts self)) r) R
            then (a * 2)%float else a.
Proof.
  intros Hk2 Hwf Hgrp Hpos Hsmall.
  destruct (kpairs_unreduced_run E h self T (_nkpts self) nops Hk2 eq_refl Hwf Hgrp Hpos Hsmall)
    as (PT & B & counts & self1 & HPT & Hrun). simpl in Hrun.
  destruct Hrun as (HlB & Hb & _ & _ & _ & Hbin & Hlc & Hcnt & _ & _ & Htrue & HR & _ & Hlw & Hn).
  set (tops := List.filter (is_top PT) (seq 0 (_nkpts self * _nkpts self))) in *.
  set (W := map (λ m, f64_of_Z m * (1 / f64_of_Z (Z.of_nat (_nkpts self * _nkpts self))))%float
                counts) in *.
  assert (HlW : length W = length (map Z.of_nat tops)).
  { unfold W. by rewrite !length_map. }
  destruct (permutation_step_run (h ++ [W]) self1 (map Z.of_nat tops) W (length h)
              HR Hlw (heap_lookup_last h W) HlW)
    as (s2 & wf & self' & Hstep & Hs2 & Hl2 & Hls2 & Hlwf & Hent).
  pose proof (permutation_step_effect _ _ _ _ Hstep)
    as (_ & (HR' & _ & Hlw' & _) & _ & _ & _ & Hframe & _).
  rewrite Hn in *.
  exists ((h ++ [W]) ++ [wf]), self', (map Z.of_nat tops), W, s2, wf.
  split; [by rewrite Htrue|]. split; [by rewrite HR'|].
  split.
  { rewrite Hlw', Hlw. change (((h ++ [W]) ++ [wf]) !! length h = Some W).
    etransitivity; [apply lookup_app_l; rewrite length_app; simpl; lia|].
    apply heap_lookup_last. }
  split; [done|]. split.
  { rewrite Hl2. apply (heap_lookup_last (h ++ [W]) wf). }
  split; [done|]. split; [lia|].
  intros t r Ht.
  destruct (lookup_lt_is_Some_2 (s2_index (Z.of_nat (_nkpts self)) (map Z.of_nat tops)) t)
    as [[k p] Hu].
  { rewrite <- Hls2. by eapply lookup_lt_Some. }
  destruct (Hent t k p Hu) as (r' & a & Hr & Ha & Hs2t & Hwt).
  rewrite Ht in Hs2t. injection Hs2t as <-.
  exists p, a, (s2_weight (Z.of_nat (_nkpts self)) (map Z.of_nat tops) r a).
  split; [done|]. split; [done|]. split; [done|].
  apply s2_weight_closed; [lia| |lia|by eapply list_elem_of_lookup_2|].
  - rewrite list_lookup_fmap in Hr. destruct (tops !! p) as [r0|] eqn:Et; [|done].
    injection Hr as <-.
    apply list_elem_of_lookup_2, list_elem_of_In, filter_In in Et as [Hin _].
    apply in_seq in Hin. lia.
  - unfold W in Ha. rewrite list_lookup_fmap in Ha.
    destruct (counts !! p) as [c|] eqn:Ec; [|done]. injection Ha as <-.
    pose proof (Hcnt _ _ Ec) as ->.
    pose proof (count_nonneg (Z.of_nat p) B). pose proof (count_le_length (Z.of_nat p) B).
    apply f64_weight_double_halve; [|lia].
    split; [done|]. eapply Z.le_lt_trans; [eassumption|]. rewrite HlB. lia.
Qed.

(** C5 as worded fails: an off-diagonal entry whose exchanged pair is not
    in the merged list is doubled, not halved *)
Lemma s2_weight_claimed_counterexample :
  ∃ h self R W s2 w_s2 a x,
    Example.built Example.mesh2 false false = Some (h, self, true) ∧
    ibz2bz_kk (kk self) = Some R ∧
    (lw ← ibz_kk_weight (kk self); h !! lw) = Some W ∧
    ibz2bz_kk_s2 (kk self) = Some s2 ∧
    (l2 ← ibz_kk_s2_weight (kk self); h !! l2) = Some w_s2 ∧
    s2 !! 1%nat = Some 1 ∧ R !! 1%nat = Some 1 ∧ W !! 1%nat = Some a ∧
    w_s2 !! 1%nat = Some x ∧
    Py.mem (swapz 2 1) s2 = false ∧
    x = (a * 2)%float ∧
    x ≠ s2_weight_claimed 2 s2 1 a.
Proof.
  eexists _, _, _, _, _, _, _, _.
  split; [vm_compute; reflexivity|].
  split; [vm_compute; reflexivity|].
  split; [vm_compute; reflexivity|].
  split; [vm_compute; reflexivity|].
  split; [vm_compute; reflexivity|].
  split; [vm_compute; reflexivity|].
  split; [vm_compute; reflexivity|].
  split; [vm_compute; reflexivity|].
  split; [vm_compute; reflexivity|].
  split; [vm_compute; reflexivity|].
  split; [vm_compute; reflexivity|].
  vm_compute. discriminate.
Qed.

(** * The multiplicities survive the permutation step *)

Lemma Zsum_perm (l l' : list Z) : Permutation l l' → Zsum l = Zsum l'.
Proof. induction 1; simpl; lia. Qed.

Lemma Zsum_change (f f' : Z → Z) (x : Z) (l : list Z) :
  NoDup l → x ∈ l → (∀ y, y ∈ l → y ≠ x → f y = f' y) →
  Zsum (map f l) = Zsum (map f' l) + f x - f' x.
Proof.
  induction 1 as [|y l Hy Hnd IH]; intros Hx Hext.
  - by apply elem_of_nil in Hx.
  - simpl. apply elem_of_cons in Hx as [<-|Hx].
    + assert (Hm : map f l = map f' l).
      { apply map_ext_in. intros z Hz%list_elem_of_In. apply Hext; [by right|].
        intros ->. done. }
      rewrite Hm. lia.
    + rewrite IH; [|done|intros z Hz Hne; apply Hext; [by right|done]].
      rewrite (Hext y); [lia|left|]. intros ->. done.
Qed.

Lemma filter_length_perm {A} (P : A → bool) (l l' : list A) :
  Permutation l l' → length (List.filter P l) = length (List.filter P l').
Proof.
  induction 1 as [|x l l' _ IH|x y l|l l' l'' _ IH1 _ IH2]; simpl.
  - done.
  - destruct (P x); simpl; lia.
  - destruct (P x), (P y); simpl; lia.
  - lia.
Qed.

Lemma filter_length_map {A B} (P : B → bool) (s : A → B) (l : list A) :
  length (List.filter P (map s l)) = length (List.filter (λ j, P (s j)) l).
Proof.
  induction l as [|x l IH]; simpl; [done|]. destruct (P (s x)); simpl; lia.
Qed.

(** counting is invariant under an involution of the index range *)
Lemma filter_length_invol (N : nat) (s : nat → nat) (P Q : nat → bool) :
  (∀ j, (j < N)%nat → (s j < N)%nat) →
  (∀ j, (j < N)%nat → s (s j) = j) →
  (∀ j, (j < N)%nat → P (s j) = Q j) →
  length (List.filter P (seq 0 N)) = length (List.filter Q (seq 0 N)).
Proof.
  intros Hr Hi HPQ.
  assert (Hperm : Permutation (map s (seq 0 N)) (seq 0 N)).
  { apply NoDup_Permutation.
    - apply NoDup_fmap_2_strong; [|apply NoDup_seq].
      intros x y Hx%elem_of_seq Hy%elem_of_seq Hxy.
      rewrite <- (Hi x), <- (Hi y) by lia. by rewrite Hxy.
    - apply NoDup_seq.
    - intros x. rewrite list_elem_of_fmap. split.
      + intros (y & -> & Hy%elem_of_seq). apply elem_of_seq. specialize (Hr y). lia.
      + intros Hx%elem_of_seq. exists (s x). split; [symmetry; apply Hi; lia|].
        apply elem_of_seq. specialize (Hr x). lia. }
  rewrite <- (filter_length_perm P _ _ Hperm), filter_length_map.
  f_equal. apply filter_ext_in. intros j Hj%in_seq. apply HPQ. lia.
Qed.

Lemma count_filter (v : Z) (B : list Z) :
  Py.count v B
  = Z.of_nat (length (List.filter (λ j, match B !! j with Some x => v =? x | None => false end)
                                  (seq 0 (length B)))).
Proof.
  rewrite <- where_length. unfold Py.where_. by rewrite length_map.
Qed.

(** ** Pair indices and their exchange *)

Lemma swapz_div (n r : Z) : 0 < n → 0 ≤ r < n * n → swapz n r / n = r mod n.
Proof.
  intros Hn Hr. unfold swapz.
  assert (0 ≤ r / n < n).
  { split; [apply Z.div_pos; lia | apply Z.div_lt_upper_bound; lia]. }
  rewrite Z.div_add_l by lia. rewrite Z.div_small by lia. lia.
Qed.

Lemma swapz_mod (n r : Z) : 0 < n → 0 ≤ r < n * n → swapz n r mod n = r / n.
Proof.
  intros Hn Hr. unfold swapz.
  assert (0 ≤ r / n < n).
  { split; [apply Z.div_pos; lia | apply Z.div_lt_upper_bound; lia]. }
  rewrite Z.add_comm, Z.mod_add by lia. apply Z.mod_small. lia.
Qed.

Lemma swapz_invol (n r : Z) : 0 < n → 0 ≤ r < n * n → swapz n (swapz n r) = r.
Proof.
  intros Hn Hr. unfold swapz at 1. rewrite swapz_div, swapz_mod by done.
  pose proof (Z.div_mod r n). lia.
Qed.

Lemma swapz_fixed (n r : Z) : 0 < n → 0 ≤ r < n * n → swapz n r = r ↔ r / n = r mod n.
Proof.
  intros Hn Hr. split.
  - intros H. rewrite <- H at 1. by apply swapz_div.
  - by apply swapz_diag.
Qed.

Lemma swapz_nat (n k : nat) :
  swapz (Z.of_nat n) (Z.of_nat k) = Z.of_nat (swap_pair n k).
Proof.
  unfold swapz, swap_pair.
  rewrite Nat2Z.inj_add, Nat2Z.inj_mul, Nat2Z.inj_div, Nat2Z.inj_mod. done.
Qed.

Lemma keyf_eq (n r r' : Z) :
  0 < n → 0 ≤ r < n * n → 0 ≤ r' < n * n →
  pair_eqb (keyf n r) (keyf n r') = true ↔ r' = r ∨ r' = swapz n r.
Proof.
  intros Hn Hr Hr'. unfold pair_eqb, keyf. simpl.
  rewrite andb_true_iff, !Z.eqb_eq.
  pose proof (Z.div_mod r n). pose proof (Z.div_mod r' n).
  split.
  - intros [H1 H2].
    destruct (Z.eq_dec (r / n) (r' / n)) as [Hd|Hd].
    + left. assert (r mod n = r' mod n) by lia. lia.
    + right. assert (r' / n = r mod n ∧ r' mod n = r / n) as [Ha Hb] by lia.
      unfold swapz. lia.
  - intros [->| ->]; [done|]. rewrite swapz_div, swapz_mod by done. lia.
Qed.

(** ** Summing over the first occurrences of the keys *)

Lemma first_sum_snoc (n : Z) (h : nat → Z) (L : list Z) (r : Z) :
  first_sum n h (L ++ [r])
  = first_sum n h L
    + if existsb (pair_eqb (keyf n r)) (map (keyf n) L) then 0 else h (length L).
Proof.
  unfold first_sum. rewrite map_app. simpl. rewrite first_occurrences_snoc.
  rewrite map_app, Zsum_app, length_map.
  destruct (existsb _ _); simpl; lia.
Qed.

Lemma mem_app (x : Z) (l1 l2 : list Z) : Py.mem x (l1 ++ l2) = Py.mem x l1 || Py.mem x l2.
Proof. unfold Py.mem. apply existsb_app. Qed.

Lemma mem_false (x : Z) (l : list Z) : Py.mem x l = false ↔ x ∉ l.
Proof. rewrite <- mem_true. by destruct (Py.mem x l). Qed.

Lemma Zsum_zero {A} (l : list A) : Zsum (map (λ _, 0) l) = 0.
Proof. induction l; simpl; lia. Qed.

Section DedupSum.
Variable n : Z.
Variable R : list Z.
Variable g : Z → Z.
Hypothesis Hn : 0 < n.
Hypothesis Hnd : NoDup R.
Hypothesis Hrange : ∀ r, r ∈ R → 0 ≤ r < n * n.
Hypothesis Hg : ∀ r, r ∈ R → swapz n r ∈ R → g (swapz n r) = g r.

Lemma key_seen (L : list Z) (r : Z) :
  (∀ x, x ∈ L → x ∈ R) → r ∈ R →
  existsb (pair_eqb (keyf n r)) (map (keyf n) L) = true ↔ r ∈ L ∨ swapz n r ∈ L.
Proof.
  intros HL Hr. rewrite existsb_exists. split.
  - intros (k & Hk & He). apply in_map_iff in Hk as (x & <- & Hx%list_elem_of_In).
    apply keyf_eq in He as [->| ->]; [by left|by right|done|by apply Hrange|].
    by apply Hrange, HL.
  - intros [H|H].
    + exists (keyf n r). split; [apply in_map; by apply list_elem_of_In|].
      apply keyf_eq; [done|by apply Hrange..|by left].
    + exists (keyf n (swapz n r)). split; [apply in_map; by apply list_elem_of_In|].
      apply keyf_eq; [done|by apply Hrange|by apply Hrange, HL|by right].
Qed.

Lemma dedup_prefix : ∀ L L', R = L ++ L' →
  first_sum n (λ p, s2_factor n R (default 0 (R !! p)) * g (default 0 (R !! p))) L
  = Zsum (map g L) + Zsum (map (pending n R L g) L).
Proof.
  induction L as [|r L IH] using rev_ind; intros L' HR; [done|].
  rewrite <- app_assoc in HR. simpl in HR. specialize (IH _ HR).
  assert (HrR : r ∈ R) by (rewrite HR; apply elem_of_app; right; left).
  assert (HLR : ∀ x, x ∈ L → x ∈ R) by (intros x Hx; rewrite HR; apply elem_of_app; by left).
  assert (HrL : r ∉ L).
  { rewrite HR in Hnd. apply NoDup_app in Hnd as (_ & Hd & _).
    intros Hin. apply (Hd r Hin). left. }
  assert (HndL : NoDup L).
  { rewrite HR in Hnd. by apply NoDup_app in Hnd as (? & _). }
  assert (Hat : default 0 (R !! length L) = r).
  { rewrite HR. by rewrite list_lookup_middle. }
  pose proof (Hrange r HrR) as Hrr.
  rewrite first_sum_snoc, IH, Hat, !map_app, !Zsum_app.
  cbn [map Zsum fold_right].
  destruct (existsb _ _) eqn:Ex.
  - (* the exchanged pair came earlier: it was waiting for this one *)
    apply key_seen in Ex as [Ex|Ex]; [done| |done..].
    assert (Hne : swapz n r ≠ r) by (intros Heq; by rewrite Heq in Ex).
    pose proof (HLR _ Ex) as HsR. pose proof (Hrange _ HsR) as Hsr.
    assert (Hod : (r mod n =? r / n) = false).
    { apply Z.eqb_neq. intros Heq. apply Hne. apply swapz_fixed; done. }
    assert (Hp1 : pending n R L g (swapz n r) = g r).
    { unfold pending. rewrite swapz_invol, swapz_div, swapz_mod by done.
      rewrite Hod, (proj2 (mem_true r R) HrR), (proj2 (mem_false r L) HrL). simpl.
      by apply Hg. }
    assert (Hp2 : pending n R (L ++ [r]) g (swapz n r) = 0).
    { unfold pending. rewrite swapz_invol by done. rewrite mem_app.
      replace (Py.mem r [r]) with true by (symmetry; apply mem_true; left).
      by rewrite orb_true_r, andb_false_r. }
    assert (Hp3 : pending n R (L ++ [r]) g r = 0).
    { unfold pending. rewrite mem_app, (proj2 (mem_true (swapz n r) L) Ex).
      by rewrite andb_false_r. }
    rewrite (Zsum_change (pending n R L g) (pending n R (L ++ [r]) g) (swapz n r) L
               HndL Ex).
    2:{ intros y Hy Hyne. unfold pending. rewrite mem_app.
        replace (Py.mem (swapz n y) [r]) with false; [by rewrite orb_false_r|].
        symmetry. apply mem_false. intros Heq%list_elem_of_singleton.
        apply Hyne. rewrite <- Heq. symmetry. apply swapz_invol; [done|].
        by apply Hrange, HLR. }
    rewrite Hp1, Hp2, Hp3. lia.
  - (* a new key *)
    assert (Hns : swapz n r ∉ L).
    { intros Hin. assert (Ht : existsb (pair_eqb (keyf n r)) (map (keyf n) L) = true).
      { apply key_seen; [done..|by right]. }
      congruence. }
    assert (Hm : map (pending n R (L ++ [r]) g) L = map (pending n R L g) L).
    { apply map_ext_in. intros y Hy%list_elem_of_In. unfold pending. rewrite mem_app.
      replace (Py.mem (swapz n y) [r]) with false; [by rewrite orb_false_r|].
      symmetry. apply mem_false. intros Heq%list_elem_of_singleton.
      apply Hns. rewrite <- Heq. rewrite swapz_invol; [done..|]. by apply Hrange, HLR. }
    assert (Hp : s2_factor n R r * g r = g r + pending n R (L ++ [r]) g r).
    { unfold pending, s2_factor. rewrite mem_app.
      rewrite (proj2 (mem_false (swapz n r) L) Hns).
      destruct (Z.eqb_spec (r / n) (r mod n)) as [Hd|Hd]; cbn [negb andb orb]; [lia|].
      replace (Py.mem (swapz n r) [r]) with false.
      2:{ symmetry. apply mem_false. intros Heq%list_elem_of_singleton.
          apply Hd. by apply swapz_fixed. }
      destruct (Py.mem (swapz n r) R); cbn [negb andb orb]; lia. }
    rewrite Hm, Hp. lia.
Qed.

Lemma dedup_sum :
  first_sum n (λ p, s2_factor n R (default 0 (R !! p)) * g (default 0 (R !! p))) R
  = Zsum (map g R).
Proof.
  rewrite (dedup_prefix R []) by (by rewrite app_nil_r).
  assert (Hz : map (pending n R R g) R = map (λ _, 0) R).
  { apply map_ext. intros r. unfold pending.
    destruct (negb _), (Py.mem _ R); done. }
  rewrite Hz, Zsum_zero. lia.
Qed.
End DedupSum.

Section OrbitSizes.
Variable n nops : nat.
Variable T PT : list (list Z).
Variable Bk : list Z.
Hypothesis Hwf : table_wf n nops T.
Hypothesis Hpos : (0 < n)%nat.
Hypothesis HPT : pair_table n nops T = Some PT.
Hypothesis HlB : length Bk = (n * n)%nat.
Hypothesis Hidx : ∀ j, (j < n * n)%nat → is_Some (Bk !! j).
Hypothesis Hsame : ∀ j j', reach PT j j' → Bk !! j = Bk !! j'.
Hypothesis Hconv : ∀ j j', (j < n * n)%nat → (j' < n * n)%nat →
                           Bk !! j = Bk !! j' → reach PT j j'.

(** exchanging the two points of every pair maps an orbit onto an orbit *)
Lemma orbit_size_swap (k : nat) :
  (k < n * n)%nat →
  orbit_size Bk (Z.of_nat (swap_pair n k)) = orbit_size Bk (Z.of_nat k).
Proof.
  intros Hk. unfold orbit_size. rewrite !Nat2Z.id, !count_filter. f_equal.
  pose proof (swap_pair_lt n k Hpos Hk) as Hsk.
  destruct (Hidx k Hk) as [v Hv]. destruct (Hidx _ Hsk) as [v' Hv'].
  rewrite Hv, Hv'. simpl. rewrite HlB.
  apply (filter_length_invol (n * n) (swap_pair n)).
  - intros j Hj. by apply swap_pair_lt.
  - intros j Hj. by apply swap_pair_invol.
  - intros j Hj. pose proof (swap_pair_lt n j Hpos Hj) as Hsj.
    destruct (Hidx j Hj) as [x Hx]. destruct (Hidx _ Hsj) as [x' Hx'].
    rewrite Hx, Hx'. apply eq_true_iff_eq. rewrite !Z.eqb_eq. split.
    + intros <-. assert (Hr : reach PT (swap_pair n k) (swap_pair n j)).
      { apply Hconv; [done..|]. by rewrite Hv', Hx'. }
      apply (reach_pair_swap n nops T PT Hwf Hpos HPT) in Hr.
      rewrite !swap_pair_invol in Hr by done.
      apply Hsame in Hr. rewrite Hv, Hx in Hr. by injection Hr.
    + intros <-. assert (Hr : reach PT k j).
      { apply Hconv; [done..|]. by rewrite Hv, Hx. }
      apply (reach_pair_swap n nops T PT Hwf Hpos HPT) in Hr.
      apply Hsame in Hr. rewrite Hv', Hx' in Hr. by injection Hr.
Qed.
End OrbitSizes.

(** C4, as the code has it: with [permutation_symmetry=True] on the table
    of a group, [ibz_kk_weight[p]] is the binary64 product of the number of
    pairs in the orbit of the representative [ibz2bz_kk[p]] and
    [1.0 / nkpts^2]; an entry of [ibz_kk_s2_weight] is that product for its
    representative, doubled when the pair is off the diagonal and the
    exchanged pair is a representative too; and the numbers of pairs, each
    counted with this factor in the reduced list, add up to [nkpts^2] in
    both lists. *)
Theorem pair_weights_multiplicities (E : Env) (h : heap) (self : KPoints)
    (T : list (list Z)) (nops : nat) :
  k2opk self = Some T →
  table_wf (_nkpts self) nops T → action_table (_nkpts self) nops T →
  (0 < _nkpts self)%nat → Z.of_nat (_nkpts self * _nkpts self) < 2 ^ 31 →
  ∃ h' self' R B W s2 w_s2,
    make_kpairs_ibz E h self true = Some (h', self') ∧
    ibz2bz_kk (kk self') = Some R ∧ bz2ibz_kk (kk self') = Some B ∧
    (lw ← ibz_kk_weight (kk self'); h' !! lw) = Some W ∧
    ibz2bz_kk_s2 (kk self') = Some s2 ∧
    (l2 ← ibz_kk_s2_weight (kk self'); h' !! l2) = Some w_s2 ∧
    length W = length R ∧ length w_s2 = length s2 ∧
    (∀ (p : nat) r w, R !! p = Some r → W !! p = Some w →
       w = (f64_of_Z (orbit_size B r)
            * (1 / f64_of_Z (Z.of_nat (_nkpts self * _nkpts self))))%float) ∧
    (∀ (t : nat) r x, s2 !! t = Some r → w_s2 !! t = Some x →
       x = let a := (f64_of_Z (orbit_size B r)
                     * (1 / f64_of_Z (Z.of_nat (_nkpts self * _nkpts self))))%float in
           if s2_factor (Z.of_nat (_nkpts self)) R r =? 2 then (a * 2)%float else a) ∧
    Zsum (map (orbit_size B) R) = Z.of_nat (_nkpts self * _nkpts self) ∧
    Zsum (map (λ r, s2_factor (Z.of_nat (_nkpts self)) R r * orbit_size B r) s2)
      = Z.of_nat (_nkpts self * _nkpts self).
Proof.
  intros Hk2 Hwf Hgrp Hpos Hsmall.
  destruct (kpairs_unreduced_run E h self T (_nkpts self) nops Hk2 eq_refl Hwf Hgrp Hpos Hsmall)
    as (PT & B & counts & self1 & HPT & Hrun). simpl in Hrun.
  destruct Hrun as (HlB & Hb & Hsame & Hconv & Hrep & Hbin & Hlc & Hcnt & Hsum & _ & Htrue &
                    HR & HB & Hlw & Hn).
  remember (_nkpts self) as n eqn:En.
  set (tops := List.filter (is_top PT) (seq 0 (n * n))) in *.
  set (W := map (λ m, f64_of_Z m * (1 / f64_of_Z (Z.of_nat (n * n))))%float counts) in *.
  set (R := map Z.of_nat tops) in *.
  assert (HlW : length W = length R).
  { unfold W, R. by rewrite !length_map. }
  destruct (permutation_step_run (h ++ [W]) self1 R W (length h)
              HR Hlw (heap_lookup_last h W) HlW)
    as (s2 & wf & self' & Hstep & Hs2 & Hl2 & Hls2 & Hlwf & Hent).
  pose proof (permutation_step_effect _ _ _ _ Hstep)
    as (_ & (HR' & HB' & Hlw' & _) & _ & _ & _ & Hframe & _).
  rewrite Hn in *.
  set (nz := Z.of_nat n) in *.
  assert (Hnz : 0 < nz) by (unfold nz; lia).
  assert (Hsq : nz * nz = Z.of_nat (n * n)) by (unfold nz; lia).
  (* the representatives *)
  assert (HndR : NoDup R).
  { unfold R. apply NoDup_fmap; [intros ???; lia|].
    apply NoDup_ListNoDup, List.NoDup_filter, seq_NoDup. }
  assert (Htop : ∀ p k, tops !! p = Some k → (k < n * n)%nat).
  { intros p k Hp. apply list_elem_of_lookup_2, list_elem_of_In, filter_In in Hp as [Hin _].
    apply in_seq in Hin. lia. }
  assert (HrangeR : ∀ r, r ∈ R → 0 ≤ r < nz * nz).
  { intros r (k & -> & Hk)%list_elem_of_fmap. apply list_elem_of_lookup in Hk as [p Hp].
    apply Htop in Hp. lia. }
  assert (Hidx : ∀ j, (j < n * n)%nat → is_Some (B !! j)).
  { intros j Hj. destruct (Hb j Hj) as (i & r & -> & _). by eexists. }
  assert (HgR : ∀ r, r ∈ R → swapz nz r ∈ R →
            orbit_size B (swapz nz r) = orbit_size B r).
  { intros r (k & -> & Hk)%list_elem_of_fmap _. unfold nz. rewrite swapz_nat.
    apply list_elem_of_lookup in Hk as [p Hp].
    apply (orbit_size_swap n nops T PT B Hwf Hpos HPT HlB Hidx Hsame Hconv).
    by eapply Htop. }
  assert (Hcount : ∀ p r, R !! p = Some r → counts !! p = Some (orbit_size B r)).
  { intros p r Hp. unfold R in Hp. rewrite list_lookup_fmap in Hp.
    destruct (tops !! p) as [k|] eqn:Ek; [|done]. injection Hp as <-.
    destruct (lookup_lt_is_Some_2 counts p) as [m Hm].
    { rewrite Hlc. by eapply lookup_lt_Some. }
    rewrite Hm, (Hcnt _ _ Hm). unfold orbit_size. by rewrite Nat2Z.id, (Hrep _ _ Ek). }
  assert (HgC : map (orbit_size B) R = counts).
  { apply list_eq_same_length with (length R).
    - unfold R. by rewrite length_map.
    - by rewrite length_map.
    - intros p x y Hp Hx Hy. rewrite list_lookup_fmap in Hx.
      destruct (R !! p) as [r|] eqn:Er; [|done]. injection Hx as <-.
      rewrite (Hcount _ _ Er) in Hy. by injection Hy. }
  assert (Hsize : ∀ r, r ∈ R → 0 ≤ orbit_size B r < 2 ^ 53).
  { intros r Hr. unfold orbit_size.
    pose proof (count_nonneg (default (-1) (B !! Z.to_nat r)) B).
    pose proof (count_le_length (default (-1) (B !! Z.to_nat r)) B) as Hle.
    rewrite HlB in Hle. split; [done|].
    eapply Z.le_lt_trans; [exact Hle|]. eapply Z.lt_trans; [exact Hsmall|done]. }
  (* the reduced list *)
  set (Hf := λ p : nat, s2_factor nz R (default 0 (R !! p))
                        * orbit_size B (default 0 (R !! p))).
  set (u := s2_index nz R) in *.
  assert (Hs2u : map (λ r, s2_factor nz R r * orbit_size B r) s2
                 = map (λ q : Z * Z * nat, Hf (snd q)) u).
  { apply list_eq_same_length with (length u).
    - by rewrite length_map.
    - rewrite length_map. lia.
    - intros t x y Ht Hx Hy. rewrite list_lookup_fmap in Hx.
      apply list_lookup_fmap_Some_1 in Hy as ([k p] & -> & Eu).
      destruct (Hent t k p Eu) as (r & a & Hr & _ & Hst & _).
      rewrite Hst in Hx. injection Hx as <-. unfold Hf. simpl. by rewrite Hr. }
  assert (HsumZ : Zsum (map (λ q : Z * Z * nat, Hf (snd q)) u) = Z.of_nat (n * n)).
  { rewrite <- Hsum, <- HgC.
    rewrite <- (dedup_sum nz R (orbit_size B) Hnz HndR HrangeR HgR).
    unfold first_sum, u, s2_index, np_unique_index.
    apply Zsum_perm, Permutation_map, sort_keys_perm. }
  exists ((h ++ [W]) ++ [wf]), self', R, B, W, s2, wf.
  split; [by rewrite Htrue|]. split; [by rewrite HR'|]. split; [by rewrite HB'|]. split.
  { rewrite Hlw', Hlw. change (((h ++ [W]) ++ [wf]) !! length h = Some W).
    etransitivity; [apply lookup_app_l; rewrite length_app; simpl; lia|].
    apply heap_lookup_last. }
  split; [done|]. split.
  { rewrite Hl2. apply (heap_lookup_last (h ++ [W]) wf). }
  split; [done|]. split; [lia|]. split; [|split; [|split]].
  - intros p r w Hr Hw. unfold W in Hw. rewrite list_lookup_fmap, (Hcount _ _ Hr) in Hw.
    by injection Hw as <-.
  - intros t r x Ht Hx.
    destruct (lookup_lt_is_Some_2 u t) as [[k p] Eu].
    { rewrite <- Hls2. by eapply lookup_lt_Some. }
    destruct (Hent t k p Eu) as (r' & a & Hr & Ha & Hst & Hwt).
    rewrite Ht in Hst. injection Hst as <-. rewrite Hx in Hwt. injection Hwt as ->.
    assert (Hin : r ∈ R) by (by eapply list_elem_of_lookup_2).
    unfold W in Ha. rewrite list_lookup_fmap, (Hcount _ _ Hr) in Ha. injection Ha as <-.
    rewrite s2_weight_closed; [|done|by apply HrangeR|lia|done|].
    + cbv zeta. unfold s2_factor. by destruct (negb _ && Py.mem _ R).
    + apply f64_weight_double_halve; [by apply Hsize|].
      split; [nia|]. eapply Z.lt_trans; [exact Hsmall|done].
  - by rewrite HgC.
  - by rewrite Hs2u.
Qed.

(** * The concrete environment meets the assumptions *)

Lemma example_matcher_wf (pts : list vec) (op_rot : list mat) (tol : Q) :
  table_wf (length pts) (length op_rot) (Example.matcher pts op_rot tol).
Proof.
  unfold Example.matcher. split; [by rewrite length_map|].
  apply Forall_forall. intros row (k & -> & _)%list_elem_of_fmap.
  split; [by rewrite length_map|].
  apply Forall_forall. intros e (op & -> & _)%list_elem_of_fmap.
  unfold Example.image_index.
  destruct (Py.where_ _ pts) as [|j l] eqn:Ew; [lia|].
  assert (Hj : j ∈ Py.where_ (Example.same_mod_lattice (dot_T k op)) pts).
  { rewrite Ew. left. }
  apply where_elem in Hj as (i & x & -> & Hi & _). apply lookup_lt_Some in Hi. lia.
Qed.

Lemma example_env_ok : env_ok Example.env.
Proof.
  split; [done|]. split; [done|]. intros pts op_rot tol. apply example_matcher_wf.
Qed.

Lemma example_fresh_init (k : vec) (mesh : list vec) :
  KPoints_init Example.env (Some Example.a_cell) (k :: mesh)
  = Some (Example.fresh (k :: mesh)).
Proof. reflexivity. Qed.

Lemma example_reduced_build :
  build Example.env [] (Example.fresh Example.mesh4) true true false false
  = Some ([], Example.reduced Example.mesh4 true true, true).
Proof. vm_compute. reflexivity. Qed.

Lemma example_ready (sgs trs : bool) : ready (Example.prepared Example.mesh4 sgs trs).
Proof.
  destruct sgs; (split; [by eexists|]); (split; [by eexists|]);
    (split; [simpl; lia|]); (split; [done|]); (split; [done|]); done.
Qed.

Lemma example_group_closed :
  group_closed Example.env (Example.prepared Example.mesh4 true true).
Proof.
  intros c ks [= <-] [= <-]. apply (bool_decide_unpack _). vm_compute. exact I.
Qed.

Lemma example_table_wf :
  table_wf 4 2 [[0; 0]; [1; 3]; [2; 2]; [3; 1]].
Proof. apply (bool_decide_unpack _). vm_compute. exact I. Qed.

Lemma example_action_table :
  action_table 4 2 [[0; 0]; [1; 3]; [2; 2]; [3; 1]].
Proof. apply (bool_decide_unpack _). vm_compute. exact I. Qed.

(** * The theorems at concrete inputs *)


Lemma weights_ibz_of_orbit_sizes_witness :
  ∃ self', make_kpts_ibz Example.env (Example.prepared Example.mesh4 true true) = Some self' ∧
    length (weights_ibz self') = _nkpts_ibz self' ∧
    length (stars self') = _nkpts_ibz self' ∧
    Zsum (map (λ star : list Z, Z.of_nat (length star)) (stars self'))
      = Z.of_nat (_nkpts self') ∧
    ∀ i w star, weights_ibz self' !! i = Some w → stars self' !! i = Some star →
      w = (f64_of_Z (Z.of_nat (length star))
           * (1 / f64_of_Z (Z.of_nat (_nkpts self'))))%float.
Proof.
  apply (weights_ibz_of_orbit_sizes Example.env (Example.prepared Example.mesh4 true true)).
  - apply example_env_ok.
  - apply example_ready.
  - reflexivity.
  - apply example_group_closed.
Defined.

Lemma orbit_closure_witness :
  ∃ self' T, make_kpts_ibz Example.env (Example.prepared Example.mesh4 true true) = Some self' ∧
    k2opk self' = Some T ∧
    ∀ (k s : nat) (k' : Z),
      (row ← T !! k; row !! s) = Some k' → k' ≠ -1 →
      is_Some (Py.get (bz2ibz self') k') ∧
      Py.get (bz2ibz self') k' = Py.get (bz2ibz self') (Z.of_nat k).
Proof.
  apply (orbit_closure Example.env (Example.prepared Example.mesh4 true true)).
  - apply example_env_ok.
  - apply example_ready.
  - apply example_group_closed.
Defined.

Lemma pair_weights_multiplicities_witness :
  ∃ h' self' R B W s2 w_s2,
    make_kpairs_ibz Example.env [] (Example.reduced Example.mesh4 true true) true
      = Some (h', self') ∧
    ibz2bz_kk (kk self') = Some R ∧ bz2ibz_kk (kk self') = Some B ∧
    (lw ← ibz_kk_weight (kk self'); h' !! lw) = Some W ∧
    ibz2bz_kk_s2 (kk self') = Some s2 ∧
    (l2 ← ibz_kk_s2_weight (kk self'); h' !! l2) = Some w_s2 ∧
    length W = length R ∧ length w_s2 = length s2 ∧
    (∀ (p : nat) r w, R !! p = Some r → W !! p = Some w →
       w = (f64_of_Z (orbit_size B r) * (1 / f64_of_Z 16))%float) ∧
    (∀ (t : nat) r x, s2 !! t = Some r → w_s2 !! t = Some x →
       x = let a := (f64_of_Z (orbit_size B r) * (1 / f64_of_Z 16))%float in
           if s2_factor 4 R r =? 2 then (a * 2)%float else a) ∧
    Zsum (map (orbit_size B) R) = 16 ∧
    Zsum (map (λ r, s2_factor 4 R r * orbit_size B r) s2) = 16.
Proof.
  apply (pair_weights_multiplicities Example.env [] (Example.reduced Example.mesh4 true true)
           [[0; 0]; [1; 3]; [2; 2]; [3; 1]] 2).
  - vm_compute. reflexivity.
  - apply example_table_wf.
  - apply example_action_table.
  - vm_compute. lia.
  - vm_compute. reflexivity.
Defined.

Lemma s2_weight_rule_witness :
  ∃ h' self' R W s2 w_s2,
    make_kpairs_ibz Example.env [] (Example.reduced Example.mesh4 true true) true
      = Some (h', self') ∧
    ibz2bz_kk (kk self') = Some R ∧
    (lw ← ibz_kk_weight (kk self'); h' !! lw) = Some W ∧
    ibz2bz_kk_s2 (kk self') = Some s2 ∧
    (l2 ← ibz_kk_s2_weight (kk self'); h' !! l2) = Some w_s2 ∧
    length W = length R ∧ length w_s2 = length s2 ∧
    ∀ t r, s2 !! t = Some r →
      ∃ p a x, R !! p = Some r ∧ W !! p = Some a ∧ w_s2 !! t = Some x ∧
        x = if negb (r / 4 =? r mod 4) && Py.mem (swapz 4 r) R
            then (a * 2)%float else a.
Proof.
  apply (s2_weight_rule Example.env [] (Example.reduced Example.mesh4 true true)
           [[0; 0]; [1; 3]; [2; 2]; [3; 1]] 2).
  - vm_compute. reflexivity.
  - apply example_table_wf.
  - apply example_action_table.
  - vm_compute. lia.
  - vm_compute. reflexivity.
Defined.

Lemma transform_mo_coeff_k_cases_witness :
  (is_eye Example.inversion = true → 0 = 0 →
     transform_mo_coeff_k Example.env (Example.reduced Example.mesh4 true true)
       Example.mo4 1 = Some [[(1, 1)]]%Q) ∧
  (is_eye Example.inversion = true → 0 ≠ 0 →
     transform_mo_coeff_k Example.env (Example.reduced Example.mesh4 true true)
       Example.mo4 1 = Some (conj [[(1, 1)]]%Q)) ∧
  (is_eye Example.inversion = false → is_inversion Example.inversion = true →
     transform_mo_coeff_k Example.env (Example.reduced Example.mesh4 true true)
       Example.mo4 1 = Some (conj [[(1, 1)]]%Q)).
Proof.
  apply (transform_mo_coeff_k_cases Example.env (Example.reduced Example.mesh4 true true)
           Example.mo4 1 2 1 0 [[0; 0; 0]; [1 # 2; 0; 0]; [3 # 4; 0; 0]]%Q
           [3 # 4; 0; 0]%Q Example.inversion [[(1, 1)]]%Q);
    vm_compute; reflexivity.
Defined.


Lemma make_gdf_kptij_lst_jk_spec_witness :
  make_gdf_kptij_lst_jk (Example.reduced Example.mesh2 true false)
  = Some (gdf_pairs (Example.reduced Example.mesh2 true false)).
Proof.
  apply (make_gdf_kptij_lst_jk_spec (Example.reduced Example.mesh2 true false));
    vm_compute; reflexivity.
Defined.

Lemma build_time_reversal_witness :
  sym (Example.reduced Example.mesh4 true true)
    = Symmetry_build Example.env (sym (Example.fresh Example.mesh4)) true false ∧
  time_reversal (Example.reduced Example.mesh4 true true)
    = true && negb (has_inversion (sym (Example.reduced Example.mesh4 true true))) ∧
  (time_reversal (Example.reduced Example.mesh4 true true) = true ↔
     true = true ∧ has_inversion (sym (Example.reduced Example.mesh4 true true)) = false) ∧
  ∃ c ks, cell (sym (Example.reduced Example.mesh4 true true)) = Some c ∧ _built c = true ∧
          kpts_scaled (Example.reduced Example.mesh4 true true) = Some ks ∧
          k2opk (Example.reduced Example.mesh4 true true)
            = Some (map_k_points_fast Example.env ks
                      (op_rot_of Example.env c (Example.reduced Example.mesh4 true true))
                      KPTS_DIFF_TOL) ∧
          (has_inversion (sym (Example.reduced Example.mesh4 true true)) = true →
             op_rot_of Example.env c (Example.reduced Example.mesh4 true true)
             = map (a2b_rot Example.env c)
                   (ops (sym (Example.reduced Example.mesh4 true true)))).
Proof.
  apply (build_time_reversal Example.env [] [] (Example.fresh Example.mesh4)
           (Example.reduced Example.mesh4 true true) true true false false).
  vm_compute. reflexivity.
Defined.

Lemma permutation_step_leaves_unreduced_witness :
  ∃ h2 self2,
    make_kpairs_ibz Example.env [] (Example.reduced Example.mesh4 true true) true
      = Some (h2, self2) ∧
    ∃ h1 self1 lw w,
      make_kpairs_ibz Example.env [] (Example.reduced Example.mesh4 true true) false
        = Some (h1, self1) ∧
      permutation_step h1 self1 = Some (h2, self2) ∧
      ibz2bz_kk (kk self2) = ibz2bz_kk (kk self1) ∧
      bz2ibz_kk (kk self2) = bz2ibz_kk (kk self1) ∧
      ibz_kk_weight (kk self1) = Some lw ∧ ibz_kk_weight (kk self2) = Some lw ∧
      h1 !! lw = Some w ∧ h2 !! lw = Some w ∧
      kk_group (kk self2) = kk_group (kk self1) ∧
      kk_sym_group (kk self2) = kk_sym_group (kk self1) ∧
      (∀ l : nat, (l < length h1)%nat → h2 !! l = h1 !! l) ∧
      is_Some (ibz2bz_kk_s2 (kk self2)) ∧
      ibz_kk_s2_weight (kk self2) = Some (length h1) ∧
      lw ≠ length h1 ∧ length h2 = S (length h1) ∧
      (sym self2 = sym self1 ∧ verbose self2 = verbose self1 ∧
       time_reversal self2 = time_reversal self1 ∧
       kpts self2 = kpts self1 ∧ kpts_ibz self2 = kpts_ibz self1 ∧
       kpts_scaled self2 = kpts_scaled self1 ∧
       kpts_scaled_ibz self2 = kpts_scaled_ibz self1 ∧
       weights self2 = weights self1 ∧ weights_ibz self2 = weights_ibz self1 ∧
       ibz2bz self2 = ibz2bz self1 ∧ bz2ibz self2 = bz2ibz self1 ∧
       k2opk self2 = k2opk self1 ∧ stars self2 = stars self1 ∧
       stars_ops self2 = stars_ops self1 ∧ stars_ops_bz self2 = stars_ops_bz self1 ∧
       time_reversal_symm_bz self2 = time_reversal_symm_bz self1 ∧
       _nkpts self2 = _nkpts self1 ∧ _nkpts_ibz self2 = _nkpts_ibz self1).
Proof.
  eexists _, _. split; [vm_compute; reflexivity|].
  apply (permutation_step_leaves_unreduced Example.env []).
  vm_compute. reflexivity.
Defined.

(** * Transport of occupations and energies *)

Lemma mapM_seq_lookup {A} (f : nat → option A) (n : nat) (l : list A) :
  mapM f (seq 0 n) = Some l ↔ length l = n ∧ ∀ k, (k < n)%nat → l !! k = f k ∧ is_Some (f k).
Proof.
  rewrite mapM_Some. split.
  - intros H. pose proof (Forall2_length _ _ _ H) as Hl. rewrite length_seq in Hl.
    split; [done|]. intros k Hk.
    destruct (Forall2_lookup_l _ _ _ k k H) as (y & Hy & Hf).
    { apply lookup_seq. lia. }
    rewrite Hy, Hf. split; [done|by eexists].
  - intros [Hl H]. apply Forall2_same_length_lookup_2; [by rewrite length_seq|].
    intros i x y Hx Hy. apply lookup_seq in Hx as [-> Hi].
    destruct (H i Hi) as [Hf _]. change (0 + i)%nat with i. by rewrite <- Hf.
Qed.

Lemma mapM_seq_some {A} (f : nat → option A) (n : nat) :
  is_Some (mapM f (seq 0 n)) ↔ ∀ k, (k < n)%nat → is_Some (f k).
Proof.
  rewrite mapM_is_Some, Forall_forall. split.
  - intros H k Hk. apply H, elem_of_seq. lia.
  - intros H k Hk%elem_of_seq. apply H. lia.
Qed.

Lemma probe_restricted {B} (x : list (list B)) :
  is_Some (probe (Restricted x)) ↔ ∃ first v, x !! 0%nat = Some first ∧ first !! 0%nat = Some v.
Proof.
  unfold probe. change 0 with (Z.of_nat 0). rewrite !get_of_nat. split.
  - intros [b Hb]. destruct (x !! 0%nat) as [first|] eqn:E1; simpl in Hb; [|done].
    rewrite get_of_nat in Hb.
    destruct (first !! 0%nat) as [v|] eqn:E2; simpl in Hb; [|done]. by exists first, v.
  - intros (first & v & -> & Hv). simpl. rewrite get_of_nat, Hv. by eexists.
Qed.

(** when [transform_mo_occ] returns on a restricted input *)
Lemma transform_mo_occ_runs (self : KPoints) (x : list fvec) :
  is_Some (transform_mo_occ self (Restricted x)) ↔
  (∃ first v, x !! 0%nat = Some first ∧ first !! 0%nat = Some v) ∧
  ∀ k, (k < _nkpts self)%nat →
    ∃ i, Py.get (bz2ibz self) (Z.of_nat k) = Some i ∧ is_Some (Py.get x i).
Proof.
  unfold transform_mo_occ. split.
  - intros [out H]. destruct (probe (Restricted x)) as [b|] eqn:Ep; simpl in H; [|done].
    split; [apply probe_restricted; by eexists|].
    destruct (mapM _ _) as [occ|] eqn:Em; simpl in H; [|done].
    assert (Hs : is_Some (mapM (λ k, ibz_k_idx ← Py.get (bz2ibz self) (Z.of_nat k);
                                     Py.get x ibz_k_idx) (seq 0 (_nkpts self))))
      by (by eexists).
    intros k Hk. pose proof (proj1 (mapM_seq_some _ _) Hs k Hk) as [v Hv].
    destruct (Py.get (bz2ibz self) (Z.of_nat k)) as [i|]; simpl in Hv; [|done].
    exists i. split; [done|by eexists].
  - intros [Hp H]. apply probe_restricted in Hp as [b Hb].
    change (probe (Restricted x) = Some b) in Hb. rewrite Hb. simpl.
    assert (Hs : is_Some (mapM (λ k, ibz_k_idx ← Py.get (bz2ibz self) (Z.of_nat k);
                                     Py.get x ibz_k_idx) (seq 0 (_nkpts self)))).
    { apply mapM_seq_some. intros k Hk. destruct (H k Hk) as (i & -> & Hi). done. }
    destruct Hs as [occ ->]. by eexists.
Qed.

(** X1: on a restricted input [transform_mo_occ] returns a result exactly
    when the input has a first entry with a first element, which the layout
    test [mo_occ_ibz[0][0]] reads, and every [bz2ibz[k]] with [k < nkpts]
    is a valid index into the input; otherwise it raises. *)
Theorem transform_mo_occ_defined (self : KPoints) (x : list fvec) :
  is_Some (transform_mo_occ self (Restricted x)) ↔
  (∃ first v, x !! 0%nat = Some first ∧ first !! 0%nat = Some v) ∧
  ∀ k, (k < _nkpts self)%nat →
    ∃ i, Py.get (bz2ibz self) (Z.of_nat k) = Some i ∧ is_Some (Py.get x i).
Proof. apply transform_mo_occ_runs. Qed.

(** the entries of the result of [transform_mo_occ] *)
Lemma transform_mo_occ_entries (self : KPoints) (mo_occ_ibz out : spin fvec) :
  transform_mo_occ self mo_occ_ibz = Some out →
  match mo_occ_ibz, out with
  | Restricted x, Restricted occ =>
      length occ = _nkpts self ∧
      ∀ k, (k < _nkpts self)%nat →
        ∃ i v, Py.get (bz2ibz self) (Z.of_nat k) = Some i ∧ Py.get x i = Some v ∧
               occ !! k = Some v
  | Unrestricted a b, Unrestricted occ_a occ_b =>
      length occ_a = _nkpts self ∧ length occ_b = _nkpts self ∧
      ∀ k, (k < _nkpts self)%nat →
        ∃ i va vb, Py.get (bz2ibz self) (Z.of_nat k) = Some i ∧
                   Py.get a i = Some va ∧ Py.get b i = Some vb ∧
                   occ_a !! k = Some va ∧ occ_b !! k = Some vb
  | _, _ => False
  end.
Proof.
  unfold transform_mo_occ. intros H.
  destruct (probe mo_occ_ibz) as [u|]; simpl in H; [|done].
  destruct mo_occ_ibz as [x|a b].
  - destruct (mapM _ _) as [occ|] eqn:Em; simpl in H; [|done]. injection H as <-.
    apply mapM_seq_lookup in Em as [Hl Hv]. split; [done|]. intros k Hk.
    destruct (Hv k Hk) as [Hk1 [v Hk2]].
    destruct (Py.get (bz2ibz self) (Z.of_nat k)) as [i|]; simpl in *; [|done].
    exists i, v. split; [done|]. split; [done|]. by rewrite Hk1.
  - destruct (mapM _ _) as [occ|] eqn:Em; simpl in H; [|done]. injection H as <-.
    apply mapM_seq_lookup in Em as [Hl Hv].
    split; [by rewrite length_map|]. split; [by rewrite length_map|]. intros k Hk.
    destruct (Hv k Hk) as [Hk1 [[va vb] Hk2]].
    destruct (Py.get (bz2ibz self) (Z.of_nat k)) as [i|]; simpl in *; [|done].
    destruct (Py.get a i) as [va'|] eqn:Ea; simpl in *; [|done].
    destruct (Py.get b i) as [vb'|] eqn:Eb; simpl in *; [|done].
    injection Hk2 as -> ->. exists i, va, vb.
    split; [done|]. split; [done|]. split; [done|].
    change (map fst occ) with (fst <$> occ). change (map snd occ) with (snd <$> occ).
    rewrite !list_lookup_fmap, Hk1. done.
Qed.

(** X2: [transform_mo_occ] keeps the layout and fills entry [k] of every
    spin channel with the entry [bz2ibz[k]] of the input. *)
Theorem transform_mo_occ_gathers (self : KPoints) (mo_occ_ibz out : spin fvec) :
  transform_mo_occ self mo_occ_ibz = Some out →
  match mo_occ_ibz, out with
  | Restricted x, Restricted occ =>
      length occ = _nkpts self ∧
      ∀ k, (k < _nkpts self)%nat →
        ∃ i v, Py.get (bz2ibz self) (Z.of_nat k) = Some i ∧ Py.get x i = Some v ∧
               occ !! k = Some v
  | Unrestricted a b, Unrestricted occ_a occ_b =>
      length occ_a = _nkpts self ∧ length occ_b = _nkpts self ∧
      ∀ k, (k < _nkpts self)%nat →
        ∃ i va vb, Py.get (bz2ibz self) (Z.of_nat k) = Some i ∧
                   Py.get a i = Some va ∧ Py.get b i = Some vb ∧
                   occ_a !! k = Some va ∧ occ_b !! k = Some vb
  | _, _ => False
  end.
Proof. apply transform_mo_occ_entries. Qed.

Lemma differ_irrefl (tol : f64) (a : fvec) :
  PrimFloat.ltb 0 tol = true → Forall (λ x, PrimFloat.is_finite x = true) a →
  ¬ differ tol a a.
Proof.
  intros Ht Ha (e & x & y & Hx & Hy & Hd). rewrite Hx in Hy. injection Hy as <-.
  pose proof (Forall_lookup_1 _ _ _ _ Ha Hx) as Hfin. simpl in Hfin.
  rewrite (f64_sub_self_close x tol Hfin Ht) in Hd. done.
Qed.

(** X3: finite occupations spread over the zone by [transform_mo_occ] pass
    [check_mo_occ_symmetry] for a positive tolerance, and the check hands
    back the occupations of the representatives it started from. *)
Theorem check_after_transform (E : Env) (self : KPoints) (occ_ibz : list fvec) (tol : f64) :
  env_ok E → ready self → stars self = [] → group_closed E self →
  PrimFloat.ltb 0 tol = true →
  Forall (Forall (λ x, PrimFloat.is_finite x = true)) occ_ibz →
  (∃ first v, occ_ibz !! 0%nat = Some first ∧ first !! 0%nat = Some v) →
  ∃ self', make_kpts_ibz E self = Some self' ∧
    (length occ_ibz = _nkpts_ibz self' →
     ∃ occ_bz, transform_mo_occ self' (Restricted occ_ibz) = Some (Restricted occ_bz) ∧
               length occ_bz = _nkpts self' ∧
               check_mo_occ_symmetry self' occ_bz tol = Ok occ_ibz).
Proof.
  intros HE Hready Hfresh Hgrp Htol Hfin Hfirst.
  destruct (make_kpts_ibz_classes E self HE Hready Hgrp)
    as (self' & T & counts & Hrun & _ & Hn & Hl & _ & Hidx & Hrep & Hnibz & Hstars & _).
  rewrite Hfresh in Hstars. simpl in Hstars.
  exists self'. split; [done|]. intros Hlen. rewrite Hnibz in Hlen.
  (* the transport is defined *)
  assert (Hdef : ∀ k, (k < _nkpts self')%nat →
            ∃ i : nat, Py.get (bz2ibz self') (Z.of_nat k) = Some (Z.of_nat i) ∧
                       (i < length occ_ibz)%nat).
  { intros k Hk. rewrite Hn in Hk. destruct (Hidx k Hk) as (i & Hi & Hlt).
    exists i. rewrite get_of_nat. split; [done|lia]. }
  destruct (proj2 (transform_mo_occ_runs self' occ_ibz)) as [out Hout].
  { split; [done|]. intros k Hk. destruct (Hdef k Hk) as (i & Hi & Hlt).
    exists (Z.of_nat i). split; [done|]. rewrite get_of_nat. by apply lookup_lt_is_Some_2. }
  pose proof (transform_mo_occ_entries self' _ _ Hout) as Hg.
  destruct out as [occ_bz|]; [|done]. destruct Hg as [Hlo Hv].
  exists occ_bz. split; [done|]. split; [done|].
  assert (Hocc : ∀ k i : nat, bz2ibz self' !! k = Some (Z.of_nat i) →
            occ_bz !! k = occ_ibz !! i ∧ is_Some (occ_bz !! k)).
  { intros k i Hk. pose proof (lookup_lt_Some _ _ _ Hk) as Hkn. rewrite Hl, <- Hn in Hkn.
    destruct (Hv k Hkn) as (i' & v & Hi' & Hx & Ho).
    rewrite get_of_nat, Hk in Hi'. injection Hi' as <-. rewrite get_of_nat in Hx.
    rewrite Ho, Hx. split; [done|by eexists]. }
  (* two members of one orbit carry the same vector *)
  assert (Hsame : ∀ star ki kj a b, star ∈ stars self' → ki ∈ star → kj ∈ star →
            Py.get occ_bz ki = Some a → Py.get occ_bz kj = Some b → a = b ∧ a ∈ occ_ibz).
  { intros star ki kj a b Hin Hki Hkj Ha Hb.
    rewrite Hstars in Hin. apply list_elem_of_fmap in Hin as (i0 & -> & _).
    apply where_elem in Hki as (k1 & y1 & -> & Hk1 & He1).
    apply where_elem in Hkj as (k2 & y2 & -> & Hk2 & He2).
    apply Z.eqb_eq in He1, He2. subst y1 y2.
    rewrite get_of_nat in Ha, Hb.
    destruct (Hocc _ _ Hk1) as [H1 _]. destruct (Hocc _ _ Hk2) as [H2 _].
    split; [congruence|]. rewrite H1 in Ha. by eapply list_elem_of_lookup_2. }
  unfold check_mo_occ_symmetry.
  assert (Hst : check_stars occ_bz tol (stars self') = Ok tt).
  { destruct (check_stars_spec occ_bz tol (stars self'))
      as [[Hok _]|[_ (star & i & j & Hin & _ & Hbad)]]; [| |done|exfalso].
    - apply Forall_forall. intros star Hin ki kj a b Hki Hkj Ha Hb.
      by destruct (Hsame star ki kj a b Hin Hki Hkj Ha Hb) as [-> _].
    - rewrite Hstars. apply Forall_forall. intros star (i & -> & _)%list_elem_of_fmap.
      apply Forall_forall. intros z (k & y & -> & Hk & _)%where_elem.
      apply lookup_lt_Some in Hk. lia.
    - destruct Hbad as (ki & kj & a & b & Hki & Hkj & Ha & Hb & Hd).
      apply list_elem_of_lookup_2 in Hki, Hkj.
      destruct (Hsame star ki kj a b Hin Hki Hkj Ha Hb) as [<- Ha'].
      apply (differ_irrefl tol a Htol); [|done].
      by apply (proj1 (Forall_forall _ _) Hfin). }
  rewrite Hst. simpl.
  assert (Hm : mapM (λ k, r ← Py.get (ibz2bz self') (Z.of_nat k); Py.get occ_bz r)
                    (seq 0 (_nkpts_ibz self')) = Some occ_ibz).
  { apply mapM_seq_lookup. split; [by rewrite Hnibz|]. intros i Hi. rewrite Hnibz in Hi.
    destruct (lookup_lt_is_Some_2 (ibz2bz self') i Hi) as [r Hr].
    rewrite get_of_nat, Hr. simpl. pose proof (Hrep _ _ Hr) as Hb.
    assert (Hrr : 0 ≤ r).
    { destruct (Z.le_gt_cases 0 r); [done|]. exfalso.
      unfold Py.get in Hb. destruct (Py.index _ r) as [j|] eqn:Ej; simpl in Hb; [|done].
      (* a negative representative would be a wrapped index *)
      destruct (make_kpts_ibz_run E self HE Hready)
        as (c & ks & self2 & x & counts2 & _ & _ & Hrun2 & _ & _ & _ & Hrange & _).
      rewrite Hrun in Hrun2. injection Hrun2 as <-.
      pose proof (Forall_lookup_1 _ _ _ _ Hrange Hr) as Hr'. simpl in Hr'. lia. }
    remember (Z.to_nat r) as r' eqn:Er'. assert (r = Z.of_nat r') as -> by lia.
    rewrite get_of_nat in Hb. rewrite get_of_nat.
    destruct (Hocc _ _ Hb) as [-> _].
    split; [done|]. apply lookup_lt_is_Some_2. lia. }
  rewrite Hm. done.
Qed.

(** X4: before [build] there are no orbits to compare, so
    [check_mo_occ_symmetry] accepts any occupations and returns them as they
    are. *)
Theorem check_before_build (E : Env) (c : option Cell) (ks : list vec) (self : KPoints)
    (mo_occ : list fvec) (tol : f64) :
  KPoints_init E c ks = Some self → length mo_occ = length ks →
  check_mo_occ_symmetry self mo_occ tol = Ok mo_occ.
Proof.
  unfold KPoints_init. intros H Hl. destruct (_ =? _)%nat; [done|]. injection H as <-.
  unfold check_mo_occ_symmetry. simpl.
  assert (Hm : mapM (λ k : nat, r ← Py.get (Py.arange (length ks)) (Z.of_nat k);
                                Py.get mo_occ r) (seq 0 (length ks)) = Some mo_occ).
  { apply mapM_seq_lookup. split; [done|]. intros k Hk.
    rewrite get_of_nat. unfold Py.arange. rewrite list_lookup_fmap.
    rewrite (proj2 (lookup_seq 0 (length ks) k k)) by (split; [done|lia]). simpl.
    rewrite get_of_nat. split; [done|]. apply lookup_lt_is_Some_2. lia. }
  by rewrite Hm.
Qed.

(** * Transport of coefficients over the whole zone *)

(** the body of the loop of [transform_mo_coeff] is [transform_mo_coeff_k] *)
Lemma transform_mo_coeff_k_unfold (E : Env) (self : KPoints) (x : list cmat) (k : Z) :
  transform_mo_coeff_k E self x k =
  (ibz_k_idx ← Py.get (bz2ibz self) k;
   ks_ibz ← kpts_scaled_ibz self;
   ibz_k_scaled ← Py.get ks_ibz ibz_k_idx;
   iop ← Py.get (stars_ops_bz self) k;
   op ← Py.get (ops (sym self)) iop;
   time_reversal_k ← Py.get (time_reversal_symm_bz self) k;
   mo_coeff ← Py.get x ibz_k_idx;
   _transform E self ibz_k_scaled time_reversal_k mo_coeff iop op).
Proof. reflexivity. Qed.

(** X5: in the restricted layout [transform_mo_coeff] is
    [transform_mo_coeff_k] at every index of the zone: it is defined exactly
    when the dispatch and every single transport are, and its entry [k] is
    the single transport to [k]. *)
Theorem transform_mo_coeff_pointwise (E : Env) (self : KPoints) (x : list cmat) :
  (is_Some (transform_mo_coeff E self (Restricted x)) ↔
   is_Some (probe (Restricted x)) ∧
   ∀ k, (k < _nkpts self)%nat → is_Some (transform_mo_coeff_k E self x (Z.of_nat k))) ∧
  ∀ out, transform_mo_coeff E self (Restricted x) = Some out →
    ∃ mos, out = Restricted mos ∧ length mos = _nkpts self ∧
      ∀ k, (k < _nkpts self)%nat →
        mos !! k = transform_mo_coeff_k E self x (Z.of_nat k).
Proof.
  unfold transform_mo_coeff. split; [split|].
  - intros [out H]. destruct (probe (Restricted x)) as [u|]; simpl in H; [|done].
    split; [by eexists|].
    destruct (mapM _ _) as [mos|] eqn:Em; simpl in H; [|done].
    apply mapM_seq_lookup in Em as [_ Hv]. intros k Hk.
    rewrite transform_mo_coeff_k_unfold. by destruct (Hv k Hk) as [_ ?].
  - intros [[u Hu] H]. rewrite Hu. simpl.
    assert (Hs : is_Some (mapM (λ k, transform_mo_coeff_k E self x (Z.of_nat k))
                               (seq 0 (_nkpts self))))
      by (by apply mapM_seq_some).
    destruct Hs as [mos Hm].
    change (mapM (λ k, transform_mo_coeff_k E self x (Z.of_nat k)) (seq 0 (_nkpts self)))
      with (mapM (λ k,
                   ibz_k_idx ← Py.get (bz2ibz self) (Z.of_nat k);
                   ks_ibz ← kpts_scaled_ibz self;
                   ibz_k_scaled ← Py.get ks_ibz ibz_k_idx;
                   iop ← Py.get (stars_ops_bz self) (Z.of_nat k);
                   op ← Py.get (ops (sym self)) iop;
                   time_reversal_k ← Py.get (time_reversal_symm_bz self) (Z.of_nat k);
                   mo_coeff ← Py.get x ibz_k_idx;
                   _transform E self ibz_k_scaled time_reversal_k mo_coeff iop op)
                 (seq 0 (_nkpts self))) in Hm.
    rewrite Hm. by eexists.
  - intros out H. destruct (probe (Restricted x)) as [u|]; simpl in H; [|done].
    destruct (mapM _ _) as [mos|] eqn:Em; simpl in H; [|done]. injection H as <-.
    exists mos. split; [done|]. apply mapM_seq_lookup in Em as [Hl Hv].
    split; [done|]. intros k Hk. rewrite transform_mo_coeff_k_unfold.
    by destruct (Hv k Hk) as [? _].
Qed.

(** X6: in the unrestricted layout every spin channel is transported as
    the restricted function transports it alone. *)
Theorem transform_mo_coeff_channels (E : Env) (self : KPoints) (a b : list cmat)
    (out : spin cmat) :
  transform_mo_coeff E self (Unrestricted a b) = Some out →
  ∃ ma mb, out = Unrestricted ma mb ∧
    length ma = _nkpts self ∧ length mb = _nkpts self ∧
    ∀ k, (k < _nkpts self)%nat →
      ma !! k = transform_mo_coeff_k E self a (Z.of_nat k) ∧
      mb !! k = transform_mo_coeff_k E self b (Z.of_nat k) ∧
      is_Some (ma !! k) ∧ is_Some (mb !! k).
Proof.
  unfold transform_mo_coeff. intros H.
  destruct (probe (Unrestricted a b)) as [u|]; simpl in H; [|done].
  destruct (mapM _ _) as [mos|] eqn:Em; simpl in H; [|done]. injection H as <-.
  exists (map fst mos), (map snd mos). split; [done|].
  apply mapM_seq_lookup in Em as [Hl Hv].
  split; [by rewrite length_map|]. split; [by rewrite length_map|].
  intros k Hk. destruct (Hv k Hk) as [Hk1 [[va vb] Hk2]].
  change (map fst mos) with (fst <$> mos). change (map snd mos) with (snd <$> mos).
  rewrite !list_lookup_fmap, Hk1, Hk2. simpl.
  rewrite !transform_mo_coeff_k_unfold.
  destruct (Py.get (bz2ibz self) (Z.of_nat k)) as [i|]; simpl in *; [|done].
  destruct (kpts_scaled_ibz self) as [ks_ibz|]; simpl in *; [|done].
  destruct (Py.get ks_ibz i) as [ibz_k|]; simpl in *; [|done].
  destruct (Py.get (stars_ops_bz self) (Z.of_nat k)) as [iop|]; simpl in *; [|done].
  destruct (Py.get (ops (sym self)) iop) as [op|]; simpl in *; [|done].
  destruct (Py.get (time_reversal_symm_bz self) (Z.of_nat k)) as [t|]; simpl in *; [|done].
  destruct (Py.get a i) as [ca|]; simpl in *; [|done].
  destruct (_transform E self ibz_k t ca iop op) as [ma|]; simpl in *; [|done].
  destruct (Py.get b i) as [cb|]; simpl in *; [|done].
  destruct (_transform E self ibz_k t cb iop op) as [mb|]; simpl in *; [|done].
  injection Hk2 as <- <-. repeat split; by eexists.
Qed.

(** ** Indices outside [0 .. nkpts-1] *)

Lemma get_wrap {A} (l : list A) (k : Z) :
  - Z.of_nat (length l) ≤ k < 0 → Py.get l k = Py.get l (k + Z.of_nat (length l)).
Proof.
  intros Hk. unfold Py.get, Py.index.
  replace (0 <=? k) with false by (symmetry; apply Z.leb_gt; lia).
  replace (- Z.of_nat (length l) <=? k) with true by (symmetry; apply Z.leb_le; lia).
  replace (k <? 0) with true by (symmetry; apply Z.ltb_lt; lia).
  replace (0 <=? k + Z.of_nat (length l)) with true by (symmetry; apply Z.leb_le; lia).
  replace (k + Z.of_nat (length l) <? Z.of_nat (length l)) with true
    by (symmetry; apply Z.ltb_lt; lia).
  done.
Qed.

Lemma get_out_of_range {A} (l : list A) (k : Z) :
  k < - Z.of_nat (length l) ∨ Z.of_nat (length l) ≤ k → Py.get l k = None.
Proof.
  intros Hk. unfold Py.get, Py.index.
  destruct (Z.leb_spec 0 k), (Z.ltb_spec k (Z.of_nat (length l))),
    (Z.leb_spec (- Z.of_nat (length l)) k), (Z.ltb_spec k 0); simpl; try done; lia.
Qed.

(** X7: [transform_mo_coeff_k] follows Python's indexing: an index in
    [-nkpts .. -1] addresses the point [k + nkpts], and an index outside
    [-nkpts .. nkpts-1] raises. *)
Theorem transform_mo_coeff_k_index (E : Env) (self : KPoints) (mo_coeff_ibz : list cmat)
    (k : Z) :
  length (bz2ibz self) = _nkpts self →
  length (stars_ops_bz self) = _nkpts self →
  length (time_reversal_symm_bz self) = _nkpts self →
  (- Z.of_nat (_nkpts self) ≤ k < 0 →
     transform_mo_coeff_k E self mo_coeff_ibz k
     = transform_mo_coeff_k E self mo_coeff_ibz (k + Z.of_nat (_nkpts self))) ∧
  (k < - Z.of_nat (_nkpts self) ∨ Z.of_nat (_nkpts self) ≤ k →
     transform_mo_coeff_k E self mo_coeff_ibz k = None).
Proof.
  intros H1 H2 H3. split; intros Hk.
  - rewrite !transform_mo_coeff_k_unfold.
    rewrite (get_wrap (bz2ibz self) k), (get_wrap (stars_ops_bz self) k),
      (get_wrap (time_reversal_symm_bz self) k) by lia.
    by rewrite H1, H2, H3.
  - rewrite transform_mo_coeff_k_unfold.
    rewrite (get_out_of_range (bz2ibz self) k) by lia. done.
Qed.

(** * The object before and after the reduction *)

(** X8: [KPoints(cell, kpts)] raises on an empty array of points; otherwise
    every point is its own orbit: both index maps are the identity, every
    weight is the binary64 quotient [1.0 / nkpts], the two weight arrays
    are the same, and nothing is reduced yet. *)
Theorem KPoints_init_trivial_orbits (E : Env) (c : option Cell) (ks : list vec) :
  (ks = [] → KPoints_init E c ks = None) ∧
  (ks ≠ [] →
   ∃ self, KPoints_init E c ks = Some self ∧
     _nkpts self = length ks ∧ _nkpts_ibz self = length ks ∧
     kpts_ibz self = ks ∧ weights_ibz self = weights self ∧
     length (weights self) = length ks ∧
     (∀ k w, weights self !! k = Some w →
        w = (1 / f64_of_Z (Z.of_nat (length ks)))%float) ∧
     (∀ k, (k < length ks)%nat →
        bz2ibz self !! k = Some (Z.of_nat k) ∧ ibz2bz self !! k = Some (Z.of_nat k)) ∧
     k2opk self = None ∧ stars self = [] ∧ time_reversal self = false).
Proof.
  split.
  - intros ->. reflexivity.
  - intros Hne. unfold KPoints_init.
    destruct ks as [|k0 ks']; [done|]. remember (k0 :: ks') as ks eqn:Eks.
    assert (Hpos : (0 < length ks)%nat) by (subst ks; simpl; lia).
    replace (length ks =? 0)%nat with false by (symmetry; apply Nat.eqb_neq; lia).
    eexists. split; [reflexivity|]. simpl.
    split; [done|]. split; [done|]. split; [done|]. split; [done|].
    split; [by rewrite length_replicate|]. split.
    { intros k w [-> _]%lookup_replicate. done. }
    split; [|done]. intros k Hk. unfold Py.arange. rewrite list_lookup_fmap.
    rewrite (proj2 (lookup_seq 0 (length ks) k k)) by (split; [done|lia]). done.
Qed.

(** ** Representatives *)

Lemma filter_seq_bound (p : nat → bool) (n i a : nat) :
  List.filter p (seq 0 n) !! i = Some a → (a < n)%nat.
Proof.
  intros H. apply list_elem_of_lookup_2, list_elem_of_In, filter_In in H as [H _].
  apply in_seq in H. lia.
Qed.

Lemma filter_seq_increasing (p : nat → bool) (n : nat) : ∀ i j a b,
  (i < j)%nat → List.filter p (seq 0 n) !! i = Some a →
  List.filter p (seq 0 n) !! j = Some b → (a < b)%nat.
Proof.
  induction n as [|n IH]; intros i j a b Hij Hi Hj; [done|].
  rewrite seq_S, List.filter_app in Hi, Hj. simpl in Hi, Hj.
  set (l := List.filter p (seq 0 n)) in *.
  destruct (decide (j < length l)%nat) as [Hjl|Hjl].
  - rewrite lookup_app_l in Hi, Hj by lia. exact (IH i j a b Hij Hi Hj).
  - rewrite lookup_app_r in Hj by lia.
    destruct (p n); [|by rewrite lookup_nil in Hj].
    apply list_lookup_singleton_Some in Hj as [Hj0 <-].
    assert (Hil : (i < length l)%nat) by lia.
    rewrite lookup_app_l in Hi by done. by eapply filter_seq_bound.
Qed.

Lemma make_kpts_ibz_tops (E : Env) (self : KPoints) :
  env_ok E → ready self → group_closed E self →
  ∃ self' T nops,
    make_kpts_ibz E self = Some self' ∧ k2opk self' = Some T ∧
    table_wf (_nkpts self) nops T ∧
    _nkpts self' = _nkpts self ∧
    length (bz2ibz self') = _nkpts self ∧
    ibz2bz self' = map Z.of_nat (List.filter (is_top T) (seq 0 (_nkpts self))) ∧
    (∀ j, (j < _nkpts self)%nat →
       ∃ i r, bz2ibz self' !! j = Some (Z.of_nat i) ∧
              List.filter (is_top T) (seq 0 (_nkpts self)) !! i = Some r ∧
              reach T r j ∧ is_top T r = true) ∧
    (∀ i r, List.filter (is_top T) (seq 0 (_nkpts self)) !! i = Some r →
            bz2ibz self' !! r = Some (Z.of_nat i)) ∧
    stars self' =
      stars self ++ map (λ i : nat, Py.where_ (Z.eqb (Z.of_nat i)) (bz2ibz self'))
                        (seq 0 (length (ibz2bz self'))).
Proof.
  intros HE Hready Hgrp.
  destruct (make_kpts_ibz_run E self HE Hready)
    as (c & ks & self' & x & counts & Hc & Hks & Hrun & Hwf & Hoi & Hl & _ & _ & Hk2 &
        _ & _ & _ & Hstars & Hn & _).
  specialize (Hgrp c ks Hc Hks). simpl in Hwf, Hoi, Hk2.
  set (T := map_k_points_fast E ks (op_rot_of E c self) KPTS_DIFF_TOL) in *.
  set (nops := length (op_rot_of E c self)) in *.
  destruct (orbit_index_classes id (λ _, Some tt) T (_nkpts self) (np_empty E 63 (_nkpts self)))
    as (b' & x' & Hoi' & _ & Hb & _ & _ & Hrep).
  { apply Hwf. } { by eapply table_wf_rows. } { done. } { apply visit_tt. }
  { apply np_empty_length. }
  { apply (group_refl (_nkpts self) nops T Hwf Hgrp). }
  { apply (group_sym (_nkpts self) nops T Hwf Hgrp). }
  { apply (group_trans (_nkpts self) nops T Hwf Hgrp). }
  rewrite Hoi in Hoi'. injection Hoi' as Hi2b <- <-.
  exists self', T, nops.
  split; [exact Hrun|]. split; [exact Hk2|]. split; [exact Hwf|]. split; [exact Hn|].
  split; [exact Hl|]. split; [exact Hi2b|]. split; [exact Hb|]. split; [exact Hrep|].
  exact Hstars.
Qed.

(** X10: the representative of an orbit is its member with the largest index:
    [ibz2bz] is strictly increasing, [bz2ibz[ibz2bz[i]] = i], and
    [ibz2bz[i]] belongs to [stars[i]] and bounds its members. *)
Theorem representatives_largest (E : Env) (self : KPoints) :
  env_ok E → ready self → stars self = [] → group_closed E self →
  ∃ self', make_kpts_ibz E self = Some self' ∧
    (∀ i r, ibz2bz self' !! i = Some r →
       Py.get (bz2ibz self') r = Some (Z.of_nat i) ∧
       ∃ star, stars self' !! i = Some star ∧ r ∈ star ∧ ∀ x, x ∈ star → x ≤ r) ∧
    (∀ i j r r', (i < j)%nat →
       ibz2bz self' !! i = Some r → ibz2bz self' !! j = Some r' → r < r').
Proof.
  intros HE Hready Hfresh Hgrp.
  destruct (make_kpts_ibz_tops E self HE Hready Hgrp)
    as (self' & T & nops & Hrun & _ & Hwf & Hn & Hl & Hi2b & Hb & Hrep & Hstars).
  rewrite Hfresh in Hstars. simpl in Hstars.
  set (tops := List.filter (is_top T) (seq 0 (_nkpts self))) in *.
  exists self'. split; [done|]. split.
  - intros i r Hi. rewrite Hi2b, list_lookup_fmap in Hi.
    destruct (tops !! i) as [t|] eqn:Et; [|done]. injection Hi as <-.
    pose proof (Hrep _ _ Et) as Hbt. rewrite get_of_nat. split; [done|].
    exists (Py.where_ (Z.eqb (Z.of_nat i)) (bz2ibz self')). split.
    { rewrite Hstars, list_lookup_fmap.
      rewrite (proj2 (lookup_seq 0 _ i i)); [done|]. split; [done|].
      rewrite Hi2b, length_map. by eapply lookup_lt_Some. }
    split.
    { apply where_elem. exists t, (Z.of_nat i). split; [done|]. split; [done|].
      apply Z.eqb_refl. }
    intros z (k & y & -> & Hk & He)%where_elem. apply Z.eqb_eq in He. subst y.
    pose proof (lookup_lt_Some _ _ _ Hk) as Hkn. rewrite Hl in Hkn.
    destruct (Hb k Hkn) as (i' & r' & Hi' & Hr' & Hreach & Htop).
    rewrite Hk in Hi'. injection Hi' as Hi'. apply Nat2Z.inj in Hi'. subst i'.
    rewrite Et in Hr'. injection Hr' as <-.
    assert (Htn : (t < _nkpts self)%nat) by (by eapply filter_seq_bound).
    pose proof (proj1 (is_top_spec T (_nkpts self) (proj1 Hwf) (table_wf_rows _ _ _ Hwf) t Htn)
                  Htop k Hreach). lia.
  - intros i j r r' Hij Hi Hj. rewrite Hi2b, list_lookup_fmap in Hi, Hj.
    destruct (tops !! i) as [a|] eqn:Ea; [|done]. injection Hi as <-.
    destruct (tops !! j) as [b|] eqn:Eb; [|done]. injection Hj as <-.
    pose proof (filter_seq_increasing _ _ _ _ _ _ Hij Ea Eb). lia.
Qed.

(** * What [make_kpts_ibz] writes, and what a second call does *)

Lemma connect_bz_length T op_rot nop_ ks ks_ibz b : ∀ rng st st',
  connect_bz T op_rot nop_ ks ks_ibz b rng st = Some st' →
  length (fst st') = length (fst st) ∧ length (snd st') = length (snd st).
Proof.
  induction rng as [|k rng IH]; intros st st' H; cbn [connect_bz] in H.
  - by injection H as <-.
  - destruct (Py.get ks (Z.of_nat k)) as [bz|]; simpl in H; [|done].
    destruct (Py.get b (Z.of_nat k)) as [i|]; simpl in H; [|done].
    destruct (Py.get ks_ibz i) as [ibz|]; simpl in H; [|done].
    destruct (find_op T bz ibz 0 op_rot) as [[io|]|]; simpl in H; [| |done].
    + destruct (nop_ =? 0); [done|].
      destruct (Py.set (fst st) _ _) as [trs|] eqn:E1; simpl in H; [|done].
      destruct (Py.set (snd st) _ _) as [sops|] eqn:E2; simpl in H; [|done].
      apply IH in H as [H1 H2]. simpl in H1, H2.
      apply set_length in E1, E2. split; congruence.
    + by apply IH.
Qed.

(** the fields [make_kpts_ibz] writes and those it keeps *)
Lemma make_kpts_ibz_fields (E : Env) (self self' : KPoints) :
  make_kpts_ibz E self = Some self' →
  (sym self' = sym self ∧ verbose self' = verbose self ∧
   time_reversal self' = time_reversal self ∧ kpts self' = kpts self ∧
   kpts_scaled self' = kpts_scaled self ∧ weights self' = weights self ∧
   _nkpts self' = _nkpts self ∧ kk self' = kk self) ∧
  length (stars_ops_bz self') = length (stars_ops_bz self) ∧
  length (time_reversal_symm_bz self') = length (time_reversal_symm_bz self) ∧
  ∃ c ks ks_ibz,
    cell (sym self) = Some c ∧ kpts_scaled self = Some ks ∧
    Py.take ks (ibz2bz self') = Some ks_ibz ∧
    kpts_scaled_ibz self' = Some ks_ibz ∧
    kpts_ibz self' = get_abs_kpts E c ks_ibz ∧
    _nkpts_ibz self' = length (kpts_ibz self').
Proof.
  unfold make_kpts_ibz. intros H.
  destruct (cell (sym self)) as [c|]; simpl in H; [|done].
  destruct (kpts_scaled self) as [ks|] eqn:Eks; simpl in H; [|done].
  destruct (orbit_index _ _ _ _ _) as [[[i2b b2i] x]|]; simpl in H; [|done].
  destruct (Py.bincount _); simpl in H; [|done].
  destruct (_ =? _)%nat; [done|].
  destruct (Py.take ks i2b) as [ks_ibz|] eqn:Et; simpl in H; [|done].
  destruct (connect_bz _ _ _ _ _ _ _ _) as [[trs sops]|] eqn:Ec; simpl in H; [|done].
  destruct (build_stars _ _ _ _ _ _ _ _) as [[st so]|]; simpl in H; [|done].
  injection H as <-. simpl. apply connect_bz_length in Ec as [H1 H2]. simpl in H1, H2.
  split; [by rewrite ?Eks|]. split; [done|]. split; [done|].
  exists c, ks, ks_ibz. by rewrite ?Eks.
Qed.

(** X11: [make_kpts_ibz] leaves the points of the zone, their weights, the
    symmetry state and the pair bookkeeping as they were; the points it
    keeps are the rows of [kpts_scaled] at the representatives, converted
    back by the cell, and [nkpts_ibz] is their number. *)
Theorem make_kpts_ibz_frame_effect (E : Env) (self self' : KPoints) :
  make_kpts_ibz E self = Some self' →
  (sym self' = sym self ∧ verbose self' = verbose self ∧
   time_reversal self' = time_reversal self ∧ kpts self' = kpts self ∧
   kpts_scaled self' = kpts_scaled self ∧ weights self' = weights self ∧
   _nkpts self' = _nkpts self ∧ kk self' = kk self) ∧
  length (stars_ops_bz self') = length (stars_ops_bz self) ∧
  length (time_reversal_symm_bz self') = length (time_reversal_symm_bz self) ∧
  ∃ c ks ks_ibz,
    cell (sym self) = Some c ∧ kpts_scaled self = Some ks ∧
    Py.take ks (ibz2bz self') = Some ks_ibz ∧
    kpts_scaled_ibz self' = Some ks_ibz ∧
    kpts_ibz self' = get_abs_kpts E c ks_ibz ∧
    _nkpts_ibz self' = length (kpts_ibz self').
Proof. apply make_kpts_ibz_fields. Qed.

(** X12: [make_kpts_ibz] appends to [stars]: a second call on the same
    object finds the same representatives and lists every orbit a second
    time, so [stars] ends with twice [nkpts_ibz] entries. *)
Theorem make_kpts_ibz_twice (E : Env) (self : KPoints) :
  env_ok E → ready self → stars self = [] →
  ∃ self1 self2,
    make_kpts_ibz E self = Some self1 ∧ make_kpts_ibz E self1 = Some self2 ∧
    ibz2bz self2 = ibz2bz self1 ∧ bz2ibz self2 = bz2ibz self1 ∧
    _nkpts_ibz self2 = _nkpts_ibz self1 ∧
    length (stars self1) = _nkpts_ibz self1 ∧
    stars self2 = stars self1 ++ stars self1 ∧
    length (stars self2) = (2 * _nkpts_ibz self2)%nat.
Proof.
  intros HE Hready Hfresh.
  destruct (make_kpts_ibz_run E self HE Hready)
    as (c & ks & self1 & x & counts & Hc & Hks & Hrun & _ & Hoi & _ & _ & _ & _ & _ & _ &
        Hnibz & Hstars & Hn & Hsym & Htr & _).
  rewrite Hfresh in Hstars. simpl in Hstars, Hoi.
  pose proof (make_kpts_ibz_fields E self self1 Hrun)
    as ((_ & _ & _ & _ & Hsc & _) & Hl1 & Hl2 & _).
  assert (Hready1 : ready self1).
  { destruct Hready as (Hcell & (ks' & Hks' & Hlk) & Hpos & H1 & H2 & Hnop).
    split; [by rewrite Hsym|]. split; [exists ks'; by rewrite Hsc, Hn|].
    split; [by rewrite Hn|]. split; [by rewrite Hl1, Hn|].
    split; [by rewrite Hl2, Hn|]. by rewrite Hsym. }
  destruct (make_kpts_ibz_run E self1 HE Hready1)
    as (c1 & ks1 & self2 & x2 & counts2 & Hc1 & Hks1 & Hrun2 & _ & Hoi2 & _ & _ & _ & _ &
        _ & _ & Hnibz2 & Hstars2 & _).
  simpl in Hoi2. rewrite Hsym, Hc in Hc1. injection Hc1 as <-.
  rewrite Hsc, Hks in Hks1. injection Hks1 as <-.
  assert (Hop : op_rot_of E c self1 = op_rot_of E c self).
  { unfold op_rot_of. by rewrite Hsym, Htr. }
  rewrite Hop, Hn, Hoi in Hoi2. injection Hoi2 as Hi Hb _.
  exists self1, self2. split; [done|]. split; [done|].
  split; [done|]. split; [done|]. split; [by rewrite Hnibz2, Hnibz, <- Hi|].
  assert (Hls : length (stars self1) = _nkpts_ibz self1).
  { by rewrite Hstars, length_map, length_seq. }
  split; [done|]. split.
  - rewrite Hstars2, <- Hi, <- Hb. by rewrite <- Hstars.
  - rewrite Hstars2, length_app, length_map, length_seq, Hls, Hnibz2, Hnibz, <- Hi. lia.
Qed.

(** * The orbits of the pairs *)

Lemma tbl_defined n nops T (k s : nat) (e : Z) :
  table_wf n nops T → tbl T k s = e → e ≠ -1 → (k < n)%nat ∧ (s < nops)%nat.
Proof.
  intros [Hl Hrows] He Hne. destruct (tbl_lookup T k s e He Hne) as (row & Hrow & Hs).
  pose proof (Forall_lookup_1 _ _ _ _ Hrows Hrow) as [Hlr _].
  apply lookup_lt_Some in Hrow, Hs. lia.
Qed.

Lemma make_kpairs_ibz_unreduced_frame (E : Env) (h h' : heap) (self self' : KPoints) :
  make_kpairs_ibz E h self false = Some (h', self') →
  ibz2bz_kk_s2 (kk self') = ibz2bz_kk_s2 (kk self) ∧
  ibz_kk_s2_weight (kk self') = ibz_kk_s2_weight (kk self) ∧
  length h' = S (length h) ∧ (∀ l : nat, (l < length h)%nat → h' !! l = h !! l) ∧
  ibz2bz self' = ibz2bz self ∧ bz2ibz self' = bz2ibz self ∧
  stars self' = stars self ∧ weights_ibz self' = weights_ibz self ∧
  _nkpts self' = _nkpts self.
Proof.
  unfold make_kpairs_ibz. intros H.
  destruct (k2opk self) as [T|]; simpl in H; [|done].
  destruct (pair_table _ _ _); simpl in H; [|done].
  destruct (orbit_index _ _ _ _ _) as [[[i2b b2i] x]|]; simpl in H; [|done].
  destruct (Py.bincount _); simpl in H; [|done].
  destruct (_ =? _)%nat; [done|]. injection H as <- <-. simpl.
  split; [done|]. split; [done|]. split; [rewrite length_app; simpl; lia|].
  split; [intros l' Hl'; by apply lookup_app_l|]. done.
Qed.

(** X13: without the permutation step [make_kpairs_ibz] sorts the pairs
    [(i, j)], numbered [i * nkpts + j], into orbits as [make_kpts_ibz] sorts
    the points: the pair of the images under one operation lies in the
    orbit of the pair, a representative is mapped to its own position, the
    weight of an orbit is the binary64 product of the number of its pairs
    and [1.0 / nkpts^2], and the reduced fields are not touched. *)
Theorem pair_orbits (E : Env) (h : heap) (self : KPoints) (T : list (list Z)) (nops : nat) :
  k2opk self = Some T →
  table_wf (_nkpts self) nops T → action_table (_nkpts self) nops T →
  (0 < _nkpts self)%nat → Z.of_nat (_nkpts self * _nkpts self) < 2 ^ 31 →
  ∃ h' self' R B W,
    make_kpairs_ibz E h self false = Some (h', self') ∧
    ibz2bz_kk (kk self') = Some R ∧ bz2ibz_kk (kk self') = Some B ∧
    (lw ← ibz_kk_weight (kk self'); h' !! lw) = Some W ∧
    length B = (_nkpts self * _nkpts self)%nat ∧ length W = length R ∧
    (∀ (i j s i' j' : nat),
       tbl T i s = Z.of_nat i' → tbl T j s = Z.of_nat j' →
       is_Some (B !! (i * _nkpts self + j)%nat) ∧
       B !! (i' * _nkpts self + j')%nat = B !! (i * _nkpts self + j)%nat) ∧
    (∀ (p : nat) r, R !! p = Some r → Py.get B r = Some (Z.of_nat p)) ∧
    (∀ (p : nat) w, W !! p = Some w →
       w = (f64_of_Z (Py.count (Z.of_nat p) B)
            * (1 / f64_of_Z (Z.of_nat (_nkpts self * _nkpts self))))%float) ∧
    ibz2bz_kk_s2 (kk self') = ibz2bz_kk_s2 (kk self) ∧
    ibz_kk_s2_weight (kk self') = ibz_kk_s2_weight (kk self).
Proof.
  intros Hk2 Hwf Hgrp Hpos Hsmall.
  destruct (kpairs_unreduced_run E h self T (_nkpts self) nops Hk2 eq_refl Hwf Hgrp Hpos Hsmall)
    as (PT & B & counts & self1 & HPT & Hrun). simpl in Hrun.
  destruct Hrun as (HlB & Hb & Hsame & _ & Hrep & _ & Hlc & Hcnt & _ & Hfalse & _ &
                    HR & HB & Hlw & _).
  remember (_nkpts self) as n eqn:En.
  set (tops := List.filter (is_top PT) (seq 0 (n * n))) in *.
  set (W := map (λ m, f64_of_Z m * (1 / f64_of_Z (Z.of_nat (n * n))))%float counts) in *.
  pose proof (make_kpairs_ibz_unreduced_frame _ _ _ _ _ Hfalse) as (Hs1 & Hs2 & _).
  exists (h ++ [W]), self1, (map Z.of_nat tops), B, W.
  split; [done|]. split; [done|]. split; [done|].
  split; [rewrite Hlw; apply heap_lookup_last|]. split; [done|].
  split; [unfold W; by rewrite !length_map|]. split; [|split; [|split; [|done]]].
  - intros i j s i' j' Hi Hj.
    destruct (tbl_defined _ _ _ _ _ _ Hwf Hi) as [Hin Hs]; [lia|].
    destruct (tbl_defined _ _ _ _ _ _ Hwf Hj) as [Hjn _]; [lia|].
    assert (Hi' : (i' < n)%nat).
    { pose proof (tbl_range n nops T Hwf i s). lia. }
    assert (Hj' : (j' < n)%nat).
    { pose proof (tbl_range n nops T Hwf j s). lia. }
    assert (Hr : reach PT (i * n + j) (i' * n + j')).
    { apply (reach_pair n nops T PT Hwf Hpos HPT). split; [nia|]. exists s.
      destruct (divmod_pair n i j Hjn) as [-> ->].
      destruct (divmod_pair n i' j' Hj') as [-> ->].
      repeat split; try done. nia. }
    split.
    + destruct (Hb (i * n + j)%nat) as (p & r & -> & _); [nia|]. by eexists.
    + symmetry. by apply Hsame.
  - intros p r Hp. rewrite list_lookup_fmap in Hp.
    destruct (tops !! p) as [t|] eqn:Et; [|done]. injection Hp as <-.
    rewrite get_of_nat. by apply Hrep.
  - intros p w Hp. unfold W in Hp. rewrite list_lookup_fmap in Hp.
    destruct (counts !! p) as [m|] eqn:Em; [|done]. injection Hp as <-.
    by rewrite (Hcnt _ _ Em).
Qed.

(** X14: the orbit of the exchanged pair [(j, i)] has the size of the orbit
    of [(i, j)]: the two orbits carry the same weight. *)
Theorem pair_orbit_swap (E : Env) (h : heap) (self : KPoints) (T : list (list Z))
    (nops : nat) :
  k2opk self = Some T →
  table_wf (_nkpts self) nops T → action_table (_nkpts self) nops T →
  (0 < _nkpts self)%nat → Z.of_nat (_nkpts self * _nkpts self) < 2 ^ 31 →
  ∃ h' self' B W,
    make_kpairs_ibz E h self false = Some (h', self') ∧
    bz2ibz_kk (kk self') = Some B ∧
    (lw ← ibz_kk_weight (kk self'); h' !! lw) = Some W ∧
    ∀ i j : nat, (i < _nkpts self)%nat → (j < _nkpts self)%nat →
      ∃ (p q : nat) w,
        B !! (i * _nkpts self + j)%nat = Some (Z.of_nat p) ∧
        B !! (j * _nkpts self + i)%nat = Some (Z.of_nat q) ∧
        W !! p = Some w ∧ W !! q = Some w ∧
        Py.count (Z.of_nat p) B = Py.count (Z.of_nat q) B.
Proof.
  intros Hk2 Hwf Hgrp Hpos Hsmall.
  destruct (kpairs_unreduced_run E h self T (_nkpts self) nops Hk2 eq_refl Hwf Hgrp Hpos Hsmall)
    as (PT & B & counts & self1 & HPT & Hrun). simpl in Hrun.
  destruct Hrun as (HlB & Hb & Hsame & Hconv & Hrep & _ & Hlc & Hcnt & _ & Hfalse & _ &
                    HR & HB & Hlw & _).
  remember (_nkpts self) as n eqn:En.
  set (tops := List.filter (is_top PT) (seq 0 (n * n))) in *.
  set (W := map (λ m, f64_of_Z m * (1 / f64_of_Z (Z.of_nat (n * n))))%float counts) in *.
  exists (h ++ [W]), self1, B, W.
  split; [done|]. split; [done|]. split; [rewrite Hlw; apply heap_lookup_last|].
  intros i j Hi Hj.
  assert (Hk : (i * n + j < n * n)%nat) by nia.
  assert (Hk' : (j * n + i < n * n)%nat) by nia.
  destruct (Hb _ Hk) as (p & r & Hp & Hr & _).
  destruct (Hb _ Hk') as (q & r' & Hq & Hr' & _).
  assert (Hidx : ∀ k, (k < n * n)%nat → is_Some (B !! k)).
  { intros k Hkn. destruct (Hb k Hkn) as (? & ? & -> & _). by eexists. }
  pose proof (orbit_size_swap n nops T PT B Hwf Hpos HPT HlB Hidx Hsame Hconv _ Hk) as Hsz.
  unfold swap_pair in Hsz. destruct (divmod_pair n i j Hj) as [Hd Hm].
  rewrite Hd, Hm in Hsz. unfold orbit_size in Hsz. rewrite !Nat2Z.id, Hp, Hq in Hsz.
  simpl in Hsz.
  destruct (lookup_lt_is_Some_2 counts p) as [m Hm'].
  { rewrite Hlc. by eapply lookup_lt_Some. }
  destruct (lookup_lt_is_Some_2 counts q) as [m' Hm''].
  { rewrite Hlc. by eapply lookup_lt_Some. }
  pose proof (Hcnt _ _ Hm') as ->. pose proof (Hcnt _ _ Hm'') as ->.
  exists p, q, (f64_of_Z (Py.count (Z.of_nat p) B) * (1 / f64_of_Z (Z.of_nat (n * n))))%float.
  split; [done|]. split; [done|]. unfold W. rewrite !list_lookup_fmap, Hm', Hm''. simpl.
  split; [done|]. split; [by rewrite Hsz|done].
Qed.

(** * The keys kept by [numpy.unique] *)

Lemma StronglySorted_lookup {A} (R : A → A → Prop) (l : list A) :
  StronglySorted R l →
  ∀ i j a b, (i < j)%nat → l !! i = Some a → l !! j = Some b → R a b.
Proof.
  induction 1 as [|x l Hs IH Hx]; intros i j a b Hij Hi Hj; [done|].
  destruct j as [|j]; [lia|]. simpl in Hj. destruct i as [|i].
  - simpl in Hi. injection Hi as <-. rewrite Forall_forall in Hx.
    apply Hx. by eapply list_elem_of_lookup_2.
  - simpl in Hi. apply (IH i j); [lia|done..].
Qed.

Section UniqueKeys.
Context {K : Type}.
Variable leb eqb : K → K → bool.
Hypothesis Heqb : ∀ a b, eqb a b = true ↔ a = b.
Hypothesis Htotal : ∀ a b, leb a b = true ∨ leb b a = true.
Hypothesis Htrans : ∀ a b c, leb a b = true → leb b c = true → leb a c = true.

Lemma existsb_eqb (k : K) (l : list K) : existsb (eqb k) l = true ↔ k ∈ l.
Proof.
rewrite existsb_exists. split.
- intros (y & Hy & ->%Heqb). by apply list_elem_of_In.
- intros Hk. exists k. split; [by apply list_elem_of_In | by apply Heqb].
Qed.

Lemma first_occurrences_keys (l : list K) :
NoDup (map fst (first_occurrences eqb l)) ∧
∀ k, k ∈ map fst (first_occurrences eqb l) ↔ k ∈ l.
Proof.
induction l as [|x l [IHn IHe]] using rev_ind.
- split; [constructor|done].
- rewrite first_occurrences_snoc, map_app.
  destruct (existsb (eqb x) l) eqn:Ex.
  + apply existsb_eqb in Ex. simpl. rewrite app_nil_r. split; [done|].
    intros k. rewrite IHe, elem_of_app, list_elem_of_singleton. split; [by left|].
    intros [H| ->]; done.
  + assert (Hx : x ∉ l).
    { intros Hin. apply existsb_eqb in Hin. congruence. }
    simpl. split.
    * apply NoDup_app. split; [done|]. split; [|apply NoDup_singleton].
      intros k Hk ->%list_elem_of_singleton. by apply IHe in Hk.
    * intros k. rewrite !elem_of_app, IHe. done.
Qed.

Lemma np_unique_index_keys (l : list K) :
NoDup (map fst (np_unique_index leb eqb l)) ∧
∀ k, k ∈ map fst (np_unique_index leb eqb l) ↔ k ∈ l.
Proof.
unfold np_unique_index.
pose proof (Permutation_map fst (sort_keys_perm leb (first_occurrences eqb l))) as Hp.
destruct (first_occurrences_keys l) as [Hn He]. split.
- by rewrite Hp.
- intros k. by rewrite Hp.
Qed.

Lemma insert_key_sorted (p : K * nat) (l : list (K * nat)) :
StronglySorted (λ a b, leb (fst a) (fst b) = true) l →
StronglySorted (λ a b, leb (fst a) (fst b) = true) (insert_key leb p l).
Proof.
induction 1 as [|q l Hs IH Hq]; simpl.
- repeat constructor.
- destruct (leb (fst p) (fst q)) eqn:E.
  + constructor; [by constructor|]. constructor; [done|].
    eapply Forall_impl; [exact Hq|]. intros r Hr. simpl in *. by eapply Htrans.
  + constructor; [done|].
    apply Forall_forall. intros r Hr.
    rewrite (insert_key_perm leb p l) in Hr.
    apply elem_of_cons in Hr as [->|Hr].
    * destruct (Htotal (fst p) (fst q)); [congruence|done].
    * rewrite Forall_forall in Hq. by apply Hq.
Qed.

Lemma sort_keys_sorted (l : list (K * nat)) :
StronglySorted (λ a b, leb (fst a) (fst b) = true) (sort_keys leb l).
Proof.
induction l as [|p l IH]; simpl; [constructor|]. by apply insert_key_sorted.
Qed.

Lemma np_unique_index_sorted (l : list K) (i j : nat) (a b : K * nat) :
(i < j)%nat → np_unique_index leb eqb l !! i = Some a →
np_unique_index leb eqb l !! j = Some b → leb (fst a) (fst b) = true.
Proof.
unfold np_unique_index. intros Hij Hi Hj.
pose proof (sort_keys_sorted (first_occurrences eqb l)) as Hs.
exact (StronglySorted_lookup _ _ Hs i j a b Hij Hi Hj).
Qed.
End UniqueKeys.

Lemma pair_eqb_eq (a b : Z * Z) : pair_eqb a b = true ↔ a = b.
Proof.
  destruct a as [a1 a2], b as [b1 b2]. unfold pair_eqb. simpl.
  rewrite andb_true_iff, !Z.eqb_eq. split; [by intros [-> ->]|by intros [= -> ->]].
Qed.

Lemma pair_leb_total (a b : Z * Z) : pair_leb a b = true ∨ pair_leb b a = true.
Proof.
  destruct a as [a1 a2], b as [b1 b2]. unfold pair_leb. simpl.
  rewrite !orb_true_iff, !andb_true_iff, !Z.ltb_lt, !Z.eqb_eq, !Z.leb_le. lia.
Qed.

Lemma pair_leb_trans (a b c : Z * Z) :
  pair_leb a b = true → pair_leb b c = true → pair_leb a c = true.
Proof.
  destruct a as [a1 a2], b as [b1 b2], c as [c1 c2]. unfold pair_leb. simpl.
  rewrite !orb_true_iff, !andb_true_iff, !Z.ltb_lt, !Z.eqb_eq, !Z.leb_le. lia.
Qed.

(** X15: the reduced list keeps one representative for every unordered pair
    of orbits: its entries are unreduced representatives, no two of them
    are equal or exchanged pairs of each other, every unreduced
    representative is kept or has its exchanged pair kept, and the entries
    come in the order of their sorted index pairs. *)
Theorem reduced_pairs_cover (E : Env) (h : heap) (self : KPoints) (T : list (list Z))
    (nops : nat) :
  k2opk self = Some T →
  table_wf (_nkpts self) nops T → action_table (_nkpts self) nops T →
  (0 < _nkpts self)%nat → Z.of_nat (_nkpts self * _nkpts self) < 2 ^ 31 →
  ∃ h' self' R s2,
    make_kpairs_ibz E h self true = Some (h', self') ∧
    ibz2bz_kk (kk self') = Some R ∧ ibz2bz_kk_s2 (kk self') = Some s2 ∧
    (∀ r, r ∈ s2 → r ∈ R) ∧
    (∀ (t t' : nat) r r', t ≠ t' → s2 !! t = Some r → s2 !! t' = Some r' →
       r' ≠ r ∧ r' ≠ swapz (Z.of_nat (_nkpts self)) r) ∧
    (∀ r, r ∈ R → r ∈ s2 ∨ swapz (Z.of_nat (_nkpts self)) r ∈ s2) ∧
    (∀ (t t' : nat) r r', (t < t')%nat → s2 !! t = Some r → s2 !! t' = Some r' →
       pair_leb (keyf (Z.of_nat (_nkpts self)) r) (keyf (Z.of_nat (_nkpts self)) r') = true).
Proof.
  intros Hk2 Hwf Hgrp Hpos Hsmall.
  destruct (kpairs_unreduced_run E h self T (_nkpts self) nops Hk2 eq_refl Hwf Hgrp Hpos Hsmall)
    as (PT & B & counts & self1 & HPT & Hrun). simpl in Hrun.
  destruct Hrun as (_ & _ & _ & _ & _ & _ & Hlc & _ & _ & _ & Htrue & HR & _ & Hlw & Hn).
  remember (_nkpts self) as n eqn:En.
  set (tops := List.filter (is_top PT) (seq 0 (n * n))) in *.
  set (W := map (λ m, f64_of_Z m * (1 / f64_of_Z (Z.of_nat (n * n))))%float counts) in *.
  set (R := map Z.of_nat tops) in *.
  assert (HlW : length W = length R) by (unfold W, R; by rewrite !length_map).
  destruct (permutation_step_run (h ++ [W]) self1 R W (length h)
              HR Hlw (heap_lookup_last h W) HlW)
    as (s2 & wf & self' & Hstep & Hs2 & _ & Hls2 & _ & Hent).
  pose proof (permutation_step_effect _ _ _ _ Hstep) as (_ & (HR' & _) & _).
  rewrite Hn in *. set (nz := Z.of_nat n) in *.
  set (u := s2_index nz R) in *.
  assert (Hnz : 0 < nz) by (unfold nz; lia).
  assert (HrangeR : ∀ r, r ∈ R → 0 ≤ r < nz * nz).
  { intros r (k & -> & Hk)%list_elem_of_fmap.
    apply list_elem_of_In, filter_In in Hk as [Hk _]. apply in_seq in Hk. unfold nz. lia. }
  assert (Hentry : ∀ t r, s2 !! t = Some r →
            ∃ p, u !! t = Some (keyf nz r, p) ∧ R !! p = Some r).
  { intros t r Ht. destruct (lookup_lt_is_Some_2 u t) as [[k p] Hu].
    { rewrite <- Hls2. by eapply lookup_lt_Some. }
    destruct (Hent t k p Hu) as (r' & a & Hr & _ & Hs & _).
    rewrite Ht in Hs. injection Hs as <-.
    destruct (s2_index_lookup self1 R t k p) as (r'' & Hr'' & ->); [rewrite Hn; exact Hu|].
    rewrite Hr in Hr''. injection Hr'' as <-. rewrite Hn in Hu. by exists p. }
  destruct (np_unique_index_keys pair_leb pair_eqb pair_eqb_eq (map (keyf nz) R))
    as [Hnd Hkeys].
  fold (s2_index nz R) in Hnd, Hkeys. fold u in Hnd, Hkeys.
  exists ((h ++ [W]) ++ [wf]), self', R, s2.
  split; [by rewrite Htrue|]. split; [by rewrite HR'|]. split; [done|].
  split; [|split; [|split]].
  - intros r [t Ht]%list_elem_of_lookup. destruct (Hentry t r Ht) as (p & _ & Hp).
    by eapply list_elem_of_lookup_2.
  - intros t t' r r' Hne Ht Ht'.
    destruct (Hentry t r Ht) as (p & Hu & Hp). destruct (Hentry t' r' Ht') as (p' & Hu' & Hp').
    assert (Hk : keyf nz r ≠ keyf nz r').
    { intros Heq. apply Hne. eapply (NoDup_lookup _ _ _ _ Hnd).
      - change (map fst u) with (fst <$> u). by rewrite list_lookup_fmap, Hu.
      - change (map fst u) with (fst <$> u). by rewrite list_lookup_fmap, Hu', Heq. }
    assert (Hr : 0 ≤ r < nz * nz) by (apply HrangeR; by eapply list_elem_of_lookup_2).
    assert (Hr' : 0 ≤ r' < nz * nz) by (apply HrangeR; by eapply list_elem_of_lookup_2).
    assert (Hnk : ¬ (r' = r ∨ r' = swapz nz r)).
    { intros H. apply (keyf_eq nz r r' Hnz Hr Hr') in H. by apply pair_eqb_eq in H. }
    split; intros ->; apply Hnk; [by left|by right].
  - intros r Hr.
    assert (Hk : keyf nz r ∈ map fst u).
    { apply Hkeys. change (map (keyf nz) R) with (keyf nz <$> R).
      apply list_elem_of_fmap. by exists r. }
    change (map fst u) with (fst <$> u) in Hk.
    apply list_elem_of_fmap in Hk as ([k p] & Hk & [t Ht]%list_elem_of_lookup).
    simpl in Hk. subst k.
    destruct (Hent t (keyf nz r) p Ht) as (r' & a & Hr' & _ & Hs & _).
    destruct (s2_index_lookup self1 R t (keyf nz r) p) as (r'' & Hr'' & Heq);
      [rewrite Hn; exact Ht|].
    rewrite Hr' in Hr''. injection Hr'' as <-. rewrite Hn in Heq. fold nz in Heq.
    assert (Hrr : 0 ≤ r < nz * nz) by (by apply HrangeR).
    assert (Hrr' : 0 ≤ r' < nz * nz).
    { apply HrangeR. by eapply list_elem_of_lookup_2. }
    assert (He : pair_eqb (keyf nz r) (keyf nz r') = true) by (by apply pair_eqb_eq).
    apply (keyf_eq nz r r' Hnz Hrr Hrr') in He as [->| ->].
    + left. by eapply list_elem_of_lookup_2.
    + right. by eapply list_elem_of_lookup_2.
  - intros t t' r r' Hlt Ht Ht'.
    destruct (Hentry t r Ht) as (p & Hu & _). destruct (Hentry t' r' Ht') as (p' & Hu' & _).
    exact (np_unique_index_sorted pair_leb pair_eqb pair_leb_total pair_leb_trans
             (map (keyf nz) R) t t' _ _ Hlt Hu Hu').
Qed.

(** * Transport to a representative *)

Lemma Qrint_zero (d : Q) : (d == 0)%Q → Qrint d = 0.
Proof.
  intros Hd. unfold Qrint. rewrite (Qfloor_comp _ _ Hd). change (Qfloor 0) with 0.
  assert (Hc : ((d - inject_Z 0)%Q ?= 1 # 2)%Q = Lt).
  { apply Qlt_alt. rewrite Hd. reflexivity. }
  by rewrite Hc.
Qed.

Lemma zero_connects (d : Q) :
  (d == 0)%Q → Qltb (Qabs (d - inject_Z (Qrint d))) KPTS_DIFF_TOL = true.
Proof.
  intros Hd. rewrite (Qrint_zero d Hd). unfold Qltb. apply negb_true_iff.
  destruct (Qle_bool _ _) eqn:E; [|done]. apply Qle_bool_iff in E.
  assert (Hz : (Qabs (d - inject_Z 0) == 0)%Q) by (rewrite Hd; reflexivity).
  rewrite Hz in E. exfalso. revert E. apply Qlt_not_le. reflexivity.
Qed.

(** a point is connected to itself by the identity *)
Lemma connects_identity (v : vec) :
  length v = 3%nat → connects v v [[1; 0; 0]; [0; 1; 0]; [0; 0; 1]]%Q = true.
Proof.
  intros Hl. destruct v as [|a [|b [|c [|? ?]]]]; try done.
  unfold connects, dot_T. cbn [map zip_with Qsum fold_right forallb].
  rewrite !zero_connects; [done|ring..].
Qed.

Lemma set_other {A} (l l' : list A) (k k' : nat) (v : A) :
  Py.set l (Z.of_nat k') v = Some l' → k ≠ k' → l' !! k = l !! k.
Proof.
  unfold Py.set. destruct (Py.index (length l) (Z.of_nat k')) as [j|] eqn:Ej; simpl; [|done].
  intros [= <-] Hne.
  assert (j = k') as ->.
  { unfold Py.index in Ej. destruct (_ && _); [injection Ej as <-; lia|].
    destruct (_ && _) eqn:E2; [|done]. apply andb_true_iff in E2 as [_ E2].
    apply Z.ltb_lt in E2. lia. }
  apply list_lookup_insert_ne. done.
Qed.

Section ConnectAt.
Variable T : list (list Z).
Variable op_rot : list mat.
Variable nop_ : Z.
Variable ks ks_ibz : list vec.
Variable b : list Z.

Lemma connect_bz_other (k : nat) : ∀ rng st st',
k ∉ rng → connect_bz T op_rot nop_ ks ks_ibz b rng st = Some st' →
fst st' !! k = fst st !! k ∧ snd st' !! k = snd st !! k.
Proof.
induction rng as [|k' rng IH]; intros st st' Hk H; cbn [connect_bz] in H.
- by injection H as <-.
- apply not_elem_of_cons in Hk as [Hne Hk].
  destruct (Py.get ks (Z.of_nat k')) as [bz|]; simpl in H; [|done].
  destruct (Py.get b (Z.of_nat k')) as [i|]; simpl in H; [|done].
  destruct (Py.get ks_ibz i) as [ibz|]; simpl in H; [|done].
  destruct (find_op T bz ibz 0 op_rot) as [[io|]|]; simpl in H; [| |done].
  + destruct (nop_ =? 0); [done|].
    destruct (Py.set (fst st) _ _) as [trs|] eqn:E1; simpl in H; [|done].
    destruct (Py.set (snd st) _ _) as [sops|] eqn:E2; simpl in H; [|done].
    destruct (IH _ _ Hk H) as [H1 H2]. simpl in H1, H2.
    rewrite H1, H2. split; by eapply set_other.
  + by apply IH.
Qed.

(** the entries [connect_bz] writes for a point whose search succeeds *)
Lemma connect_bz_at (k : nat) (bz ibz : vec) (i : Z) (io : nat) : ∀ rng st st',
NoDup rng → k ∈ rng →
(k < length (fst st))%nat → (k < length (snd st))%nat →
ks !! k = Some bz → b !! k = Some i → Py.get ks_ibz i = Some ibz →
find_op T bz ibz 0 op_rot = Some (Some io) →
connect_bz T op_rot nop_ ks ks_ibz b rng st = Some st' →
fst st' !! k = Some (Z.of_nat io / nop_) ∧ snd st' !! k = Some (Z.of_nat io mod nop_).
Proof.
induction rng as [|k' rng IH]; intros st st' Hnd Hk Hl1 Hl2 Hbz Hi Hibz Hf H.
- by apply elem_of_nil in Hk.
- apply NoDup_cons in Hnd as [Hk' Hnd]. cbn [connect_bz] in H.
  destruct (decide (k = k')) as [<-|Hne].
  + rewrite !get_of_nat, Hbz, Hi in H. simpl in H. rewrite Hibz in H. simpl in H.
    rewrite Hf in H. simpl in H. destruct (nop_ =? 0); [done|].
    rewrite !set_of_nat in H by done. simpl in H.
    destruct (connect_bz_other k _ _ _ Hk' H) as [H1 H2]. simpl in H1, H2.
    rewrite H1, H2, !list_lookup_insert_eq by done. done.
  + apply elem_of_cons in Hk as [Hk|Hk]; [done|].
    destruct (Py.get ks (Z.of_nat k')) as [bz'|]; simpl in H; [|done].
    destruct (Py.get b (Z.of_nat k')) as [i'|]; simpl in H; [|done].
    destruct (Py.get ks_ibz i') as [ibz'|]; simpl in H; [|done].
    destruct (find_op T bz' ibz' 0 op_rot) as [[io'|]|]; simpl in H; [| |done].
    * destruct (nop_ =? 0); [done|].
      destruct (Py.set (fst st) _ _) as [trs|] eqn:E1; simpl in H; [|done].
      destruct (Py.set (snd st) _ _) as [sops|] eqn:E2; simpl in H; [|done].
      apply (IH _ _ Hnd Hk) in H; try done; simpl.
      -- by rewrite (set_length _ _ _ _ E1).
      -- by rewrite (set_length _ _ _ _ E2).
    * by apply (IH _ _ Hnd Hk) in H.
Qed.
End ConnectAt.

(** X16: when the first operation is the identity and the matcher maps every
    point to itself under it, the transport to a representative returns the
    coefficients of its orbit unchanged. *)
Theorem transport_to_representative (E : Env) (self : KPoints) (c : Cell) (ks : list vec)
    (op0 : Op) (rest : list Op) :
  env_ok E → ready self → group_closed E self →
  cell (sym self) = Some c → kpts_scaled self = Some ks →
  Forall (λ v, length v = 3%nat) ks →
  ops (sym self) = op0 :: rest → is_eye op0 = true →
  a2b_rot E c op0 = [[1; 0; 0]; [0; 1; 0]; [0; 0; 1]]%Q →
  (∀ k, (k < _nkpts self)%nat →
     tbl (map_k_points_fast E ks (op_rot_of E c self) KPTS_DIFF_TOL) k 0 = Z.of_nat k) →
  ∃ self', make_kpts_ibz E self = Some self' ∧
    ∀ (i : nat) r (mo_coeff_ibz : list cmat) mo,
      ibz2bz self' !! i = Some r → mo_coeff_ibz !! i = Some mo →
      transform_mo_coeff_k E self' mo_coeff_ibz r = Some mo.
Proof.
  intros HE Hready Hgrp Hc Hks Hk3 Hops Heye Hrot Hid.
  destruct (make_kpts_ibz_tops E self HE Hready Hgrp)
    as (self' & T & nops & Hrun & Hk2 & _ & Hn & Hl & Hi2b & _ & Hrep & _).
  pose proof (make_kpts_ibz_run E self HE Hready)
    as (c' & ks' & self2 & x & counts & Hc' & Hks' & Hrun2 & Hwf & Hoi & _ & Hrange & Hidx & Hk2' &
        _ & _ & _ & _ & _ & Hsym & _).
  rewrite Hc in Hc'. injection Hc' as <-. rewrite Hks in Hks'. injection Hks' as <-.
  rewrite Hrun in Hrun2. injection Hrun2 as <-. simpl in Hwf, Hoi, Hk2'.
  rewrite Hk2 in Hk2'. injection Hk2' as ->.
  set (T := map_k_points_fast E ks (op_rot_of E c self) KPTS_DIFF_TOL) in *.
  destruct Hready as (_ & (ks0 & Hks0 & Hlks) & Hpos & Hl1 & Hl2 & Hnop).
  rewrite Hks in Hks0. injection Hks0 as <-.
  (* the pipeline, step by step *)
  pose proof Hrun as Hrun'. unfold make_kpts_ibz in Hrun'.
  rewrite Hc in Hrun'. simpl in Hrun'. rewrite Hks in Hrun'. simpl in Hrun'.
  fold T in Hrun'. rewrite Hoi in Hrun'. simpl in Hrun'.
  destruct (Py.bincount (bz2ibz self')) as [cnt|]; simpl in Hrun'; [|done].
  destruct (_ =? _)%nat; [done|].
  destruct (Py.take ks (ibz2bz self')) as [ks_ibz|] eqn:Etake; simpl in Hrun'; [|done].
  destruct (connect_bz _ _ _ _ _ _ _ _) as [[trs sops]|] eqn:Econn; simpl in Hrun'; [|done].
  destruct (build_stars _ _ _ _ _ _ _ _) as [[st so]|]; simpl in Hrun'; [|done].
  injection Hrun' as Hself'.
  assert (Hsb : stars_ops_bz self' = sops) by (by rewrite <- Hself').
  assert (Htb : time_reversal_symm_bz self' = trs) by (by rewrite <- Hself').
  assert (Hki : kpts_scaled_ibz self' = Some ks_ibz) by (by rewrite <- Hself').
  (* the rotations start with the identity *)
  assert (Hop : ∃ more, op_rot_of E c self = [[1; 0; 0]; [0; 1; 0]; [0; 0; 1]]%Q :: more).
  { unfold op_rot_of. rewrite Hops. simpl. rewrite Hrot.
    destruct (time_reversal self); by eexists. }
  destruct Hop as [more Hop].
  assert (Hnops : (0 < length (op_rot_of E c self))%nat) by (rewrite Hop; simpl; lia).
  assert (Hcol : column T 0 = Some (map (λ k, tbl T k 0) (seq 0 (_nkpts self)))).
  { by apply (column_spec _ _ _ _ Hwf). }
  assert (Hnz : nop (sym self) ≠ 0) by (rewrite Hnop, Hops; simpl; lia).
  exists self'. split; [done|]. intros i r mo_coeff_ibz mo Hi Hmo.
  rewrite Hi2b, list_lookup_fmap in Hi.
  destruct (List.filter _ _ !! i) as [t|] eqn:Et; [|done]. injection Hi as <-.
  pose proof (Hrep _ _ Et) as Hbt.
  assert (Htn : (t < _nkpts self)%nat) by (by eapply filter_seq_bound).
  destruct (lookup_lt_is_Some_2 ks t) as [v Hv]; [lia|].
  assert (Hvi : Py.get ks_ibz (Z.of_nat i) = Some v).
  { unfold Py.take in Etake. apply mapM_Some in Etake.
    assert (Hit : ibz2bz self' !! i = Some (Z.of_nat t)).
    { by rewrite Hi2b, list_lookup_fmap, Et. }
    destruct (Forall2_lookup_l _ _ _ _ _ Etake Hit) as (y & Hy & Hg).
    rewrite get_of_nat in Hg |- *. rewrite Hy. by rewrite <- Hg, Hv. }
  assert (Hfind : find_op T v v 0 (op_rot_of E c self) = Some (Some O)).
  { rewrite Hop. cbn [find_op]. rewrite Hcol. simpl.
    replace (Py.mem (-1) _) with false.
    - rewrite connects_identity; [done|]. rewrite Forall_forall in Hk3.
      apply Hk3. by eapply list_elem_of_lookup_2.
    - symmetry. apply mem_false. intros (k & Hk & Hin)%list_elem_of_fmap.
      apply elem_of_seq in Hin. rewrite Hid in Hk by lia. lia. }
  assert (Hin : t ∈ seq 0 (_nkpts self)) by (apply elem_of_seq; lia).
  assert (Hlt1 : (t < length (fst (time_reversal_symm_bz self, stars_ops_bz self)))%nat)
    by (simpl; lia).
  assert (Hlt2 : (t < length (snd (time_reversal_symm_bz self, stars_ops_bz self)))%nat)
    by (simpl; lia).
  pose proof (connect_bz_at T (op_rot_of E c self) (nop (sym self)) ks ks_ibz (bz2ibz self')
                t v v (Z.of_nat i) O (seq 0 (_nkpts self)) _ _ (NoDup_seq _ _) Hin Hlt1 Hlt2
                Hv Hbt Hvi Hfind Econn) as [Ht1 Ht2].
  simpl in Ht1, Ht2.
  rewrite Z.div_0_l in Ht1 by done. rewrite Z.mod_0_l in Ht2 by done.
  assert (Hops' : Py.get (ops (sym self')) 0 = Some op0).
  { rewrite Hsym, Hops. reflexivity. }
  rewrite transform_mo_coeff_k_unfold, (get_of_nat (bz2ibz self') t), Hbt. simpl.
  rewrite Hki. simpl. rewrite Hvi. simpl.
  rewrite Hsb, (get_of_nat sops t), Ht2. simpl.
  rewrite Hops'. simpl. rewrite Htb, (get_of_nat trs t), Ht1. simpl.
  rewrite (get_of_nat mo_coeff_ibz i), Hmo. simpl. unfold _transform. by rewrite Heye.
Qed.

(** * The further theorems at concrete inputs *)

Lemma example_reduced_k2opk :
  k2opk (Example.reduced Example.mesh4 true true) = Some [[0; 0]; [1; 3]; [2; 2]; [3; 1]].
Proof. vm_compute. reflexivity. Qed.

Lemma transform_mo_occ_gathers_witness :
  match Restricted [[2; 0]; [2; 0]; [1; 1]]%float,
        Restricted [[2; 0]; [1; 1]; [2; 0]; [1; 1]]%float with
  | Restricted x, Restricted occ =>
      length occ = _nkpts (Example.reduced Example.mesh4 true true) ∧
      ∀ k, (k < _nkpts (Example.reduced Example.mesh4 true true))%nat →
        ∃ i v, Py.get (bz2ibz (Example.reduced Example.mesh4 true true)) (Z.of_nat k) = Some i ∧
               Py.get x i = Some v ∧ occ !! k = Some v
  | Unrestricted a b, Unrestricted occ_a occ_b =>
      length occ_a = _nkpts (Example.reduced Example.mesh4 true true) ∧
      length occ_b = _nkpts (Example.reduced Example.mesh4 true true) ∧
      ∀ k, (k < _nkpts (Example.reduced Example.mesh4 true true))%nat →
        ∃ i va vb,
          Py.get (bz2ibz (Example.reduced Example.mesh4 true true)) (Z.of_nat k) = Some i ∧
          Py.get a i = Some va ∧ Py.get b i = Some vb ∧
          occ_a !! k = Some va ∧ occ_b !! k = Some vb
  | _, _ => False
  end.
Proof.
  apply (transform_mo_occ_gathers (Example.reduced Example.mesh4 true true)
           (Restricted [[2; 0]; [2; 0]; [1; 1]]%float)
           (Restricted [[2; 0]; [1; 1]; [2; 0]; [1; 1]]%float)).
  vm_compute. reflexivity.
Defined.

Lemma check_after_transform_witness :
  ∃ self', make_kpts_ibz Example.env (Example.prepared Example.mesh4 true true) = Some self' ∧
    (length [[2; 0]; [2; 0]; [1; 1]]%float = _nkpts_ibz self' →
     ∃ occ_bz,
       transform_mo_occ self' (Restricted [[2; 0]; [2; 0]; [1; 1]]%float) = Some (Restricted occ_bz) ∧
       length occ_bz = _nkpts self' ∧
       check_mo_occ_symmetry self' occ_bz 0.0078125%float = Ok [[2; 0]; [2; 0]; [1; 1]]%float).
Proof.
  apply (check_after_transform Example.env (Example.prepared Example.mesh4 true true)
           [[2; 0]; [2; 0]; [1; 1]]%float 0.0078125%float).
  - apply example_env_ok.
  - apply example_ready.
  - reflexivity.
  - apply example_group_closed.
  - reflexivity.
  - repeat constructor.
  - by exists [2; 0]%float, 2%float.
Defined.

Lemma check_before_build_witness :
  check_mo_occ_symmetry (Example.fresh Example.mesh4) Example.occ4 0.0078125%float
  = Ok Example.occ4.
Proof.
  apply (check_before_build Example.env (Some Example.a_cell) Example.mesh4
           (Example.fresh Example.mesh4) Example.occ4 0.0078125%float); reflexivity.
Defined.

Lemma transform_mo_coeff_channels_witness :
  ∃ out,
    transform_mo_coeff Example.env (Example.reduced Example.mesh4 true true)
      (Unrestricted Example.mo4 Example.mo4) = Some out ∧
    ∃ ma mb, out = Unrestricted ma mb ∧
      length ma = _nkpts (Example.reduced Example.mesh4 true true) ∧
      length mb = _nkpts (Example.reduced Example.mesh4 true true) ∧
      ∀ k, (k < _nkpts (Example.reduced Example.mesh4 true true))%nat →
        ma !! k = transform_mo_coeff_k Example.env (Example.reduced Example.mesh4 true true)
                    Example.mo4 (Z.of_nat k) ∧
        mb !! k = transform_mo_coeff_k Example.env (Example.reduced Example.mesh4 true true)
                    Example.mo4 (Z.of_nat k) ∧
        is_Some (ma !! k) ∧ is_Some (mb !! k).
Proof.
  eexists. split; [vm_compute; reflexivity|].
  apply (transform_mo_coeff_channels Example.env (Example.reduced Example.mesh4 true true)
           Example.mo4 Example.mo4).
  vm_compute. reflexivity.
Defined.

Lemma transform_mo_coeff_k_index_witness :
  (- Z.of_nat (_nkpts (Example.reduced Example.mesh4 true true)) ≤ -1 < 0 →
     transform_mo_coeff_k Example.env (Example.reduced Example.mesh4 true true) Example.mo4 (-1)
     = transform_mo_coeff_k Example.env (Example.reduced Example.mesh4 true true) Example.mo4
         (-1 + Z.of_nat (_nkpts (Example.reduced Example.mesh4 true true)))) ∧
  (-1 < - Z.of_nat (_nkpts (Example.reduced Example.mesh4 true true)) ∨
   Z.of_nat (_nkpts (Example.reduced Example.mesh4 true true)) ≤ -1 →
     transform_mo_coeff_k Example.env (Example.reduced Example.mesh4 true true) Example.mo4 (-1)
     = None).
Proof.
  apply (transform_mo_coeff_k_index Example.env (Example.reduced Example.mesh4 true true)
           Example.mo4 (-1)); vm_compute; reflexivity.
Defined.

Lemma representatives_largest_witness :
  ∃ self', make_kpts_ibz Example.env (Example.prepared Example.mesh4 true true) = Some self' ∧
    (∀ i r, ibz2bz self' !! i = Some r →
       Py.get (bz2ibz self') r = Some (Z.of_nat i) ∧
       ∃ star, stars self' !! i = Some star ∧ r ∈ star ∧ ∀ x, x ∈ star → x ≤ r) ∧
    (∀ i j r r', (i < j)%nat →
       ibz2bz self' !! i = Some r → ibz2bz self' !! j = Some r' → r < r').
Proof.
  apply (representatives_largest Example.env (Example.prepared Example.mesh4 true true)).
  - apply example_env_ok.
  - apply example_ready.
  - reflexivity.
  - apply example_group_closed.
Defined.

Lemma make_kpts_ibz_frame_effect_witness :
  (sym (Example.reduced Example.mesh4 true true) = sym (Example.prepared Example.mesh4 true true) ∧
   verbose (Example.reduced Example.mesh4 true true)
     = verbose (Example.prepared Example.mesh4 true true) ∧
   time_reversal (Example.reduced Example.mesh4 true true)
     = time_reversal (Example.prepared Example.mesh4 true true) ∧
   kpts (Example.reduced Example.mesh4 true true) = kpts (Example.prepared Example.mesh4 true true) ∧
   kpts_scaled (Example.reduced Example.mesh4 true true)
     = kpts_scaled (Example.prepared Example.mesh4 true true) ∧
   weights (Example.reduced Example.mesh4 true true)
     = weights (Example.prepared Example.mesh4 true true) ∧
   _nkpts (Example.reduced Example.mesh4 true true)
     = _nkpts (Example.prepared Example.mesh4 true true) ∧
   kk (Example.reduced Example.mesh4 true true) = kk (Example.prepared Example.mesh4 true true)) ∧
  length (stars_ops_bz (Example.reduced Example.mesh4 true true))
    = length (stars_ops_bz (Example.prepared Example.mesh4 true true)) ∧
  length (time_reversal_symm_bz (Example.reduced Example.mesh4 true true))
    = length (time_reversal_symm_bz (Example.prepared Example.mesh4 true true)) ∧
  ∃ c ks ks_ibz,
    cell (sym (Example.prepared Example.mesh4 true true)) = Some c ∧
    kpts_scaled (Example.prepared Example.mesh4 true true) = Some ks ∧
    Py.take ks (ibz2bz (Example.reduced Example.mesh4 true true)) = Some ks_ibz ∧
    kpts_scaled_ibz (Example.reduced Example.mesh4 true true) = Some ks_ibz ∧
    kpts_ibz (Example.reduced Example.mesh4 true true) = get_abs_kpts Example.env c ks_ibz ∧
    _nkpts_ibz (Example.reduced Example.mesh4 true true)
      = length (kpts_ibz (Example.reduced Example.mesh4 true true)).
Proof.
  apply (make_kpts_ibz_frame_effect Example.env (Example.prepared Example.mesh4 true true)
           (Example.reduced Example.mesh4 true true)).
  vm_compute. reflexivity.
Defined.

Lemma make_kpts_ibz_twice_witness :
  ∃ self1 self2,
    make_kpts_ibz Example.env (Example.prepared Example.mesh4 true true) = Some self1 ∧
    make_kpts_ibz Example.env self1 = Some self2 ∧
    ibz2bz self2 = ibz2bz self1 ∧ bz2ibz self2 = bz2ibz self1 ∧
    _nkpts_ibz self2 = _nkpts_ibz self1 ∧
    length (stars self1) = _nkpts_ibz self1 ∧
    stars self2 = stars self1 ++ stars self1 ∧
    length (stars self2) = (2 * _nkpts_ibz self2)%nat.
Proof.
  apply (make_kpts_ibz_twice Example.env (Example.prepared Example.mesh4 true true)).
  - apply example_env_ok.
  - apply example_ready.
  - reflexivity.
Defined.

Lemma pair_orbits_witness :
  ∃ h' self' R B W,
    make_kpairs_ibz Example.env [] (Example.reduced Example.mesh4 true true) false
      = Some (h', self') ∧
    ibz2bz_kk (kk self') = Some R ∧ bz2ibz_kk (kk self') = Some B ∧
    (lw ← ibz_kk_weight (kk self'); h' !! lw) = Some W ∧
    length B = (4 * 4)%nat ∧ length W = length R ∧
    (∀ (i j s i' j' : nat),
       tbl [[0; 0]; [1; 3]; [2; 2]; [3; 1]] i s = Z.of_nat i' →
       tbl [[0; 0]; [1; 3]; [2; 2]; [3; 1]] j s = Z.of_nat j' →
       is_Some (B !! (i * 4 + j)%nat) ∧
       B !! (i' * 4 + j')%nat = B !! (i * 4 + j)%nat) ∧
    (∀ (p : nat) r, R !! p = Some r → Py.get B r = Some (Z.of_nat p)) ∧
    (∀ (p : nat) w, W !! p = Some w →
       w = (f64_of_Z (Py.count (Z.of_nat p) B) * (1 / f64_of_Z (Z.of_nat (4 * 4))))%float) ∧
    ibz2bz_kk_s2 (kk self') = ibz2bz_kk_s2 (kk (Example.reduced Example.mesh4 true true)) ∧
    ibz_kk_s2_weight (kk self')
      = ibz_kk_s2_weight (kk (Example.reduced Example.mesh4 true true)).
Proof.
  apply (pair_orbits Example.env [] (Example.reduced Example.mesh4 true true)
           [[0; 0]; [1; 3]; [2; 2]; [3; 1]] 2).
  - apply example_reduced_k2opk.
  - apply example_table_wf.
  - apply example_action_table.
  - vm_compute. lia.
  - vm_compute. reflexivity.
Defined.

Lemma pair_orbit_swap_witness :
  ∃ h' self' B W,
    make_kpairs_ibz Example.env [] (Example.reduced Example.mesh4 true true) false
      = Some (h', self') ∧
    bz2ibz_kk (kk self') = Some B ∧
    (lw ← ibz_kk_weight (kk self'); h' !! lw) = Some W ∧
    ∀ i j : nat, (i < 4)%nat → (j < 4)%nat →
      ∃ (p q : nat) w,
        B !! (i * 4 + j)%nat = Some (Z.of_nat p) ∧
        B !! (j * 4 + i)%nat = Some (Z.of_nat q) ∧
        W !! p = Some w ∧ W !! q = Some w ∧
        Py.count (Z.of_nat p) B = Py.count (Z.of_nat q) B.
Proof.
  apply (pair_orbit_swap Example.env [] (Example.reduced Example.mesh4 true true)
           [[0; 0]; [1; 3]; [2; 2]; [3; 1]] 2).
  - apply example_reduced_k2opk.
  - apply example_table_wf.
  - apply example_action_table.
  - vm_compute. lia.
  - vm_compute. reflexivity.
Defined.

Lemma reduced_pairs_cover_witness :
  ∃ h' self' R s2,
    make_kpairs_ibz Example.env [] (Example.reduced Example.mesh4 true true) true
      = Some (h', self') ∧
    ibz2bz_kk (kk self') = Some R ∧ ibz2bz_kk_s2 (kk self') = Some s2 ∧
    (∀ r, r ∈ s2 → r ∈ R) ∧
    (∀ (t t' : nat) r r', t ≠ t' → s2 !! t = Some r → s2 !! t' = Some r' →
       r' ≠ r ∧ r' ≠ swapz 4 r) ∧
    (∀ r, r ∈ R → r ∈ s2 ∨ swapz 4 r ∈ s2) ∧
    (∀ (t t' : nat) r r', (t < t')%nat → s2 !! t = Some r → s2 !! t' = Some r' →
       pair_leb (keyf 4 r) (keyf 4 r') = true).
Proof.
  apply (reduced_pairs_cover Example.env [] (Example.reduced Example.mesh4 true true)
           [[0; 0]; [1; 3]; [2; 2]; [3; 1]] 2).
  - apply example_reduced_k2opk.
  - apply example_table_wf.
  - apply example_action_table.
  - vm_compute. lia.
  - vm_compute. reflexivity.
Defined.

Lemma transport_to_representative_witness :
  ∃ self', make_kpts_ibz Example.env (Example.prepared Example.mesh4 true true) = Some self' ∧
    ∀ (i : nat) r (mo_coeff_ibz : list cmat) mo,
      ibz2bz self' !! i = Some r → mo_coeff_ibz !! i = Some mo →
      transform_mo_coeff_k Example.env self' mo_coeff_ibz r = Some mo.
Proof.
  apply (transport_to_representative Example.env (Example.prepared Example.mesh4 true true)
           Example.a_cell Example.mesh4 Example.eye [Example.inversion]).
  - apply example_env_ok.
  - apply example_ready.
  - apply example_group_closed.
  - reflexivity.
  - reflexivity.
  - repeat constructor.
  - reflexivity.
  - reflexivity.
  - reflexivity.
  - intros k Hk. destruct k as [|[|[|[|k]]]]; [vm_compute; reflexivity..|simpl in Hk; lia].
Defined.

(** * The groups recorded for the representatives of the pairs *)

Lemma Forall2_rev {A B} (P : A → B → Prop) (l : list A) (k : list B) :
  Forall2 P l k → Forall2 P (rev l) (rev k).
Proof.
  induction 1 as [|x y l k Hxy _ IH]; simpl; [constructor|].
  apply Forall2_app; [done|]. by repeat constructor.
Qed.

Section ClaimExtra.
Context {X : Type}.
Variable cast : Z → Z.
Variable visit : list Z → option X.
Variable rows : list (list Z).

Lemma claim_step_extra (k : nat) (st st' : list Z * list Z * list X) :
claim_step cast visit rows k st = Some st' →
Forall2 (visited visit rows) (snd (fst st)) (snd st) → Forall2 (visited visit rows) (snd (fst st')) (snd st').
Proof.
destruct st as [[c reps] extra]. unfold claim_step. intros H Hf.
destruct (Py.get c (Z.of_nat k)) as [v|]; simpl in H; [|done].
destruct (v =? -1); [|by injection H as <-].
destruct (rows !! k) as [row|] eqn:Er; simpl in H; [|done].
destruct (Py.put c row _); simpl in H; [|done].
destruct (visit row) as [x|] eqn:Ev; simpl in H; [|done].
injection H as <-. simpl in *. apply Forall2_app; [done|].
constructor; [|constructor]. by exists k, row.
Qed.

Lemma claim_desc_extra (m : nat) : ∀ st st' : list Z * list Z * list X,
claim_desc cast visit rows m st = Some st' →
Forall2 (visited visit rows) (snd (fst st)) (snd st) → Forall2 (visited visit rows) (snd (fst st')) (snd st').
Proof.
induction m as [|m IH]; intros st st' H Hf; simpl in H.
- by injection H as <-.
- destruct (claim_step cast visit rows m st) as [st1|] eqn:E1; simpl in H; [|done].
  eapply IH; [exact H|]. by eapply claim_step_extra.
Qed.

Lemma orbit_index_extra (n : nat) (empty R B : list Z) (x : list X) :
orbit_index cast visit n rows empty = Some (R, B, x) →
Forall2 (visited visit rows) R (rev x).
Proof.
unfold orbit_index. intros H.
destruct (claim_desc _ _ _ _ _) as [[[c reps] extra]|] eqn:E1; simpl in H; [|done].
destruct (Py.put_each _ _ _); simpl in H; [|done].
destruct (Py.take _ _); simpl in H; [|done].
injection H as <- <- <-. unfold Py.reversed. apply Forall2_rev.
apply (claim_desc_extra _ _ _ E1). constructor.
Qed.
End ClaimExtra.

Lemma first_occurrences_first {K} (eqb : K → K → bool) (l : list K) (k : K) (p : nat) :
  (k, p) ∈ first_occurrences eqb l → existsb (eqb k) (firstn p l) = false.
Proof.
  unfold first_occurrences. intros [_ H]%list_elem_of_In%filter_In. simpl in H.
  by destruct (existsb _ _).
Qed.

(** what [pair_groups] keeps of a row *)
Lemma pair_groups_spec (row g s : list Z) :
  Forall (λ e, -1 ≤ e) row → pair_groups row = Some (g, s) →
  length s = length g ∧
  (∀ x, x ∈ g ↔ x ∈ row ∧ x ≠ -1) ∧
  (∀ (a b : nat) x y, (a < b)%nat → g !! a = Some x → g !! b = Some y → x < y) ∧
  (∀ (m : nat) x o, g !! m = Some x → s !! m = Some o →
     ∃ so : nat, o = Z.of_nat so ∧ row !! so = Some x ∧ x ∉ take so row).
Proof.
  intros Hrow. unfold pair_groups.
  assert (Heqb : ∀ a b, (a =? b) = true ↔ a = b) by (intros; apply Z.eqb_eq).
  assert (Htot : ∀ a b, (a <=? b) = true ∨ (b <=? a) = true).
  { intros a b. rewrite !Z.leb_le. lia. }
  assert (Htr : ∀ a b c, (a <=? b) = true → (b <=? c) = true → (a <=? c) = true).
  { intros a b c. rewrite !Z.leb_le. lia. }
  destruct (np_unique_index_keys Z.leb Z.eqb Heqb row) as [Hnd Hkeys].
  pose proof (np_unique_index_sorted Z.leb Z.eqb Htot Htr row) as Hsorted.
  pose proof (np_unique_index_lookup Z.leb Z.eqb row) as Hlook.
  assert (Hfirst : ∀ k p, (k, p) ∈ np_unique_index Z.leb Z.eqb row →
                     existsb (Z.eqb k) (firstn p row) = false).
  { intros k p H. apply first_occurrences_first.
    unfold np_unique_index in H. by rewrite sort_keys_perm in H. }
  set (u := np_unique_index Z.leb Z.eqb row) in *.
  assert (Hstrict : ∀ (a b : nat) p q, (a < b)%nat → u !! a = Some p → u !! b = Some q →
                      fst p < fst q).
  { intros a b p q Hab Ha Hb. pose proof (Hsorted a b p q Hab Ha Hb) as Hle.
    apply Z.leb_le in Hle.
    assert (fst p ≠ fst q); [|lia]. intros Heq.
    assert (a = b); [|lia]. eapply (NoDup_lookup _ _ _ _ Hnd).
    - change (map fst u) with (fst <$> u). by rewrite list_lookup_fmap, Ha.
    - change (map fst u) with (fst <$> u). by rewrite list_lookup_fmap, Hb, Heq. }
  assert (Hge : ∀ p, p ∈ u → -1 ≤ fst p).
  { intros p Hp. rewrite Forall_forall in Hrow. apply Hrow, Hkeys.
    change (map fst u) with (fst <$> u). apply list_elem_of_fmap. by exists p. }
  assert (Hsub : ∀ v : list (Z * nat),
            (∀ (m : nat) p, v !! m = Some p → p ∈ u) →
            ∀ (m : nat) x o, map fst v !! m = Some x →
              map (λ q : Z * nat, Z.of_nat (snd q)) v !! m = Some o →
              ∃ so : nat, o = Z.of_nat so ∧ row !! so = Some x ∧ x ∉ take so row).
  { intros v Hv m x o Hx Ho.
    change (map fst v) with (fst <$> v) in Hx.
    change (map (λ q : Z * nat, Z.of_nat (snd q)) v)
      with ((λ q : Z * nat, Z.of_nat (snd q)) <$> v) in Ho.
    rewrite list_lookup_fmap in Hx, Ho.
    destruct (v !! m) as [[k p]|] eqn:Em; [|done]. simpl in Hx, Ho.
    injection Hx as <-. injection Ho as <-.
    pose proof (Hv _ _ Em) as Hin. exists p. split; [done|]. split; [by apply Hlook|].
    intros Hk. pose proof (Hfirst _ _ Hin) as Hf.
    assert (existsb (Z.eqb k) (firstn p row) = true); [|congruence].
    apply existsb_exists. exists k. split; [by apply list_elem_of_In|by apply Z.eqb_eq]. }
  destruct u as [|p u'] eqn:Eu; [done|].
  destruct (Z.eqb_spec (fst p) (-1)) as [Hp|Hp]; intros [= <- <-].
  - split; [by rewrite !length_map|]. split; [|split].
    + intros x. rewrite <- Hkeys. simpl. rewrite elem_of_cons.
      apply NoDup_cons in Hnd as [Hnin _]. simpl in Hnin. split.
      * intros Hx. split; [by right|]. intros ->. apply Hnin. by rewrite Hp.
      * intros [[->|Hx] Hne]; [by rewrite Hp in Hne|done].
    + intros a b x y Hab Ha Hb.
      change (map fst u') with (fst <$> u') in Ha, Hb. rewrite list_lookup_fmap in Ha, Hb.
      destruct (u' !! a) as [pa|] eqn:Ea; [|done]. destruct (u' !! b) as [pb|] eqn:Eb; [|done].
      injection Ha as <-. injection Hb as <-.
      apply (Hstrict (S a) (S b)); [lia|done..].
    + apply Hsub. intros m q Hq. right. by eapply list_elem_of_lookup_2.
  - change (Z.of_nat (snd p) :: map (λ q : Z * nat, Z.of_nat (snd q)) u')
      with (map (λ q : Z * nat, Z.of_nat (snd q)) (p :: u')).
    change (fst p :: map fst u') with (map fst (p :: u')).
    split; [by rewrite !length_map|]. split; [|split].
    + intros x. rewrite <- Hkeys. split; [|by intros [? _]].
      intros Hx. split; [done|].
      change (map fst (p :: u')) with (fst <$> p :: u') in Hx.
      apply list_elem_of_fmap in Hx as (q & -> & Hq).
      pose proof (Hge p ltac:(left)) as Hp1.
      apply elem_of_cons in Hq as [->|Hq]; [done|].
      apply list_elem_of_lookup in Hq as [b Hb].
      pose proof (Hstrict O (S b) p q ltac:(lia) eq_refl Hb). lia.
    + intros a b x y Hab Ha Hb.
      change (map fst (p :: u')) with (fst <$> p :: u') in Ha, Hb.
      rewrite list_lookup_fmap in Ha, Hb.
      destruct ((p :: u') !! a) as [pa|] eqn:Ea; [|done].
      destruct ((p :: u') !! b) as [pb|] eqn:Eb; [|done].
      injection Ha as <-. injection Hb as <-. by apply (Hstrict a b).
    + apply Hsub. intros m q Hq. by eapply list_elem_of_lookup_2.
Qed.

(** X17: for every orbit of pairs [make_kpairs_ibz] records the members of
    the orbit and, for each member, an operation that carries the
    representative to it.  The group of orbit [i] lists, in strictly
    increasing order, exactly the pairs that [bz2ibz_kk] sends to [i], so
    its length is the size of the orbit; the operation recorded beside a
    member is the first column of the table that maps the representative's
    pair to the member. *)
Theorem pair_groups_of_orbits (E : Env) (h : heap) (self : KPoints) (T : list (list Z))
    (nops : nat) (permutation_symmetry : bool) :
  k2opk self = Some T →
  table_wf (_nkpts self) nops T → action_table (_nkpts self) nops T →
  (0 < _nkpts self)%nat → Z.of_nat (_nkpts self * _nkpts self) < 2 ^ 31 →
  ∃ h' self' R B G S,
    make_kpairs_ibz E h self permutation_symmetry = Some (h', self') ∧
    ibz2bz_kk (kk self') = Some R ∧ bz2ibz_kk (kk self') = Some B ∧
    kk_group (kk self') = Some G ∧ kk_sym_group (kk self') = Some S ∧
    length G = length R ∧ length S = length R ∧
    ∀ (i : nat) r g s, R !! i = Some r → G !! i = Some g → S !! i = Some s →
      length s = length g ∧
      (∀ k : nat, Z.of_nat k ∈ g ↔ B !! k = Some (Z.of_nat i)) ∧
      (∀ x, x ∈ g → 0 ≤ x) ∧
      Z.of_nat (length g) = Py.count (Z.of_nat i) B ∧
      (∀ (a b : nat) x y, (a < b)%nat → g !! a = Some x → g !! b = Some y → x < y) ∧
      (∀ (m : nat) x o, g !! m = Some x → s !! m = Some o →
         ∃ so : nat, o = Z.of_nat so ∧ (so < nops)%nat ∧
           pair_image (Z.of_nat (_nkpts self))
             (tbl T (Z.to_nat r / _nkpts self) so)
             (tbl T (Z.to_nat r mod _nkpts self) so) = x ∧
           ∀ so' : nat, (so' < so)%nat →
             pair_image (Z.of_nat (_nkpts self))
               (tbl T (Z.to_nat r / _nkpts self) so')
               (tbl T (Z.to_nat r mod _nkpts self) so') ≠ x).
Proof.
  intros Hk2 Hwf Hgrp Hpos Hsmall.
  destruct (kpairs_unreduced_run E h self T (_nkpts self) nops Hk2 eq_refl Hwf Hgrp Hpos Hsmall)
    as (PT & B & counts & self1 & HPT & Hrun). simpl in Hrun.
  destruct Hrun as (HlB & Hb & Hsame & Hconv & Hrep & _ & Hlc & Hcnt & _ & Hfalse & Htrue &
                    HR & HB & Hlw & Hn).
  remember (_nkpts self) as n eqn:En.
  set (tops := List.filter (is_top PT) (seq 0 (n * n))) in *.
  set (W := map (λ m, f64_of_Z m * (1 / f64_of_Z (Z.of_nat (n * n))))%float counts) in *.
  set (R := map Z.of_nat tops) in *.
  pose proof (PT_wf n nops T PT Hwf Hpos HPT) as HPTwf.
  assert (Hgroups : ∃ x,
            orbit_index Py.int32 pair_groups (n * n) PT
              (map Py.int32 (np_empty E 156 (n * n))) = Some (R, B, x) ∧
            kk_group (kk self1) = Some (rev (map fst x)) ∧
            kk_sym_group (kk self1) = Some (rev (map snd x))).
  { pose proof Hfalse as Hrun. unfold make_kpairs_ibz in Hrun. rewrite Hk2 in Hrun.
    simpl in Hrun. rewrite <- En in Hrun.
    rewrite (ncols_spec n nops T Hwf Hpos), HPT in Hrun. simpl in Hrun.
    destruct (orbit_index _ _ _ _ _) as [[[i2b b2i] x]|] eqn:Hoi; simpl in Hrun; [|done].
    destruct (Py.bincount b2i); simpl in Hrun; [|done].
    destruct (n * n =? 0)%nat; [done|].
    assert (Hs := f_equal (λ o : option (heap * KPoints), snd <$> o) Hrun).
    simpl in Hs. injection Hs as Hs. subst self1. simpl in HR, HB.
    injection HR as ->. injection HB as ->. by exists x. }
  destruct Hgroups as (x & Hoi & HG & HS).
  pose proof (orbit_index_extra _ _ _ _ _ _ _ _ Hoi) as Hvis.
  assert (Hfin : ∃ h' self',
            make_kpairs_ibz E h self permutation_symmetry = Some (h', self') ∧
            ibz2bz_kk (kk self') = Some R ∧ bz2ibz_kk (kk self') = Some B ∧
            kk_group (kk self') = Some (rev (map fst x)) ∧
            kk_sym_group (kk self') = Some (rev (map snd x))).
  { destruct permutation_symmetry; [|by exists (h ++ [W]), self1].
    assert (HlW : length W = length R) by (unfold W, R; by rewrite !length_map).
    destruct (permutation_step_run (h ++ [W]) self1 R W (length h)
                HR Hlw (heap_lookup_last h W) HlW)
      as (s2 & wf & self' & Hstep & _).
    pose proof (permutation_step_effect _ _ _ _ Hstep) as (_ & (H1 & H2 & _ & H3 & H4) & _).
    exists ((h ++ [W]) ++ [wf]), self'. rewrite Htrue, H1, H2, H3, H4. done. }
  destruct Hfin as (h' & self' & Hrun & HR' & HB' & HG' & HS').
  exists h', self', R, B, (rev (map fst x)), (rev (map snd x)).
  do 5 (split; [done|]).
  pose proof (Forall2_length _ _ _ Hvis) as Hlen.
  split; [by rewrite length_rev, length_map, <- (length_rev x)|].
  split; [by rewrite length_rev, length_map, <- (length_rev x)|].
  intros i r g s Hr Hg Hs.
  rewrite <- map_rev in Hg, Hs.
  change (map fst (rev x)) with (fst <$> rev x) in Hg.
  change (map snd (rev x)) with (snd <$> rev x) in Hs.
  rewrite list_lookup_fmap in Hg, Hs.
  destruct (rev x !! i) as [[g' s']|] eqn:Ex; [|done]. simpl in Hg, Hs.
  injection Hg as ->. injection Hs as ->.
  destruct (Forall2_lookup_lr _ _ _ _ _ _ Hvis Hr Ex) as (k & row & -> & Hrow & Hpg).
  rewrite Nat2Z.id.
  assert (Htop : tops !! i = Some k).
  { unfold R in Hr. rewrite list_lookup_fmap in Hr.
    destruct (tops !! i) as [k'|]; [|done]. injection Hr as Hr. f_equal. lia. }
  pose proof (Hrep _ _ Htop) as HBk.
  assert (Hkn : (k < n * n)%nat).
  { apply lookup_lt_Some in HBk. lia. }
  destruct HPTwf as [HlPT Hrows].
  pose proof (Forall_lookup_1 _ _ _ _ Hrows Hrow) as [Hlrow Hrange].
  destruct (pair_groups_spec row g s) as (Hl & Hmem & Hasc & Hops); [|done|].
  { eapply Forall_impl; [exact Hrange|]. simpl. lia. }
  assert (Hin : ∀ k' : nat, Z.of_nat k' ∈ g ↔ B !! k' = Some (Z.of_nat i)).
  { intros k'. rewrite Hmem. split.
    - intros [Hk' _]. rewrite <- HBk. symmetry. apply Hsame. by exists row.
    - intros Hk'. split; [|lia].
      assert (Hr' : reach PT k k').
      { apply Hconv; [done| |congruence]. apply lookup_lt_Some in Hk'. lia. }
      destruct Hr' as (row' & Hrow' & Hin). congruence. }
  assert (Hnn : ∀ z, z ∈ g → 0 ≤ z).
  { intros z [Hz Hne]%Hmem. rewrite Forall_forall in Hrange. apply Hrange in Hz. lia. }
  split; [done|]. split; [done|]. split; [done|]. split; [|split; [done|]].
  - rewrite <- where_length. f_equal. apply Permutation_length, NoDup_Permutation.
    + apply NoDup_alt. intros a b z Ha Hb'.
      destruct (Nat.lt_trichotomy a b) as [Hab|[Hab|Hab]]; [|done|].
      * pose proof (Hasc _ _ _ _ Hab Ha Hb'). lia.
      * pose proof (Hasc _ _ _ _ Hab Hb' Ha). lia.
    + apply where_NoDup.
    + intros z. rewrite where_elem. split.
      * intros Hz. pose proof (Hnn z Hz) as Hz0. exists (Z.to_nat z), (Z.of_nat i).
        split; [lia|]. split; [|by apply Z.eqb_eq]. apply Hin. by rewrite Z2Nat.id.
      * intros (k' & y & -> & Hk' & <-%Z.eqb_eq). by apply Hin.
  - intros m z o Hz Ho. destruct (Hops m z o Hz Ho) as (so & -> & Hso & Hfirst).
    assert (Hson : (so < nops)%nat) by (apply lookup_lt_Some in Hso; lia).
    exists so. split; [done|]. split; [done|].
    assert (Htbl : ∀ t, (t < nops)%nat →
              pair_image (Z.of_nat n) (tbl T (k / n) t) (tbl T (k mod n) t)
              = default (-1) (row !! t)).
    { intros t Ht. rewrite <- (tbl_pair n nops T PT Hwf Hpos HPT k t Hkn Ht).
      unfold tbl. by rewrite Hrow. }
    split.
    + rewrite Htbl by done. by rewrite Hso.
    + intros so' Hlt. rewrite Htbl by lia. intros Heq. apply Hfirst.
      destruct (lookup_lt_is_Some_2 row so') as [y Hy]; [lia|].
      rewrite Hy in Heq. simpl in Heq. subst y.
      apply (list_elem_of_lookup_2 _ so'). rewrite lookup_take_lt by done. done.
Qed.

(** * Energies over the zone *)

(** X18: the energies that [transform_mo_energy] spreads over the zone are
    those of the representatives, so two points that [bz2ibz] sends to the
    same representative receive the same energies, in every spin channel. *)
Theorem transform_mo_energy_degenerate (self : KPoints) (mo_energy_ibz out : spin fvec) :
  transform_mo_energy self mo_energy_ibz = Some out →
  ∀ k k' : nat, (k < _nkpts self)%nat → (k' < _nkpts self)%nat →
    Py.get (bz2ibz self) (Z.of_nat k) = Py.get (bz2ibz self) (Z.of_nat k') →
    match out with
    | Restricted e => e !! k = e !! k' ∧ is_Some (e !! k)
    | Unrestricted ea eb =>
        ea !! k = ea !! k' ∧ eb !! k = eb !! k' ∧ is_Some (ea !! k) ∧ is_Some (eb !! k)
    end.
Proof.
  intros H k k' Hk Hk' Heq.
  change (transform_mo_occ self mo_energy_ibz = Some out) in H.
  apply transform_mo_occ_entries in H.
  destruct mo_energy_ibz as [x|a b], out as [e|ea eb]; try done.
  - destruct H as [_ H].
    destruct (H k Hk) as (i & v & Hi & Hv & Hek).
    destruct (H k' Hk') as (i' & v' & Hi' & Hv' & Hek').
    rewrite Heq, Hi' in Hi. injection Hi as ->. rewrite Hv in Hv'. injection Hv' as <-.
    rewrite Hek, Hek'. split; [done|by eexists].
  - destruct H as (_ & _ & H).
    destruct (H k Hk) as (i & va & vb & Hi & Hva & Hvb & Hea & Heb).
    destruct (H k' Hk') as (i' & va' & vb' & Hi' & Hva' & Hvb' & Hea' & Heb').
    rewrite Heq, Hi' in Hi. injection Hi as ->.
    rewrite Hva in Hva'. injection Hva' as <-. rewrite Hvb in Hvb'. injection Hvb' as <-.
    rewrite Hea, Hea', Heb, Heb'. split; [done|]. split; [done|]. split; by eexists.
Qed.

Lemma transform_mo_energy_degenerate_witness :
  ∃ e, transform_mo_energy (Example.reduced Example.mesh4 true true)
         (Restricted [[-0.5; 0.25]; [-0.5; 0.25]; [0; 0.5]]%float)
       = Some (Restricted e) ∧
       e !! 1%nat = e !! 3%nat ∧ is_Some (e !! 1%nat).
Proof.
  exists [[-0.5; 0.25]; [0; 0.5]; [-0.5; 0.25]; [0; 0.5]]%float.
  split; [vm_compute; reflexivity|].
  apply (transform_mo_energy_degenerate (Example.reduced Example.mesh4 true true)
           (Restricted [[-0.5; 0.25]; [-0.5; 0.25]; [0; 0.5]]%float)
           (Restricted [[-0.5; 0.25]; [0; 0.5]; [-0.5; 0.25]; [0; 0.5]]%float)
           eq_refl 1%nat 3%nat); vm_compute; (reflexivity || lia).
Defined.

Lemma pair_groups_of_orbits_witness :
  ∃ h' self' R B G S,
    make_kpairs_ibz Example.env [] (Example.reduced Example.mesh4 true true) true
      = Some (h', self') ∧
    ibz2bz_kk (kk self') = Some R ∧ bz2ibz_kk (kk self') = Some B ∧
    kk_group (kk self') = Some G ∧ kk_sym_group (kk self') = Some S ∧
    length G = length R ∧ length S = length R ∧
    ∀ (i : nat) r g s, R !! i = Some r → G !! i = Some g → S !! i = Some s →
      length s = length g ∧
      (∀ k : nat, Z.of_nat k ∈ g ↔ B !! k = Some (Z.of_nat i)) ∧
      (∀ x, x ∈ g → 0 ≤ x) ∧
      Z.of_nat (length g) = Py.count (Z.of_nat i) B ∧
      (∀ (a b : nat) x y, (a < b)%nat → g !! a = Some x → g !! b = Some y → x < y) ∧
      (∀ (m : nat) x o, g !! m = Some x → s !! m = Some o →
         ∃ so : nat, o = Z.of_nat so ∧ (so < 2)%nat ∧
           pair_image 4
             (tbl [[0; 0]; [1; 3]; [2; 2]; [3; 1]] (Z.to_nat r / 4) so)
             (tbl [[0; 0]; [1; 3]; [2; 2]; [3; 1]] (Z.to_nat r mod 4) so) = x ∧
           ∀ so' : nat, (so' < so)%nat →
             pair_image 4
               (tbl [[0; 0]; [1; 3]; [2; 2]; [3; 1]] (Z.to_nat r / 4) so')
               (tbl [[0; 0]; [1; 3]; [2; 2]; [3; 1]] (Z.to_nat r mod 4) so') ≠ x).
Proof.
  apply (pair_groups_of_orbits Example.env [] (Example.reduced Example.mesh4 true true)
           [[0; 0]; [1; 3]; [2; 2]; [3; 1]] 2 true).
  - apply example_reduced_k2opk.
  - apply example_table_wf.
  - apply example_action_table.
  - vm_compute. lia.
  - vm_compute. reflexivity.
Defined.

Lemma KPoints_init_trivial_orbits_witness :
  ∃ self, KPoints_init Example.env (Some Example.a_cell) Example.mesh4 = Some self ∧
    _nkpts self = length Example.mesh4 ∧ _nkpts_ibz self = length Example.mesh4 ∧
    kpts_ibz self = Example.mesh4 ∧ weights_ibz self = weights self ∧
    length (weights self) = length Example.mesh4 ∧
    (∀ k w, weights self !! k = Some w →
       w = (1 / f64_of_Z (Z.of_nat (length Example.mesh4)))%float) ∧
    (∀ k, (k < length Example.mesh4)%nat →
       bz2ibz self !! k = Some (Z.of_nat k) ∧ ibz2bz self !! k = Some (Z.of_nat k)) ∧
    k2opk self = None ∧ stars self = [] ∧ time_reversal self = false.
Proof.
  apply (proj2 (KPoints_init_trivial_orbits Example.env (Some Example.a_cell) Example.mesh4)).
  discriminate.
Defined.

(** * Where the orbit lists and the weights leave the ideal picture *)


(** C2 as worded fails in binary64: on 49 points without symmetry every
    orbit is one point and [weights_ibz[0]] is [1 * (1.0 / 49)]; times 49
    this is [1 - 2^-53], not the orbit size 1, and the stored weights add
    up to a number that is not 1, neither added from left to right in
    binary64 nor added without rounding. *)
Lemma weights_ibz_rounding_counterexample :
  ∃ h self w star q,
    Example.built (Example.line 49) false false = Some (h, self, true) ∧
    _nkpts self = 49%nat ∧
    weights_ibz self !! 0%nat = Some w ∧ stars self !! 0%nat = Some star ∧
    length star = 1%nat ∧
    (w * f64_of_Z 49)%float ≠ f64_of_Z 1 ∧
    f64_exact (w * f64_of_Z 49) = Some (9007199254740991 # 9007199254740992)%Q ∧
    f64_sum (weights_ibz self) ≠ 1%float ∧
    f64_exact_sum (weights_ibz self) = Some q ∧ ¬ (q == 1)%Q.
Proof.
  eexists _, _, _, _, _.
  split; [vm_compute; reflexivity|].
  split; [reflexivity|]. split; [reflexivity|]. split; [reflexivity|].
  split; [reflexivity|].
  split; [vm_compute; discriminate|].
  split; [vm_compute; reflexivity|].
  split; [vm_compute; discriminate|].
  split; [vm_compute; reflexivity|].
  vm_compute. discriminate.
Qed.

(** C4 as worded fails in binary64: on 7 points without symmetry the 49
    unreduced weights [1 * (1.0 / 49)] and the 28 reduced ones add up,
    from left to right, to two different numbers, neither of them 1; added
    without rounding both lists give the same number, which is not 1
    either. *)
Lemma pair_weights_rounding_counterexample :
  ∃ h self W w_s2 q,
    Example.built (Example.line 7) false false = Some (h, self, true) ∧
    (lw ← ibz_kk_weight (kk self); h !! lw) = Some W ∧
    (l2 ← ibz_kk_s2_weight (kk self); h !! l2) = Some w_s2 ∧
    length W = 49%nat ∧ length w_s2 = 28%nat ∧
    f64_sum W ≠ 1%float ∧ f64_sum w_s2 ≠ 1%float ∧ f64_sum w_s2 ≠ f64_sum W ∧
    f64_exact_sum W = Some q ∧ f64_exact_sum w_s2 = Some q ∧ ¬ (q == 1)%Q.
Proof.
  eexists _, _, _, _, _.
  split; [vm_compute; reflexivity|].
  split; [vm_compute; reflexivity|].
  split; [vm_compute; reflexivity|].
  split; [reflexivity|]. split; [reflexivity|].
  split; [vm_compute; discriminate|].
  split; [vm_compute; discriminate|].
  split; [vm_compute; discriminate|].
  split; [vm_compute; reflexivity|].
  split; [vm_compute; reflexivity|].
  vm_compute. discriminate.
Qed.
